(** * asmdiff: a shallow embedding of [asmdiff/asmdiff.py]

    The development follows the layout of the Python module: text helpers
    and the regular expressions used by the parser, the data model
    ([Instruction], [Function], [Scope], [AsmFile]), the [ObjDump] parser,
    the function differ ([fn_equal], [fn_diff]), the matchup engine
    ([MatchupSet], [FunctionPeer], [FunctionMatchupSet]) and the report
    generator ([asm_diff]).

    Conventions.
    - A Python [str] is a [string]; a character is an [ascii], read as a
      code point below 256.
    - A Python [int] is a [Z]; [len] results are injected with [Z.of_nat].
    - The external [c++filt] process behind [Demangler.demangle] is a
      function [demangle : string -> string] taken as a parameter.
    - Exceptions are values of [PyError]; a computation that may raise
      returns [PyError + A], [inl] on failure. *)

From Stdlib Require Import String Ascii List ZArith Lia Bool Arith.
From Stdlib Require Import DecimalString HexadecimalString.
Import ListNotations.

Local Open Scope string_scope.
Local Open Scope list_scope.

(* ------------------------------------------------------------------ *)
(** ** Text helpers *)

Module Text.

(** [s[:n]] for [0 <= n]. *)
Fixpoint take (n : nat) (s : string) : string :=
  match n, s with
  | S n', String c s' => String c (take n' s')
  | _, _ => EmptyString
  end.

(** [s[n:]] for [0 <= n]. *)
Fixpoint drop (n : nat) (s : string) : string :=
  match n, s with
  | S n', String _ s' => drop n' s'
  | _, _ => s
  end.

(** [s[a:b]] for [0 <= a <= b]. *)
Definition slice (a b : nat) (s : string) : string :=
  take (b - a) (drop a s).

(** Every character of [s] satisfies [p]. *)
Fixpoint all_chars (p : ascii -> bool) (s : string) : bool :=
  match s with
  | EmptyString => true
  | String c s' => p c && all_chars p s'
  end.

Fixpoint starts_with (pre s : string) : bool :=
  match pre, s with
  | EmptyString, _ => true
  | String a pre', String b s' => Ascii.eqb a b && starts_with pre' s'
  | String _ _, EmptyString => false
  end.

Definition code (c : ascii) : nat := nat_of_ascii c.

(** [lo <= ord(c) <= hi]. *)
Definition between (lo hi : nat) (c : ascii) : bool :=
  Nat.leb lo (code c) && Nat.leb (code c) hi.

Definition newline : ascii := ascii_of_nat 10.
Definition tab : ascii := ascii_of_nat 9.

(** The class [[0-9a-f]]. *)
Definition is_hex (c : ascii) : bool :=
  between 48 57 c || between 97 102 c.

(** The class [[0-9a-f ]]. *)
Definition is_hex_or_space (c : ascii) : bool :=
  is_hex c || Ascii.eqb c " ".

(** Python's [\s] on [str] patterns, for code points below 256:
    [\t\n\v\f\r], the separators 0x1c..0x1f, the space, NEL and NBSP. *)
Definition is_space (c : ascii) : bool :=
  between 9 13 c || between 28 32 c || between 133 133 c || between 160 160 c.

(** The class [.] (no DOTALL): anything but a newline. *)
Definition is_dot (c : ascii) : bool := negb (Ascii.eqb c newline).

Definition hex_digit (c : ascii) : Z :=
  if between 48 57 c then Z.of_nat (code c - 48)
  else Z.of_nat (code c - 87).

(** [int(s, 16)] on a string of lower-case hexadecimal digits. *)
Definition from_hex (s : string) : Z :=
  (fix go (acc : Z) (s : string) : Z :=
     match s with
     | EmptyString => acc
     | String c s' => go (16 * acc + hex_digit c)%Z s'
     end) 0%Z s.

(** [str(n)] for an [int]. *)
Definition str_of_int (n : Z) : string :=
  DecimalString.NilZero.string_of_int (Z.to_int n).

(** ['%x' % n]. *)
Definition hex_of_int (n : Z) : string :=
  match n with
  | Z0 => "0"
  | Zpos p => HexadecimalString.NilZero.string_of_uint (Pos.to_hex_uint p)
  | Zneg p => "-" ++ HexadecimalString.NilZero.string_of_uint (Pos.to_hex_uint p)
  end.

(** [str(HexInt(n))], that is ['0x%x' % n]. *)
Definition str_of_HexInt (n : Z) : string := "0x" ++ hex_of_int n.

Fixpoint spaces (n : nat) : string :=
  match n with
  | O => EmptyString
  | S n' => String " " (spaces n')
  end.

(** ['%04s' % s]: right-justified in a field of four, padded with spaces
    (the [0] flag has no effect on [%s]). *)
Definition pad4 (s : string) : string :=
  spaces (4 - String.length s) ++ s.

(** [s.split()]: split on runs of white space, dropping empty fields. *)
Fixpoint split_ws_aux (cur : string) (s : string) : list string :=
  match s with
  | EmptyString => match cur with EmptyString => [] | _ => [cur] end
  | String c s' =>
      if is_space c
      then match cur with
           | EmptyString => split_ws_aux EmptyString s'
           | _ => cur :: split_ws_aux EmptyString s'
           end
      else split_ws_aux (cur ++ String c EmptyString) s'
  end.

Definition split_ws (s : string) : list string := split_ws_aux EmptyString s.

(** [s.split(sep)] for a non-empty separator: [skip] counts the characters
    of a separator occurrence still to be jumped over. *)
Fixpoint split_on_aux (sep : string) (skip : nat) (cur : string) (s : string)
  : list string :=
  match s with
  | EmptyString => [cur]
  | String c s' =>
      match skip with
      | S k => split_on_aux sep k cur s'
      | O =>
          if starts_with sep s
          then cur :: split_on_aux sep (String.length sep - 1) EmptyString s'
          else split_on_aux sep O (cur ++ String c EmptyString) s'
      end
  end.

Definition split_on (sep s : string) : list string :=
  split_on_aux sep O EmptyString s.

(** [s.replace(old, new)] for a non-empty [old]. *)
Fixpoint replace_aux (old new : string) (skip : nat) (s : string) : string :=
  match s with
  | EmptyString => EmptyString
  | String c s' =>
      match skip with
      | S k => replace_aux old new k s'
      | O =>
          if starts_with old s
          then new ++ replace_aux old new (String.length old - 1) s'
          else String c (replace_aux old new O s')
      end
  end.

Definition replace (old new s : string) : string := replace_aux old new O s.

End Text.

(* ------------------------------------------------------------------ *)
(** ** Regular expressions

    The fragment of Python's [re] that the module uses, with the
    backtracking order of [re.match]: alternatives are tried greedily,
    longest repetition first, and the first success is the match. *)

Module Re.

Import Text.

Inductive regex : Type :=
| Chr (c : ascii)                 (* a literal character *)
| Cls (p : ascii -> bool)         (* one character of a class *)
| Star (p : ascii -> bool)        (* [c*], greedy *)
| Plus (p : ascii -> bool)        (* [c+], greedy *)
| Seq (r1 r2 : regex)
| Group (n : nat) (r : regex)     (* capture group number [n] *)
| Eol.                            (* [$] *)

(** Spans of the capture groups, most recent first. *)
Definition groups := list (nat * (nat * nat)).

Fixpoint span (n : nat) (g : groups) : nat * nat :=
  match g with
  | [] => (0, 0)
  | (m, sp) :: g' => if Nat.eqb m n then sp else span n g'
  end.

(** [$]: at the end of the text, or just before a final newline. *)
Definition at_eol (s : string) : bool :=
  match s with
  | EmptyString => true
  | String c EmptyString => Ascii.eqb c newline
  | _ => false
  end.

Section Matcher.

Context {R : Type}.

(** Greedy repetition of a class: consume as much as possible, and give
    characters back one at a time while the continuation fails. *)
Fixpoint star (p : ascii -> bool) (s : string) (pos : nat)
    (k : string -> nat -> option R) : option R :=
  match s with
  | String c s' =>
      if p c
      then match star p s' (S pos) k with
           | Some r => Some r
           | None => k s pos
           end
      else k s pos
  | EmptyString => k s pos
  end.

(** [run r s pos g k]: match [r] at offset [pos], where [s] is the text
    from [pos] on; [k] is the rest of the pattern. *)
Fixpoint run (r : regex) (s : string) (pos : nat) (g : groups)
    (k : string -> nat -> groups -> option R) : option R :=
  match r with
  | Chr c =>
      match s with
      | String d s' => if Ascii.eqb d c then k s' (S pos) g else None
      | EmptyString => None
      end
  | Cls p =>
      match s with
      | String d s' => if p d then k s' (S pos) g else None
      | EmptyString => None
      end
  | Star p => star p s pos (fun s' pos' => k s' pos' g)
  | Plus p =>
      match s with
      | String d s' =>
          if p d then star p s' (S pos) (fun s' pos' => k s' pos' g) else None
      | EmptyString => None
      end
  | Seq r1 r2 => run r1 s pos g (fun s' pos' g' => run r2 s' pos' g' k)
  | Group n r1 =>
      run r1 s pos g (fun s' pos' g' => k s' pos' ((n, (pos, pos')) :: g'))
  | Eol => if at_eol s then k s pos g else None
  end.

End Matcher.

(** A literal word. *)
Fixpoint Lit (w : string) (r : regex) : regex :=
  match w with
  | EmptyString => r
  | String c w' => Seq (Chr c) (Lit w' r)
  end.

(** A match object: the subject and the spans of its groups. *)
Record Match := { subject : string; spans : groups }.

(** [re.match(r, s)]: anchored at the start, free at the end. *)
Definition rmatch (r : regex) (s : string) : option Match :=
  run r s 0 [] (fun _ _ g => Some {| subject := s; spans := g |}).

Definition mstart (m : Match) (n : nat) : nat := fst (span n (spans m)).
Definition mend (m : Match) (n : nat) : nat := snd (span n (spans m)).
Definition group (m : Match) (n : nat) : string :=
  slice (mstart m n) (mend m n) (subject m).

(** The patterns of the module, in source order. *)

(** [.*\s([0-9a-f]+ \<.+\+0x[0-9a-f]+\>)] *)
Definition re_self_jump : regex :=
  Seq (Star is_dot) (Seq (Cls is_space)
    (Group 1 (Seq (Plus is_hex) (Lit " <" (Seq (Plus is_dot)
       (Lit "+0x" (Seq (Plus is_hex) (Chr ">")))))))).

(** [[0-9a-f]+ \<(.+)\+(0x[0-9a-f]+)\>] *)
Definition re_self_jump_parts : regex :=
  Seq (Plus is_hex) (Lit " <" (Seq (Group 1 (Plus is_dot))
    (Seq (Chr "+") (Seq (Group 2 (Lit "0x" (Plus is_hex))) (Chr ">"))))).

(** [.*\s([0-9a-f]+) (\<.+\>)] *)
Definition re_other_jump : regex :=
  Seq (Star is_dot) (Seq (Cls is_space)
    (Seq (Group 1 (Plus is_hex)) (Seq (Chr " ")
       (Group 2 (Seq (Chr "<") (Seq (Plus is_dot) (Chr ">"))))))).

(** [^(.+):\s+file format (.+)$] *)
Definition re_file_format : regex :=
  Seq (Group 1 (Plus is_dot)) (Seq (Chr ":") (Seq (Plus is_space)
    (Lit "file format " (Seq (Group 2 (Plus is_dot)) Eol)))).

(** [^Disassembly of section (.+):$] *)
Definition re_section : regex :=
  Lit "Disassembly of section " (Seq (Group 1 (Plus is_dot)) (Seq (Chr ":") Eol)).

(** [^([0-9a-f]+) <(.+)>:$] *)
Definition re_function : regex :=
  Seq (Group 1 (Plus is_hex)) (Lit " <" (Seq (Group 2 (Plus is_dot))
    (Lit ">:" Eol))).

(** [^\s*([0-9a-f]+):\t([0-9a-f ]+)\t(.+)$] *)
Definition re_instr : regex :=
  Seq (Star is_space) (Seq (Group 1 (Plus is_hex)) (Seq (Chr ":")
    (Seq (Chr tab) (Seq (Group 2 (Plus is_hex_or_space)) (Seq (Chr tab)
       (Seq (Group 3 (Plus is_dot)) Eol)))))).

(** [^\s*([0-9a-f]+):\t([0-9a-f ]+)$] *)
Definition re_instr_data : regex :=
  Seq (Star is_space) (Seq (Group 1 (Plus is_hex)) (Seq (Chr ":")
    (Seq (Chr tab) (Seq (Group 2 (Plus is_hex_or_space)) Eol)))).

End Re.

Import Text Re.

(* ------------------------------------------------------------------ *)
(** ** Exceptions *)

Inductive PyError : Type :=
| ValueError (fmt : string) (arg : string)  (* [ValueError(fmt % arg)], [%r] of a line *)
| TypeError (msg : string)
| AttributeError (msg : string).

Definition result (A : Type) : Type := (PyError + A)%type.

Definition raise {A : Type} (e : PyError) : result A := inl e.
Definition ret {A : Type} (a : A) : result A := inr a.

Definition bind {A B : Type} (c : result A) (k : A -> result B) : result B :=
  match c with
  | inl e => inl e
  | inr a => k a
  end.

Notation "x <- c ;; k" := (bind c (fun x => k))
  (at level 61, c at next level, right associativity).

(* ------------------------------------------------------------------ *)
(** ** Insertion-ordered dictionaries

    A [dict] (or [OrderedDict]) is an association list in insertion order;
    assigning to a key that is present keeps the key and its position. *)

Section Dict.

Context {K V : Type} (eqb : K -> K -> bool).

Fixpoint dict_get (k : K) (d : list (K * V)) : option V :=
  match d with
  | [] => None
  | (k', v) :: d' => if eqb k' k then Some v else dict_get k d'
  end.

Definition dict_has (k : K) (d : list (K * V)) : bool :=
  match dict_get k d with Some _ => true | None => false end.

Fixpoint dict_set (k : K) (v : V) (d : list (K * V)) : list (K * V) :=
  match d with
  | [] => [(k, v)]
  | (k', v') :: d' =>
      if eqb k' k then (k', v) :: d' else (k', v') :: dict_set k v d'
  end.

Definition dict_values (d : list (K * V)) : list V := map snd d.
Definition dict_keys (d : list (K * V)) : list K := map fst d.

End Dict.

(* ------------------------------------------------------------------ *)
(** ** Data model *)

Record Instruction : Type := mkInstruction {
  instr_offset : Z;          (* [Instruction.offset] *)
  bytes_ : list Z;
  disasm : string
}.

(** [class Section]; two sections are equal when their names are. *)
Record SectionObj : Type := mkSection { section_name : string }.

Record Function : Type := mkFunction {
  section : option SectionObj;   (* [None] before any section marker *)
  offset : Z;
  rawname : string;
  demangled : string;
  leafname : string;
  instrs : list Instruction;
  padding : list Instruction;
  size : Z
}.

(** [Function.__init__]. *)
Definition new_Function (sec : option SectionObj) (off : Z)
    (raw dem leaf : string) : Function :=
  mkFunction sec off raw dem leaf [] [] 0%Z.

(** [Function.__eq__] and [Function.__hash__]: by raw name only. *)
Definition Function_eqb (f g : Function) : bool :=
  String.eqb (rawname f) (rawname g).

(** A [for] loop over [l] whose body reports whether it executed [break]. *)
Fixpoint for_each {A S : Type} (body : A -> S -> S * bool) (l : list A) (s : S) : S :=
  match l with
  | [] => s
  | a :: l' =>
      let '(s', stop) := body a s in
      if stop then s' else for_each body l' s'
  end.

Definition sum_Z (l : list Z) : Z := fold_left Z.add l 0%Z.

(** [Function.finish].  The body of the loop over [self.instrs[::-1]]
    ends in [break], outside the [if]. *)
Definition finish (f : Function) : Function :=
  let start_of_padding :=
    for_each
      (fun instr (start : nat) =>
         let start := if String.eqb (disasm instr) "nop" then start - 1 else start in
         (start, true))
      (rev (instrs f)) (List.length (instrs f)) in
  let padding' := skipn start_of_padding (instrs f) in
  let instrs' := firstn start_of_padding (instrs f) in
  let size' := sum_Z (map (fun instr => Z.of_nat (List.length (bytes_ instr))) instrs') in
  mkFunction (section f) (offset f) (rawname f) (demangled f) (leafname f)
             instrs' padding' size'.

(** [Scope(dict)]: a name and a dictionary from name components to
    scopes or functions.  A function is held by reference: [FunctionRef i]
    is the [i]-th [Function] object created by the parser. *)
#[warnings="-register-all"]
Inductive Node : Type :=
| Scope (name : string) (entries : list (string * Node))
| FunctionRef (id : nat).

(** [root[c1][c2]...[ck]]: the object reached from a scope by following
    name components; [None] when a component is missing or the walk runs
    into a function before the path ends. *)
Fixpoint scope_lookup (path : list string) (node : Node) : option Node :=
  match path with
  | [] => Some node
  | x :: rest =>
      match node with
      | Scope _ d =>
          match dict_get String.eqb x d with
          | Some child => scope_lookup rest child
          | None => None
          end
      | FunctionRef _ => None
      end
  end.

(** [AsmFile]/[ObjDump].  [heap] holds the [Function] objects in creation
    order; [functions], [rootns] and [_cur_function] refer to them by
    index, so that a mutation of the current function is seen through
    every reference. *)
Record AsmFile : Type := mkAsmFile {
  objpath : option string;
  fileformat : option string;
  cur_section : option SectionObj;     (* [_cur_section] *)
  cur_function : option nat;           (* [_cur_function] *)
  sections : list (string * SectionObj);
  functions : list (string * nat);
  rootns : Node;
  heap : list Function
}.

Definition set_heap (a : AsmFile) (h : list Function) : AsmFile :=
  mkAsmFile (objpath a) (fileformat a) (cur_section a) (cur_function a)
            (sections a) (functions a) (rootns a) h.

(** In-place update of the object at [id]. *)
Fixpoint heap_update (id : nat) (g : Function -> Function) (h : list Function)
  : list Function :=
  match h, id with
  | [], _ => []
  | f :: h', O => g f :: h'
  | f :: h', S id' => f :: heap_update id' g h'
  end.

(** The objects a dictionary of references denotes. *)
Fixpoint resolve (h : list Function) (d : list (string * nat))
  : list (string * Function) :=
  match d with
  | [] => []
  | (k, id) :: d' =>
      match nth_error h id with
      | Some f => (k, f) :: resolve h d'
      | None => resolve h d'
      end
  end.

(** [asmfile.functions.items()], each reference replaced by its object. *)
Definition functions_items (a : AsmFile) : list (string * Function) :=
  resolve (heap a) (functions a).

(** [asmfile.functions.values()]. *)
Definition functions_values (a : AsmFile) : list Function :=
  dict_values (functions_items a).

(* ------------------------------------------------------------------ *)
(** ** The objdump parser *)

Section Parser.

(** [Demangler.demangle]: one name in, one string out. *)
Variable demangle : string -> string.

(** [ObjDump.fixup_disasm], first block: "Fixup jump offsets to refer to
    FN".  [m2.group] on a failed match raises [AttributeError]. *)
Definition fixup_self_jump (disasm rawfuncname : string) : result string :=
  match rmatch re_self_jump disasm with
  | Some m =>
      match rmatch re_self_jump_parts (group m 1) with
      | Some m2 =>
          if String.eqb (group m2 1) rawfuncname
          then ret (take (mstart m 1) disasm ++ "FN+" ++ group m2 2
                      ++ drop (mend m 1) disasm)%string
          else ret disasm
      | None => raise (AttributeError "'NoneType' object has no attribute 'group'")
      end
  | None => ret disasm
  end.

(** [ObjDump.fixup_disasm], second block: "Fixup jumps to other functions
    by removing the offset within the section, and demangling". *)
Definition fixup_other_jump (disasm rawfuncname : string) : result string :=
  match rmatch re_other_jump disasm with
  | Some m =>
      if negb (String.eqb (group m 2) rawfuncname)
      then ret (take (mstart m 1) disasm ++ demangle (group m 2))%string
      else ret disasm
  | None => ret disasm
  end.

(** [ObjDump.fixup_disasm]: the two blocks in sequence, the second on the
    text left by the first. *)
Definition fixup_disasm (disasm rawfuncname : string) : result string :=
  disasm <- fixup_self_jump disasm rawfuncname ;;
  fixup_other_jump disasm rawfuncname.

(** [ObjDump._on_section]. *)
Definition _on_section (a : AsmFile) (name : string) : AsmFile :=
  let sec := mkSection name in
  mkAsmFile (objpath a) (fileformat a) (Some sec) (cur_function a)
            (dict_set String.eqb name sec (sections a)) (functions a)
            (rootns a) (heap a).

(** The walk of [_on_function] through the scope tree: descend along
    [scopes[:-1]], creating missing scopes, then bind [scopes[-1]] to the
    function.  Testing [scope not in curscope] or assigning an item when
    [curscope] is a [Function] raises [TypeError]. *)
Fixpoint scope_insert (scopes : list string) (last : string) (fn : nat)
    (curscope : Node) : result Node :=
  match scopes with
  | [] =>
      match curscope with
      | Scope nm d => ret (Scope nm (dict_set String.eqb last (FunctionRef fn) d))
      | FunctionRef _ =>
          raise (TypeError "'Function' object does not support item assignment")
      end
  | scope :: rest =>
      match curscope with
      | Scope nm d =>
          let child :=
            match dict_get String.eqb scope d with
            | Some c => c
            | None => Scope scope []
            end in
          child' <- scope_insert rest last fn child ;;
          ret (Scope nm (dict_set String.eqb scope child' d))
      | FunctionRef _ =>
          raise (TypeError "argument of type 'Function' is not iterable")
      end
  end.

(** [ObjDump._on_function]. *)
Definition _on_function (a : AsmFile) (off : Z) (name : string) : result AsmFile :=
  let heap1 :=
    match cur_function a with
    | Some id => heap_update id finish (heap a)
    | None => heap a
    end in
  let demangled := demangle name in
  let scopes := split_on "::" demangled in
  let fn := new_Function (cur_section a) off name demangled (last scopes "") in
  let id := List.length heap1 in
  rootns' <- scope_insert (removelast scopes) (last scopes "") id (rootns a) ;;
  ret (mkAsmFile (objpath a) (fileformat a) (cur_section a) (Some id)
                 (sections a) (dict_set String.eqb name id (functions a))
                 rootns' (heap1 ++ [fn])).

(** [ObjDump._on_instruction]. *)
Definition _on_instruction (a : AsmFile) (off : Z) (hexdump : list Z)
    (disasm : string) : result AsmFile :=
  match cur_function a with
  | Some id =>
      match nth_error (heap a) id with
      | Some f =>
          disasm <- fixup_disasm disasm (rawname f) ;;
          let instr := mkInstruction off hexdump disasm in
          ret (set_heap a
                 (heap_update id
                    (fun f => mkFunction (section f) (offset f) (rawname f)
                                (demangled f) (leafname f) (instrs f ++ [instr])
                                (padding f) (size f))
                    (heap a)))
      | None => raise (AttributeError "'NoneType' object has no attribute 'rawname'")
      end
  | None => raise (AttributeError "'NoneType' object has no attribute 'rawname'")
  end.

Definition blank_line : string := String newline EmptyString.

(** [if self._cur_function: m = re.match(...)]. *)
Definition match_in_function (a : AsmFile) (r : regex) (line : string)
  : option Match :=
  match cur_function a with
  | Some _ => rmatch r line
  | None => None
  end.

(** One iteration of the loop of [ObjDump.__init__] ([debug_level] is 0). *)
Definition on_line (a : AsmFile) (line : string) : result AsmFile :=
  if String.eqb line blank_line then ret a else
  match rmatch re_file_format line with
  | Some m =>
      ret (mkAsmFile (Some (group m 1)) (Some (group m 2)) (cur_section a)
                     (cur_function a) (sections a) (functions a) (rootns a)
                     (heap a))
  | None =>
  match rmatch re_section line with
  | Some m => ret (_on_section a (group m 1))
  | None =>
  match rmatch re_function line with
  | Some m => _on_function a (from_hex (group m 1)) (group m 2)
  | None =>
  match match_in_function a re_instr line with
  | Some m =>
      _on_instruction a (from_hex (group m 1))
                      (map from_hex (split_ws (group m 2))) (group m 3)
  | None =>
  match match_in_function a re_instr_data line with
  | Some m =>
      _on_instruction a (from_hex (group m 1))
                      (map from_hex (split_ws (group m 2))) ""
  | None => raise (ValueError "Unhandled line: %r" line)
  end end end end end.

(** The loop [for line in f]: the first exception ends it. *)
Fixpoint on_lines (a : AsmFile) (f : list string) : result AsmFile :=
  match f with
  | [] => ret a
  | line :: f' => a' <- on_line a line ;; on_lines a' f'
  end.

(** The model before the first line: [AsmFile.__init__] and the start of
    [ObjDump.__init__]. *)
Definition empty_AsmFile : AsmFile :=
  mkAsmFile None None None None [] [] (Scope "::" []) [].

(** [ObjDump(f)]. *)
Definition ObjDump (f : list string) : result AsmFile :=
  on_lines empty_AsmFile f.

End Parser.

(** Lines of objdump output, for the examples: a line with its newline,
    and an instruction line [<offset>:\t<bytes>\t<text>\n]. *)
Definition ln (s : string) : string := s ++ blank_line.

Definition instr_ln (off hexbytes text : string) : string :=
  off ++ ":" ++ String tab hexbytes ++ String tab text ++ blank_line.

(* ------------------------------------------------------------------ *)
(** ** Output sink *)

Record Output : Type := mkOutput {
  _indent : nat;
  fileobj : list string      (* the strings written so far, in order *)
}.

Fixpoint repeat_str (n : nat) (s : string) : string :=
  match n with
  | O => EmptyString
  | S n' => s ++ repeat_str n' s
  end.

(** [Output.writeln]. *)
Definition writeln (out : Output) (str_ : string) : Output :=
  mkOutput (_indent out)
           (fileobj out ++ [(repeat_str (_indent out) "  " ++ str_ ++ blank_line)%string]).

(** [IndentCM.__enter__] and [IndentCM.__exit__]. *)
Definition indent_enter (out : Output) : Output :=
  mkOutput (_indent out + 1) (fileobj out).

Definition indent_exit (out : Output) : Output :=
  mkOutput (_indent out - 1) (fileobj out).

(* ------------------------------------------------------------------ *)
(** ** Function differ *)

(** [fn_equal]. *)
Definition fn_equal (old new : Function) : bool :=
  if negb (Nat.eqb (List.length (instrs old)) (List.length (instrs new)))
  then false
  else forallb (fun '(oldinstr, newinstr) =>
                  String.eqb (disasm oldinstr) (disasm newinstr))
               (combine (instrs old) (instrs new)).

(** [old.section != new.section]: [Section.__ne__] reads [other.name],
    which [None] does not have. *)
Definition section_ne (a b : option SectionObj) : result bool :=
  match a, b with
  | None, None => ret false
  | Some x, Some y => ret (negb (String.eqb (section_name x) (section_name y)))
  | _, _ => raise (AttributeError "'NoneType' object has no attribute 'name'")
  end.

(** [old.section.name]. *)
Definition name_of_section (a : option SectionObj) : result string :=
  match a with
  | Some x => ret (section_name x)
  | None => raise (AttributeError "'NoneType' object has no attribute 'name'")
  end.

(** The inner function [handle_minor_changes] of [fn_diff]. *)
Definition handle_minor_changes (old new : Function) (out : Output)
  : result Output :=
  let out :=
    if negb (String.eqb (rawname old) (rawname new))
    then writeln out ("  (renamed to " ++ demangled new ++ ")")
    else out in
  moved <- section_ne (section old) (section new) ;;
  if moved
  then
    oldsec <- name_of_section (section old) ;;
    newsec <- name_of_section (section new) ;;
    ret (writeln out ("  (moved from " ++ oldsec ++ "+" ++ str_of_HexInt (offset old)
                        ++ " to " ++ newsec ++ "+" ++ str_of_HexInt (offset new) ++ ")"))
  else if negb (Z.eqb (offset old) (offset new))
  then
    oldsec <- name_of_section (section old) ;;
    ret (writeln out ("  (moved offset within " ++ oldsec ++ " from "
                        ++ str_of_HexInt (offset old) ++ " to "
                        ++ str_of_HexInt (offset new) ++ ")"))
  else ret out.

(** The body of the second loop of [fn_diff] over [zip(old.instrs, new.instrs)]. *)
Definition diff_instr (old : Function) (out : Output)
    (pair : Instruction * Instruction) : Output :=
  let '(oldinstr, newinstr) := pair in
  let where_ := pad4 (str_of_HexInt (instr_offset oldinstr - offset old)) in
  if String.eqb (disasm oldinstr) (disasm newinstr)
  then writeln out ("FN+" ++ where_ ++ ": " ++ disasm oldinstr)
  else
    let out := writeln out ("FN+" ++ where_ ++ ": Old: " ++ disasm oldinstr) in
    writeln out ("       : New: " ++ disasm newinstr).

(** [fn_diff]. *)
Definition fn_diff (old new : Function) (out : Output) (just_sizes : bool)
  : result Output :=
  if just_sizes
  then
    if negb (Z.eqb (size old) (size new))
    then
      let out := writeln out ("Function " ++ demangled old ++ " changed size from "
                                ++ str_of_int (size old) ++ " to "
                                ++ str_of_int (size new) ++ " bytes") in
      if negb (String.eqb (rawname old) (rawname new))
      then ret (writeln out ("  (renamed to " ++ demangled new ++ ")"))
      else ret out
    else ret out
  else
    let out := writeln out ("--- a/" ++ demangled old) in
    let out := writeln out ("+++ b/" ++ demangled old) in
    out <- handle_minor_changes old new out ;;
    let out := indent_enter out in
    let pairs := combine (instrs old) (instrs new) in
    let has_changes :=
      existsb (fun '(oldinstr, newinstr) =>
                 negb (String.eqb (disasm oldinstr) (disasm newinstr))) pairs in
    let out := if has_changes then fold_left (diff_instr old) pairs out else out in
    ret (indent_exit out).

(* ------------------------------------------------------------------ *)
(** ** Function matchup *)

(** [FunctionPeer]: the model and its index of functions by leaf name. *)
Record FunctionPeer : Type := mkFunctionPeer {
  asmfile : AsmFile;
  fn_by_leafnames : list (string * Function)
}.

(** [FunctionPeer.__init__]. *)
Definition new_FunctionPeer (a : AsmFile) : FunctionPeer :=
  mkFunctionPeer a
    (fold_left (fun idx function => dict_set String.eqb (leafname function) function idx)
               (functions_values a) []).

(** [FunctionPeer.items]. *)
Definition items (p : FunctionPeer) : list Function :=
  functions_values (asmfile p).

(** [MatchupSet]; the dictionaries are keyed by [Function], compared with
    [Function_eqb]. *)
Record MatchupSet : Type := mkMatchupSet {
  old : FunctionPeer;
  new : FunctionPeer;
  old_to_new : list (Function * Function);
  new_to_old : list (Function * Function);
  gone : list Function;
  appeared : list Function
}.

(** [FunctionMatchupSet._lookup]; [None] when the function falls off the
    end without a [return]. *)
Definition _lookup (new : FunctionPeer) (olditem : Function) : option Function :=
  let rawname := rawname olditem in
  let rawname := replace "18gimple_statement_d" "21gimple_statement_base" rawname in
  match dict_get String.eqb rawname (functions_items (asmfile new)) with
  | Some f => Some f
  | None => dict_get String.eqb (leafname olditem) (fn_by_leafnames new)
  end.

(** The body of the first loop of [MatchupSet.__init__]. *)
Definition matchup_step (new : FunctionPeer)
    (acc : list (Function * Function) * list (Function * Function) * list Function)
    (olditem : Function) :=
  let '(o2n, n2o, gone) := acc in
  match _lookup new olditem with
  | Some newitem =>
      (dict_set Function_eqb olditem newitem o2n,
       dict_set Function_eqb newitem olditem n2o,
       gone)
  | None => (o2n, n2o, gone ++ [olditem])
  end.

(** [MatchupSet.__init__] with the [_lookup] of [FunctionMatchupSet]. *)
Definition new_MatchupSet (old new : FunctionPeer) : MatchupSet :=
  let '(o2n, n2o, gone) := fold_left (matchup_step new) (items old) ([], [], []) in
  let appeared :=
    filter (fun newitem => negb (dict_has Function_eqb newitem n2o)) (items new) in
  mkMatchupSet old new o2n n2o gone appeared.

(** [FunctionMatchupSet(old, new)]. *)
Definition FunctionMatchupSet (old new : AsmFile) : MatchupSet :=
  new_MatchupSet (new_FunctionPeer old) (new_FunctionPeer new).

(* ------------------------------------------------------------------ *)
(** ** Report generator *)

(** The local counters of [asm_diff]. *)
Record Counters : Type := mkCounters {
  added : Z; removed : Z; changed : Z; insertions : Z; deletions : Z
}.

Definition len {A : Type} (l : list A) : Z := Z.of_nat (List.length l).

Definition count_gone (c : Counters) (gone : Function) : Counters :=
  mkCounters (added c) (removed c + 1) (changed c) (insertions c)
             (deletions c + len (instrs gone)).

Definition count_appeared (c : Counters) (appeared : Function) : Counters :=
  mkCounters (added c + 1) (removed c) (changed c)
             (insertions c + len (instrs appeared)) (deletions c).

Definition count_pair (c : Counters) (pair : Function * Function) : Counters :=
  let '(oldfn, newfn) := pair in
  if negb (fn_equal oldfn newfn)
  then mkCounters (added c) (removed c) (changed c + 1)
         (insertions c + (len (instrs newfn) - len (instrs oldfn)))
         (deletions c + (len (instrs oldfn) - len (instrs newfn)))
  else c.

(** The three counting loops of [asm_diff]. *)
Definition count_peers (peers : MatchupSet) : Counters :=
  let c := mkCounters 0 0 0 0 0 in
  let c := fold_left count_gone (gone peers) c in
  let c := fold_left count_appeared (appeared peers) c in
  fold_left count_pair (old_to_new peers) c.

(** ['%s' % old.objpath]. *)
Definition str_of_objpath (p : option string) : string :=
  match p with Some s => s | None => "None" end.

Definition summary_functions (c : Counters) : string :=
  str_of_int (added c) ++ " functions added, " ++ str_of_int (removed c)
    ++ " functions removed, " ++ str_of_int (changed c) ++ " functions changed".

Definition summary_instructions (c : Counters) : string :=
  str_of_int (insertions c) ++ " insertions(+), " ++ str_of_int (deletions c)
    ++ " deletions(-)".

(** The last loop of [asm_diff]; the first exception ends it. *)
Fixpoint diff_pairs (pairs : list (Function * Function)) (out : Output)
    (just_sizes : bool) : result Output :=
  match pairs with
  | [] => ret out
  | (oldfn, newfn) :: rest =>
      out <- fn_diff oldfn newfn out just_sizes ;;
      diff_pairs rest out just_sizes
  end.

(** [asm_diff]. *)
Definition asm_diff (old new : AsmFile) (out : Output) (just_sizes : bool)
  : result Output :=
  let out := writeln out ("Old: " ++ str_of_objpath (objpath old)) in
  let out := writeln out ("New: " ++ str_of_objpath (objpath new)) in
  let peers := FunctionMatchupSet old new in
  let out := indent_enter out in
  let c := count_peers peers in
  let out := indent_exit out in
  let out := writeln out "---" in
  let out := writeln out (summary_functions c) in
  let out := writeln out (summary_instructions c) in
  let out :=
    fold_left (fun out gone =>
                 writeln (writeln out ("--- a/" ++ demangled gone)) "+++ /dev/null")
              (gone peers) out in
  let out :=
    fold_left (fun out appeared =>
                 writeln (writeln out "--- /dev/null") ("+++ b/" ++ demangled appeared))
              (appeared peers) out in
  diff_pairs (old_to_new peers) out just_sizes.

(* ------------------------------------------------------------------ *)
(** ** Sample inputs *)

Module Samples.

(** A table standing for [c++filt]: a few Itanium-mangled names, one of
    them also inside angle brackets (demangled in place, as [c++filt] does
    with names embedded in other text), everything else passed through. *)
Definition cxxfilt (s : string) : string :=
  if String.eqb s "_Z3fooi" then "foo(int)"
  else if String.eqb s "<_Z3fooi>" then "<foo(int)>"
  else if String.eqb s "_ZN3FooC1Ev" then "Foo::Foo()"
  else if String.eqb s "_ZN3FooC2Ev" then "Foo::Foo()"
  else if String.eqb s "_ZN1A3runEv" then "A::run()"
  else if String.eqb s "_ZN1B3runEv" then "B::run()"
  else if String.eqb s "_ZN1C3runEv" then "C::run()"
  else s.

Definition ret_instr : Instruction := mkInstruction 0 [195%Z] "ret".
Definition nop_at (off : Z) : Instruction := mkInstruction off [144%Z] "nop".

(** A function body ending in two alignment nops. *)
Definition padded : Function :=
  mkFunction None 0 "f" "f" "f" [ret_instr; nop_at 1; nop_at 2] [] 0.

(** Two functions of equal size and different raw names. *)
Definition f_v1 : Function :=
  mkFunction None 0 "f_v1" "f_v1" "f_v1" [ret_instr] [] 1.
Definition f_v2 : Function :=
  mkFunction None 0 "f_v2" "f_v2" "f_v2" [ret_instr] [] 1.

(** Old object: [f] has two instructions; new object: it has one. *)
Definition shrink_old : list string :=
  [ ln "old.o:     file format elf64-x86-64";
    ln "";
    ln "Disassembly of section .text:";
    ln "";
    ln "0000000000000000 <f>:";
    instr_ln "   0" "31 c0                " "xor    %eax,%eax";
    instr_ln "   2" "c3                   " "ret" ].

Definition shrink_new : list string :=
  [ ln "new.o:     file format elf64-x86-64";
    ln "";
    ln "Disassembly of section .text:";
    ln "";
    ln "0000000000000000 <f>:";
    instr_ln "   0" "c3                   " "ret" ].

(** Old object: [A::run()] and [B::run()]; new object: [C::run()]. *)
Definition runs_old : list string :=
  [ ln "Disassembly of section .text:";
    ln "0000000000000000 <_ZN1A3runEv>:";
    instr_ln "   0" "c3                   " "ret";
    ln "0000000000000010 <_ZN1B3runEv>:";
    instr_ln "  10" "c3                   " "ret" ].

Definition runs_new : list string :=
  [ ln "Disassembly of section .text:";
    ln "0000000000000000 <_ZN1C3runEv>:";
    instr_ln "   0" "c3                   " "ret" ].

(** Two C functions, in one order and in the other. *)
Definition two_old : list string :=
  [ ln "Disassembly of section .text:";
    ln "0000000000000000 <f>:";
    instr_ln "   0" "c3                   " "ret";
    ln "0000000000000010 <g>:";
    instr_ln "  10" "c3                   " "ret" ].

Definition two_new : list string :=
  [ ln "Disassembly of section .text:";
    ln "0000000000000000 <g>:";
    instr_ln "   0" "c3                   " "ret";
    ln "0000000000000010 <f>:";
    instr_ln "  10" "c3                   " "ret" ].

(** The complete-object and base-object constructors of [Foo]. *)
Definition ctors : list string :=
  [ ln "Disassembly of section .text:";
    ln "0000000000000000 <_ZN3FooC1Ev>:";
    instr_ln "   0" "c3                   " "ret";
    ln "0000000000000010 <_ZN3FooC2Ev>:";
    instr_ln "  10" "c3                   " "ret" ].

(** A function ending in two alignment nops, followed by another one. *)
Definition padded_lines : list string :=
  [ ln "Disassembly of section .text:";
    ln "0000000000000000 <f>:";
    instr_ln "   0" "c3                   " "ret";
    instr_ln "   1" "90                   " "nop";
    instr_ln "   2" "90                   " "nop";
    ln "0000000000000003 <g>:";
    instr_ln "   3" "c3                   " "ret" ].

(** The functions of [two_old] and [two_new], as parsed. *)
Definition text_section : option SectionObj := Some (mkSection ".text").

Definition two_old_f : Function :=
  mkFunction text_section 0 "f" "f" "f" [mkInstruction 0 [195%Z] "ret"] [] 1.
Definition two_old_g : Function :=
  mkFunction text_section 16 "g" "g" "g" [mkInstruction 16 [195%Z] "ret"] [] 0.
Definition two_new_g : Function :=
  mkFunction text_section 0 "g" "g" "g" [mkInstruction 0 [195%Z] "ret"] [] 1.
Definition two_new_f : Function :=
  mkFunction text_section 16 "f" "f" "f" [mkInstruction 16 [195%Z] "ret"] [] 0.

(** The model a list of lines parses to (the empty model on failure). *)
Definition model_of (f : list string) : AsmFile :=
  match ObjDump cxxfilt f with
  | inr a => a
  | inl _ => empty_AsmFile
  end.

Definition runs_old_model : AsmFile := Eval vm_compute in model_of runs_old.
Definition runs_new_model : AsmFile := Eval vm_compute in model_of runs_new.
Definition two_old_model : AsmFile := Eval vm_compute in model_of two_old.
Definition two_new_model : AsmFile := Eval vm_compute in model_of two_new.
Definition padded_model : AsmFile := Eval vm_compute in model_of padded_lines.
Definition ctors_model : AsmFile := Eval vm_compute in model_of ctors.

End Samples.

(* ================================================================== *)
(** * Properties *)

(* ------------------------------------------------------------------ *)
(** ** [Function.finish] *)

Lemma for_each_break_first {A S : Type} (body : A -> S -> S) (l : list A) (s : S) :
  for_each (fun a s => (body a s, true)) l s =
  match l with [] => s | a :: _ => body a s end.
Proof. destruct l; reflexivity. Qed.

(** [finish] keeps every instruction: the real ones followed by the padding. *)
Lemma finish_partition (f : Function) :
  instrs (finish f) ++ padding (finish f) = instrs f.
Proof. unfold finish; simpl. apply firstn_skipn. Qed.

(** After [finish], [size] is the byte count of the real instructions. *)
Lemma finish_size (f : Function) :
  size (finish f) =
  sum_Z (map (fun instr => Z.of_nat (List.length (bytes_ instr))) (instrs (finish f))).
Proof. reflexivity. Qed.

(** [finish] moves at most one instruction into the padding. *)
Lemma finish_padding_le_1 (f : Function) :
  List.length (padding (finish f)) <= 1.
Proof.
  unfold finish; simpl. rewrite for_each_break_first.
  rewrite length_skipn.
  destruct (rev (instrs f)) as [|i l]; [lia|].
  destruct (String.eqb (disasm i) "nop"); lia.
Qed.

(** What [finish] does: it looks at the last instruction only. *)
Lemma finish_last_only (f : Function) (l : list Instruction) (i : Instruction) :
  instrs f = l ++ [i] ->
  (disasm i = "nop" -> instrs (finish f) = l /\ padding (finish f) = [i])
  /\ (disasm i <> "nop" -> instrs (finish f) = l ++ [i] /\ padding (finish f) = []).
Proof.
  intros Hf. unfold finish; simpl. rewrite for_each_break_first.
  rewrite Hf, rev_app_distr, length_app. simpl.
  split; intros Hi.
  - rewrite Hi. simpl.
    replace (List.length l + 1 - 1) with (List.length l + 0) by lia.
    rewrite firstn_app_2, skipn_app, skipn_all2 by lia. simpl.
    replace (List.length l + 0 - List.length l) with 0 by lia.
    now rewrite app_nil_r.
  - apply String.eqb_neq in Hi. rewrite Hi.
    replace (List.length l + 1) with (List.length (l ++ [i]))
      by (rewrite length_app; reflexivity).
    now rewrite firstn_all, skipn_all.
Qed.

(** C2.  On a function ending in two [nop] instructions, [finish] moves
    only the last one into the padding: the other [nop] stays among the
    real instructions and is counted in [size].  The same happens when the
    function is parsed from objdump output. *)
Theorem finish_two_trailing_nops :
  (instrs (finish Samples.padded) = [Samples.ret_instr; Samples.nop_at 1]
   /\ padding (finish Samples.padded) = [Samples.nop_at 2]
   /\ size (finish Samples.padded) = 2%Z)
  /\ ObjDump Samples.cxxfilt Samples.padded_lines = inr Samples.padded_model
  /\ option_map (fun f => (map disasm (instrs f), map disasm (padding f), size f))
       (nth_error (heap Samples.padded_model) 0)
     = Some (["ret"; "nop"], ["nop"], 2%Z).
Proof. repeat split. Qed.

(* ------------------------------------------------------------------ *)
(** ** [fn_equal] *)

Fixpoint texts_eqb (a b : list string) : bool :=
  match a, b with
  | [], [] => true
  | x :: a', y :: b' => String.eqb x y && texts_eqb a' b'
  | _, _ => false
  end.

Lemma texts_eqb_eq (a b : list string) : texts_eqb a b = true <-> a = b.
Proof.
  revert b; induction a as [|x a IH]; intros [|y b]; simpl; split; intro H;
    try reflexivity; try discriminate.
  - apply andb_true_iff in H as [Hx Hr]. apply String.eqb_eq in Hx.
    apply IH in Hr. congruence.
  - injection H as -> ->. rewrite String.eqb_refl. simpl. now apply IH.
Qed.

(** [fn_equal] reads the two instruction lists through [disasm] only. *)
Lemma fn_equal_texts (old new : Function) :
  fn_equal old new = texts_eqb (map disasm (instrs old)) (map disasm (instrs new)).
Proof.
  unfold fn_equal.
  generalize (instrs old) as a, (instrs new) as b.
  induction a as [|x a IH]; intros [|y b]; simpl; try reflexivity.
  specialize (IH b).
  destruct (String.eqb (disasm x) (disasm y)); simpl.
  - destruct (Nat.eqb (List.length a) (List.length b)); simpl in *; exact IH.
  - destruct (Nat.eqb (List.length a) (List.length b)); reflexivity.
Qed.

Lemma map_eq_nth {A B : Type} (f : A -> B) (a b : list A) :
  map f a = map f b <->
  List.length a = List.length b /\
  forall i x y, nth_error a i = Some x -> nth_error b i = Some y -> f x = f y.
Proof.
  revert b; induction a as [|x a IH]; intros [|y b]; simpl; split.
  - intros _. split; [reflexivity|]. intros [|i] ? ? H; discriminate H.
  - reflexivity.
  - discriminate.
  - intros [H _]; discriminate H.
  - discriminate.
  - intros [H _]; discriminate H.
  - intros H. injection H as Hh Ht. apply IH in Ht as [Hl Hn]. split.
    + now f_equal.
    + intros [|i] u v; simpl.
      * intros [= <-] [= <-]. exact Hh.
      * apply Hn.
  - intros [Hl Hn]. f_equal.
    + apply (Hn 0); reflexivity.
    + apply IH. split; [now injection Hl|].
      intros i u v. apply (Hn (S i)).
Qed.

(** C5.  [fn_equal old new] holds exactly when the two real-instruction
    sequences have the same length and the instructions at every common
    position carry the same normalized text; it therefore gives the same
    answer on any two pairs of functions whose instructions differ only in
    raw bytes and offsets. *)
Theorem fn_equal_spec (old new : Function) :
  (fn_equal old new = true <->
     List.length (instrs old) = List.length (instrs new) /\
     forall i oldinstr newinstr,
       nth_error (instrs old) i = Some oldinstr ->
       nth_error (instrs new) i = Some newinstr ->
       disasm oldinstr = disasm newinstr)
  /\ (forall old' new',
        map disasm (instrs old') = map disasm (instrs old) ->
        map disasm (instrs new') = map disasm (instrs new) ->
        fn_equal old' new' = fn_equal old new).
Proof.
  split.
  - rewrite fn_equal_texts, texts_eqb_eq. apply map_eq_nth.
  - intros old' new' Ho Hn. rewrite !fn_equal_texts, Ho, Hn. reflexivity.
Qed.

(* ------------------------------------------------------------------ *)
(** ** [fn_diff], size-only mode *)





(* ------------------------------------------------------------------ *)
(** ** Aggregate counters of [asm_diff] *)

Definition changed_pairs (pairs : list (Function * Function))
  : list (Function * Function) :=
  filter (fun '(oldfn, newfn) => negb (fn_equal oldfn newfn)) pairs.

Lemma sum_Z_from (l : list Z) (z : Z) :
  fold_left Z.add l z = (z + sum_Z l)%Z.
Proof.
  unfold sum_Z. revert z. induction l as [|x l IH]; intro z; simpl.
  - lia.
  - rewrite IH, (IH x). lia.
Qed.

Lemma sum_Z_cons (x : Z) (l : list Z) : sum_Z (x :: l) = (x + sum_Z l)%Z.
Proof. unfold sum_Z; simpl. rewrite sum_Z_from. reflexivity. Qed.

Lemma count_gone_fold (l : list Function) (c : Counters) :
  fold_left count_gone l c =
  mkCounters (added c) (removed c + len l)%Z (changed c) (insertions c)
             (deletions c + sum_Z (map (fun f => len (instrs f)) l))%Z.
Proof.
  revert c; induction l as [|f l IH]; intro c.
  - destruct c; simpl. unfold len, sum_Z; simpl. f_equal; lia.
  - simpl fold_left. rewrite IH. simpl map. rewrite sum_Z_cons.
    unfold count_gone, len; simpl. f_equal; lia.
Qed.

Lemma count_appeared_fold (l : list Function) (c : Counters) :
  fold_left count_appeared l c =
  mkCounters (added c + len l)%Z (removed c) (changed c)
             (insertions c + sum_Z (map (fun f => len (instrs f)) l))%Z
             (deletions c).
Proof.
  revert c; induction l as [|f l IH]; intro c.
  - destruct c; simpl. unfold len, sum_Z; simpl. f_equal; lia.
  - simpl fold_left. rewrite IH. simpl map. rewrite sum_Z_cons.
    unfold count_appeared, len; simpl. f_equal; lia.
Qed.

Lemma count_pair_fold (l : list (Function * Function)) (c : Counters) :
  fold_left count_pair l c =
  mkCounters (added c) (removed c) (changed c + len (changed_pairs l))%Z
    (insertions c
     + sum_Z (map (fun '(o, n) => (len (instrs n) - len (instrs o))%Z) (changed_pairs l)))%Z
    (deletions c
     + sum_Z (map (fun '(o, n) => (len (instrs o) - len (instrs n))%Z) (changed_pairs l)))%Z.
Proof.
  revert c; induction l as [|[o n] l IH]; intro c.
  - destruct c; simpl. unfold len, sum_Z; simpl. f_equal; lia.
  - simpl fold_left. rewrite IH. unfold count_pair, changed_pairs. simpl filter.
    destruct (fn_equal o n); simpl negb; cbv iota.
    + reflexivity.
    + simpl map. rewrite !sum_Z_cons. unfold len; simpl List.length.
      simpl. f_equal; lia.
Qed.

(** [extends out out']: [out'] is [out] after some more writes. *)
Definition extends (out out' : Output) : Prop :=
  exists more, fileobj out' = fileobj out ++ more.

Lemma extends_refl out : extends out out.
Proof. exists []. now rewrite app_nil_r. Qed.

Lemma extends_trans out1 out2 out3 :
  extends out1 out2 -> extends out2 out3 -> extends out1 out3.
Proof.
  intros [m1 H1] [m2 H2]. exists (m1 ++ m2). now rewrite H2, H1, app_assoc.
Qed.

Lemma extends_same out out' : fileobj out' = fileobj out -> extends out out'.
Proof. intros H. exists []. now rewrite app_nil_r. Qed.

Lemma extends_writeln out str_ : extends out (writeln out str_).
Proof. eexists. reflexivity. Qed.

Lemma extends_fold {A : Type} (step : Output -> A -> Output) (l : list A) out :
  (forall o a, extends o (step o a)) -> extends out (fold_left step l out).
Proof.
  intros Hstep. revert out; induction l as [|a l IH]; intros out; simpl.
  - apply extends_refl.
  - eapply extends_trans; [apply Hstep | apply IH].
Qed.

Lemma handle_minor_changes_extends old new out out' :
  handle_minor_changes old new out = inr out' -> extends out out'.
Proof.
  unfold handle_minor_changes. intros H.
  set (out1 := if negb (String.eqb (rawname old) (rawname new)) then _ else out) in H.
  assert (H1 : extends out out1).
  { subst out1. destruct (negb _); [apply extends_writeln | apply extends_refl]. }
  clearbody out1.
  destruct (section_ne (section old) (section new)) as [e|[|]]; simpl in H;
    [discriminate| |].
  - destruct (name_of_section (section old)); simpl in H; [discriminate|].
    destruct (name_of_section (section new)); simpl in H; [discriminate|].
    injection H as <-. eapply extends_trans; [exact H1 | apply extends_writeln].
  - destruct (negb (Z.eqb (offset old) (offset new))).
    + destruct (name_of_section (section old)); simpl in H; [discriminate|].
      injection H as <-. eapply extends_trans; [exact H1 | apply extends_writeln].
    + now injection H as <-.
Qed.

Lemma fn_diff_extends old new out just_sizes out' :
  fn_diff old new out just_sizes = inr out' -> extends out out'.
Proof.
  unfold fn_diff. destruct just_sizes.
  - destruct (negb (Z.eqb (size old) (size new))).
    + destruct (negb (String.eqb (rawname old) (rawname new)));
        intros [= <-].
      * eapply extends_trans; apply extends_writeln.
      * apply extends_writeln.
    + intros [= <-]. apply extends_refl.
  - destruct (handle_minor_changes old new _) as [e|out1] eqn:E; simpl;
      [discriminate|].
    intros [= <-].
    apply handle_minor_changes_extends in E.
    eapply extends_trans; [apply extends_writeln|].
    eapply extends_trans; [apply extends_writeln|].
    eapply extends_trans; [exact E|].
    apply (extends_trans _ (indent_enter out1)); [now apply extends_same|].
    match goal with
    | |- extends _ (indent_exit ?o) =>
        apply (extends_trans _ o); [|now apply extends_same]
    end.
    destruct (existsb _ _); [|apply extends_refl].
    apply extends_fold. intros o [oi ni]. unfold diff_instr.
    destruct (String.eqb (disasm oi) (disasm ni)).
    + apply extends_writeln.
    + eapply extends_trans; apply extends_writeln.
Qed.

Lemma diff_pairs_extends pairs out just_sizes out' :
  diff_pairs pairs out just_sizes = inr out' -> extends out out'.
Proof.
  revert out; induction pairs as [|[o n] pairs IH]; intros out; simpl.
  - intros [= <-]. apply extends_refl.
  - destruct (fn_diff o n out just_sizes) as [e|out1] eqn:E; simpl; [discriminate|].
    intros H. eapply extends_trans; [eapply fn_diff_extends; exact E | now apply IH].
Qed.



Lemma sum_Z_opposite {A : Type} (f g : A -> Z) (l : list A) :
  (forall x, (f x + g x = 0)%Z) ->
  (sum_Z (map f l) + sum_Z (map g l) = 0)%Z.
Proof.
  intros H. induction l as [|x l IH]; [reflexivity|].
  simpl map. rewrite !sum_Z_cons. specialize (H x). lia.
Qed.

(** C10.  The totals are not clamped at zero, in either direction.  A
    changed pair adds the signed difference [len(new.instrs) -
    len(old.instrs)] to [insertions] and its opposite to [deletions]: a
    pair whose new function has fewer real instructions lowers
    [insertions], a pair whose new function has more lowers [deletions].
    So the changed pairs cancel out in [insertions + deletions], which is
    the number of real instructions of the functions that appeared or are
    gone.  On the objects [shrink_old] and [shrink_new] the summary line
    of [asm_diff] reads [-1 insertions(+), 1 deletions(-)]; with the two
    objects exchanged it reads [1 insertions(+), -1 deletions(-)]. *)
Theorem asm_diff_totals_not_clamped :
  (forall c oldfn newfn,
      (len (instrs newfn) < len (instrs oldfn))%Z ->
      (insertions (count_pair c (oldfn, newfn)) < insertions c)%Z
      /\ (insertions (count_pair c (oldfn, newfn)) - insertions c
          = len (instrs newfn) - len (instrs oldfn))%Z
      /\ (deletions (count_pair c (oldfn, newfn)) - deletions c
          = len (instrs oldfn) - len (instrs newfn))%Z)
  /\ (forall c oldfn newfn,
        (len (instrs oldfn) < len (instrs newfn))%Z ->
        (deletions (count_pair c (oldfn, newfn)) < deletions c)%Z
        /\ (deletions (count_pair c (oldfn, newfn)) - deletions c
            = len (instrs oldfn) - len (instrs newfn))%Z
        /\ (insertions (count_pair c (oldfn, newfn)) - insertions c
            = len (instrs newfn) - len (instrs oldfn))%Z)
  /\ (forall old_file new_file,
        let peers := FunctionMatchupSet old_file new_file in
        (insertions (count_peers peers) + deletions (count_peers peers)
         = sum_Z (map (fun f => len (instrs f)) (appeared peers))
           + sum_Z (map (fun f => len (instrs f)) (gone peers)))%Z)
  /\ (exists old_file new_file out,
        ObjDump Samples.cxxfilt Samples.shrink_old = inr old_file
        /\ ObjDump Samples.cxxfilt Samples.shrink_new = inr new_file
        /\ asm_diff old_file new_file (mkOutput 0 []) false = inr out
        /\ insertions (count_peers (FunctionMatchupSet old_file new_file)) = (-1)%Z
        /\ nth_error (fileobj out) 4 = Some (ln "-1 insertions(+), 1 deletions(-)"))
  /\ (exists old_file new_file out,
        ObjDump Samples.cxxfilt Samples.shrink_new = inr old_file
        /\ ObjDump Samples.cxxfilt Samples.shrink_old = inr new_file
        /\ asm_diff old_file new_file (mkOutput 0 []) false = inr out
        /\ deletions (count_peers (FunctionMatchupSet old_file new_file)) = (-1)%Z
        /\ nth_error (fileobj out) 4 = Some (ln "1 insertions(+), -1 deletions(-)")).
Proof.
  assert (Hne : forall oldfn newfn,
             len (instrs oldfn) <> len (instrs newfn) -> fn_equal oldfn newfn = false).
  { intros oldfn newfn H. unfold fn_equal. unfold len in H.
    destruct (Nat.eqb_spec (List.length (instrs oldfn)) (List.length (instrs newfn)));
      [lia | reflexivity]. }
  split; [|split; [|split; [|split]]].
  - intros c oldfn newfn Hlt. unfold count_pair.
    rewrite (Hne oldfn newfn) by lia. simpl. lia.
  - intros c oldfn newfn Hlt. unfold count_pair.
    rewrite (Hne oldfn newfn) by lia. simpl. lia.
  - intros old_file new_file peers. unfold count_peers.
    rewrite count_gone_fold, count_appeared_fold, count_pair_fold. simpl.
    pose proof (sum_Z_opposite
                  (fun '(o, n) => (len (instrs n) - len (instrs o))%Z)
                  (fun '(o, n) => (len (instrs o) - len (instrs n))%Z)
                  (changed_pairs (old_to_new peers))) as H.
    specialize (H ltac:(intros [o n]; lia)). lia.
  - eexists _, _, _.
    split; [vm_compute; reflexivity|].
    split; [vm_compute; reflexivity|].
    split; [vm_compute; reflexivity|].
    split; vm_compute; reflexivity.
  - eexists _, _, _.
    split; [vm_compute; reflexivity|].
    split; [vm_compute; reflexivity|].
    split; [vm_compute; reflexivity|].
    split; vm_compute; reflexivity.
Qed.

(* ------------------------------------------------------------------ *)
(** ** Facts about text *)

Lemma append_assoc (a b c : string) : ((a ++ b) ++ c = a ++ (b ++ c))%string.
Proof. induction a as [|x a IH]; simpl; [reflexivity | now rewrite IH]. Qed.

Lemma append_nil_r (a : string) : (a ++ "" = a)%string.
Proof. induction a as [|x a IH]; simpl; [reflexivity | now rewrite IH]. Qed.

Lemma length_append (a b : string) :
  String.length (a ++ b) = String.length a + String.length b.
Proof. induction a as [|x a IH]; simpl; [reflexivity | now rewrite IH]. Qed.

Lemma take_append (a b : string) : take (String.length a) (a ++ b) = a.
Proof.
  induction a as [|x a IH]; simpl; [destruct b; reflexivity | now rewrite IH].
Qed.

Lemma drop_append (a b : string) : drop (String.length a) (a ++ b) = b.
Proof. induction a as [|x a IH]; simpl; [reflexivity | exact IH]. Qed.

Lemma take_all (a : string) : take (String.length a) a = a.
Proof. rewrite <- (append_nil_r a) at 2. apply take_append. Qed.

Lemma drop_all (a : string) : drop (String.length a) a = "".
Proof. rewrite <- (append_nil_r a) at 2. apply drop_append. Qed.

Lemma all_chars_append (p : ascii -> bool) (a b : string) :
  all_chars p (a ++ b) = all_chars p a && all_chars p b.
Proof.
  induction a as [|x a IH]; simpl; [reflexivity|].
  rewrite IH. apply andb_assoc.
Qed.

Lemma all_chars_weaken (p q : ascii -> bool) (s : string) :
  (forall c, p c = true -> q c = true) ->
  all_chars p s = true -> all_chars q s = true.
Proof.
  intros Hpq. induction s as [|x s IH]; simpl; [reflexivity|].
  intros H. apply andb_true_iff in H as [Hx Hs].
  rewrite (Hpq _ Hx), (IH Hs). reflexivity.
Qed.

(** Characters as their codes: a property of all 256 is checked by
    enumeration. *)
Lemma forall_ascii (P : ascii -> bool) :
  forallb (fun n => P (ascii_of_nat n)) (seq 0 256) = true ->
  forall c, P c = true.
Proof.
  intros H c. rewrite forallb_forall in H.
  rewrite <- (ascii_nat_embedding c). apply H.
  apply in_seq. pose proof (nat_ascii_bounded c). lia.
Qed.

Definition not_char (x : ascii) (c : ascii) : bool := negb (Ascii.eqb c x).
Definition not_space (c : ascii) : bool := negb (is_space c).

Lemma forall_ascii_impl (P Q : ascii -> bool) :
  forallb (fun n => implb (P (ascii_of_nat n)) (Q (ascii_of_nat n))) (seq 0 256) = true ->
  forall c, P c = true -> Q c = true.
Proof.
  intros H c Hc.
  pose proof (forall_ascii (fun c => implb (P c) (Q c)) H c) as Hi.
  simpl in Hi. rewrite Hc in Hi. exact Hi.
Qed.

Lemma hex_not_space c : is_hex c = true -> not_space c = true.
Proof. apply forall_ascii_impl. vm_compute. reflexivity. Qed.

Lemma hex_is_dot c : is_hex c = true -> is_dot c = true.
Proof. apply forall_ascii_impl. vm_compute. reflexivity. Qed.

Lemma not_space_is_dot c : not_space c = true -> is_dot c = true.
Proof. apply forall_ascii_impl. vm_compute. reflexivity. Qed.

Lemma hex_not_plus c : is_hex c = true -> not_char "+" c = true.
Proof. apply forall_ascii_impl. vm_compute. reflexivity. Qed.

Lemma hex_not_lt c : is_hex c = true -> not_char "<" c = true.
Proof. apply forall_ascii_impl. vm_compute. reflexivity. Qed.

Lemma space_not_lt c : is_space c = true -> not_char "<" c = true.
Proof. apply forall_ascii_impl. vm_compute. reflexivity. Qed.

(* ------------------------------------------------------------------ *)
(** ** Facts about matching *)

Section StarFacts.

Context {R : Type}.

(** [never k s]: the continuation [k] fails at [s] and at every suffix of
    [s], whatever the offset. *)
Fixpoint never (k : string -> nat -> option R) (s : string) : Prop :=
  (forall pos, k s pos = None) /\
  match s with
  | String _ s' => never k s'
  | EmptyString => True
  end.

Lemma never_here (k : string -> nat -> option R) s : never k s -> forall pos, k s pos = None.
Proof. destruct s; simpl; intros [H _]; exact H. Qed.

(** No way of splitting [s] lets the continuation succeed. *)
Lemma star_never p (k : string -> nat -> option R) s pos : never k s -> star p s pos k = None.
Proof.
  revert pos; induction s as [|c s IH]; intros pos [Hk Hs]; simpl.
  - apply Hk.
  - rewrite (IH _ Hs). destruct (p c); apply Hk.
Qed.

(** Greedy matching runs through a prefix of class characters whenever
    the match can be completed further on. *)
Lemma star_append p (k : string -> nat -> option R) a b pos r :
  all_chars p a = true ->
  star p b (pos + String.length a) k = Some r ->
  star p (a ++ b) pos k = Some r.
Proof.
  revert pos; induction a as [|c a IH]; intros pos Ha Hb; simpl in *.
  - now rewrite Nat.add_0_r in Hb.
  - apply andb_true_iff in Ha as [Hc Ha]. rewrite Hc.
    rewrite (IH (S pos) Ha); [reflexivity|].
    now rewrite Nat.add_succ_comm.
Qed.

(** At a character from which no longer repetition can be completed, the
    repetition stops. *)
Lemma star_stop p (k : string -> nat -> option R) c s pos :
  never k s -> star p (String c s) pos k = k (String c s) pos.
Proof.
  intros Hs. simpl. rewrite (star_never p k s (S pos) Hs).
  destruct (p c); reflexivity.
Qed.

(** A continuation that needs a character of class [q] first fails all
    along a string without such characters. *)
Lemma never_append (q : ascii -> bool) (k : string -> nat -> option R) a b :
  (forall c t pos, q c = false -> k (String c t) pos = None) ->
  all_chars (fun c => negb (q c)) a = true ->
  never k b -> never k (a ++ b).
Proof.
  intros Hq. induction a as [|c a IH]; simpl; intros Ha Hb; [exact Hb|].
  apply andb_true_iff in Ha as [Hc Ha]. split.
  - intros pos. apply Hq. now apply negb_true_iff.
  - now apply IH.
Qed.

(** A continuation that fails on every string with a property preserved
    by dropping characters fails all along such a string. *)
Lemma never_closed (P : string -> Prop) (k : string -> nat -> option R) s :
  (forall c t, P (String c t) -> P t) ->
  (forall t pos, P t -> k t pos = None) ->
  P s -> never k s.
Proof.
  intros Hcl Hk. induction s as [|c s IH]; intros Hs; simpl.
  - split; [intros; now apply Hk | exact I].
  - split; [intros; now apply Hk | apply IH; eapply Hcl; eauto].
Qed.

End StarFacts.

Section RunFacts.

Context {R : Type}.

Implicit Types (k : string -> nat -> groups -> option R) (r : regex).

Lemma run_Seq r1 r2 s pos g k :
  run (Seq r1 r2) s pos g k = run r1 s pos g (fun s' pos' g' => run r2 s' pos' g' k).
Proof. reflexivity. Qed.

Lemma run_Group n r s pos g k :
  run (Group n r) s pos g k =
  run r s pos g (fun s' pos' g' => k s' pos' ((n, (pos, pos')) :: g')).
Proof. reflexivity. Qed.

Lemma run_Star p s pos g k :
  run (Star p) s pos g k = star p s pos (fun s' pos' => k s' pos' g).
Proof. reflexivity. Qed.

Lemma run_Chr_hit c s pos g k : run (Chr c) (String c s) pos g k = k s (S pos) g.
Proof. simpl. now rewrite Ascii.eqb_refl. Qed.

Lemma run_Cls_hit p c s pos g k :
  p c = true -> run (Cls p) (String c s) pos g k = k s (S pos) g.
Proof. intros H. simpl. now rewrite H. Qed.

Lemma run_Plus_hit p c s pos g k :
  p c = true ->
  run (Plus p) (String c s) pos g k = star p s (S pos) (fun s' pos' => k s' pos' g).
Proof. intros H. simpl. now rewrite H. Qed.

Lemma star_miss p c s pos (k : string -> nat -> option R) :
  p c = false -> star p (String c s) pos k = k (String c s) pos.
Proof. intros H. simpl. now rewrite H. Qed.

Lemma star_nil p pos (k : string -> nat -> option R) : star p "" pos k = k "" pos.
Proof. reflexivity. Qed.

(** [first_ok r c]: a match of [r] may start at a text whose first
    character is [c]. *)
Fixpoint first_ok (r : regex) (c : ascii) : bool :=
  match r with
  | Chr x => Ascii.eqb c x
  | Cls p => p c
  | Plus p => p c
  | Star _ => true
  | Seq r1 _ => first_ok r1 c
  | Group _ r1 => first_ok r1 c
  | Eol => true
  end.

(** [can_empty r]: [r] may match at the end of the text. *)
Fixpoint can_empty (r : regex) : bool :=
  match r with
  | Chr _ | Cls _ | Plus _ => false
  | Star _ | Eol => true
  | Seq r1 r2 => can_empty r1 && can_empty r2
  | Group _ r1 => can_empty r1
  end.

Lemma run_first r c s pos g k :
  first_ok r c = false -> run r (String c s) pos g k = None.
Proof.
  revert pos g k; induction r; intros pos g k H; simpl in *;
    try (rewrite H; reflexivity); try discriminate.
  - now apply IHr1.
  - now apply IHr.
Qed.

Lemma run_nil_cont r pos g k :
  (forall pos' g', k "" pos' g' = None) -> run r "" pos g k = None.
Proof.
  revert pos g k; induction r; intros pos g k H; simpl; try reflexivity;
    try apply H.
  - apply IHr1. intros. now apply IHr2.
  - apply IHr. intros. apply H.
Qed.

Lemma run_empty r pos g k : can_empty r = false -> run r "" pos g k = None.
Proof.
  revert pos g k; induction r; intros pos g k H; simpl in *;
    try reflexivity; try discriminate.
  - apply andb_false_iff in H as [H|H].
    + now apply IHr1.
    + apply run_nil_cont. intros. now apply IHr2.
  - now apply IHr.
Qed.

(** A pattern that cannot start at any character of [a], nor at the end
    of the text, fails all along [a]. *)
Lemma never_first r (G : nat -> groups) k a :
  can_empty r = false ->
  all_chars (fun c => negb (first_ok r c)) a = true ->
  never (fun s pos => run r s pos (G pos) k) a.
Proof.
  intros He Ha.
  rewrite <- (append_nil_r a).
  apply (never_append (first_ok r)); [| exact Ha |].
  - intros c t pos Hc. now apply run_first.
  - simpl. split; [|exact I]. intros pos. now apply run_empty.
Qed.

Lemma never_first_append r (G : nat -> groups) k a b :
  all_chars (fun c => negb (first_ok r c)) a = true ->
  never (fun s pos => run r s pos (G pos) k) b ->
  never (fun s pos => run r s pos (G pos) k) (a ++ b).
Proof.
  intros Ha Hb.
  apply (never_append (first_ok r)); [| exact Ha | exact Hb].
  intros c t pos Hc. now apply run_first.
Qed.

End RunFacts.

(** Goals [all_chars q s = true] and [q c = true], from hypotheses about
    the pieces of [s] and by enumeration of the characters. *)
Ltac char_enum := apply forall_ascii_impl; vm_compute; reflexivity.

Ltac char_goal :=
  match goal with
  | |- true = true => reflexivity
  | |- ?f ?c = true => assert_fails (is_var c); reflexivity
  | H : all_chars _ ?s = true |- all_chars _ ?s = true =>
      first [ exact H | refine (all_chars_weaken _ _ _ _ H); char_enum ]
  | H : ?P ?c = true |- context [?c] =>
      is_var c; pattern c;
      match goal with
      | |- (fun x => @?Q x = true) c =>
          refine (forall_ascii_impl P Q _ c H); vm_compute; reflexivity
      end
  end.

Ltac chars :=
  repeat first [ progress cbn [first_ok append all_chars]
               | rewrite all_chars_append
               | rewrite andb_true_iff
               | apply conj ];
  char_goal.

Lemma never_cons {R : Type} (k : string -> nat -> option R) c s :
  (forall pos, k (String c s) pos = None) -> never k s -> never k (String c s).
Proof. intros H1 H2. split; assumption. Qed.

Lemma never_nil {R : Type} (k : string -> nat -> option R) :
  (forall pos, k "" pos = None) -> never k "".
Proof. intros H. split; [exact H | exact I]. Qed.




Ltac lengths :=
  repeat first [ progress cbn [append String.length] | rewrite length_append ];
  lia.

(** Two applications of a continuation agree when their offsets and
    group spans do. *)
Ltac spans_eq :=
  repeat match goal with
         | |- @eq nat _ _ => lengths
         | |- _ :: _ = _ :: _ => apply f_equal2
         | |- (_, _) = (_, _) => apply f_equal2
         | |- ?K _ _ _ = ?K _ _ _ => apply f_equal2
         | |- _ = _ => reflexivity
         end.

Section NeedsChar.

Context {R : Type}.

(** [needs x r]: every text matched by [r] contains the character [x]. *)
Fixpoint needs (x : ascii) (r : regex) : bool :=
  match r with
  | Chr c => Ascii.eqb c x
  | Cls _ | Star _ | Plus _ | Eol => false
  | Seq r1 r2 => needs x r1 || needs x r2
  | Group _ r1 => needs x r1
  end.

(** A continuation that fails on the texts with a property preserved by
    dropping characters makes every pattern fail on them. *)
Lemma run_none_closed (P : string -> Prop) :
  (forall c t, P (String c t) -> P t) ->
  forall r s pos g (k : string -> nat -> groups -> option R),
    P s ->
    (forall s' pos' g', P s' -> k s' pos' g' = None) ->
    run r s pos g k = None.
Proof.
  intros Hcl. induction r; intros s pos g k Hs Hk; simpl.
  - destruct s as [|d s]; [reflexivity|].
    destruct (Ascii.eqb d c); [|reflexivity]. apply Hk. eauto.
  - destruct s as [|d s]; [reflexivity|].
    destruct (p d); [|reflexivity]. apply Hk. eauto.
  - apply star_never. apply (never_closed P); auto.
  - destruct s as [|d s]; [reflexivity|].
    destruct (p d); [|reflexivity].
    apply star_never. apply (never_closed P); eauto.
  - apply IHr1; [exact Hs|]. intros. now apply IHr2.
  - apply IHr; [exact Hs|]. intros. now apply Hk.
  - destruct (at_eol s); [|reflexivity]. now apply Hk.
Qed.

Lemma all_chars_tail (q : ascii -> bool) c t :
  all_chars q (String c t) = true -> all_chars q t = true.
Proof. simpl. intros H. now apply andb_true_iff in H. Qed.

(** A pattern that needs the character [x] fails on a text without it. *)
Lemma run_needs_char (x : ascii) r :
  needs x r = true ->
  forall s pos g (k : string -> nat -> groups -> option R),
    all_chars (not_char x) s = true -> run r s pos g k = None.
Proof.
  induction r; intros Hn s pos g k Hs; simpl in *; try discriminate.
  - destruct s as [|d s]; [reflexivity|].
    simpl in Hs. apply andb_true_iff in Hs as [Hd _].
    unfold not_char in Hd. apply negb_true_iff in Hd.
    apply Ascii.eqb_eq in Hn. subst x. now rewrite Hd.
  - destruct (needs x r1) eqn:H1.
    + now apply IHr1.
    + simpl in Hn.
      apply (run_none_closed (fun t => all_chars (not_char x) t = true));
        [apply all_chars_tail | exact Hs |].
      intros. now apply IHr2.
  - now apply IHr.
Qed.

End NeedsChar.

(* ------------------------------------------------------------------ *)
(** ** The three patterns of [fixup_disasm] on a jump operand *)

Section JumpOperand.

Context {A : Type}.

(** The text before the operand, the white space in front of it, and the
    hexadecimal offset [String h0 h]. *)
Variables (p : string) (ws : ascii) (h0 : ascii) (h : string).
Hypothesis Hp : all_chars is_dot p = true.
Hypothesis Hws : is_space ws = true.
Hypothesis Hh0 : is_hex h0 = true.
Hypothesis Hh : all_chars is_hex h = true.

(** A symbol [String r0 R] without white space, and a delta [String d0 delta]. *)
Variables (r0 : ascii) (R : string) (d0 : ascii) (delta : string).
Hypothesis Hr0 : not_space r0 = true.
Hypothesis HR : all_chars not_space R = true.
Hypothesis Hd0 : is_hex d0 = true.
Hypothesis Hd : all_chars is_hex delta = true.

Implicit Type K : string -> nat -> groups -> option A.






End JumpOperand.

(* ------------------------------------------------------------------ *)
(** ** [fixup_disasm] *)

Lemma take_append_cons (a : string) (c : ascii) (b : string) :
  take (S (String.length a)) (a ++ String c b) = (a ++ String c "")%string.
Proof.
  induction a as [|x a IH].
  - destruct b; reflexivity.
  - change (String x (take (S (String.length a)) (a ++ String c b))
            = String x (a ++ String c "")).
    now rewrite IH.
Qed.

Lemma slice_append3 (a b c : string) (n m : nat) :
  n = String.length a -> m = n + String.length b ->
  slice n m (a ++ b ++ c) = b.
Proof.
  intros -> ->. unfold slice. rewrite drop_append.
  replace (String.length a + String.length b - String.length a)
    with (String.length b) by lia.
  apply take_append.
Qed.

(** The slice of [s] between a prefix and a suffix. *)
Lemma slice_eq (s pre mid post : string) (n m : nat) :
  s = (pre ++ mid ++ post)%string ->
  n = String.length pre -> m = n + String.length mid ->
  slice n m s = mid.
Proof. intros ->. apply slice_append3. Qed.



(** Two ways of bracketing the same concatenation. *)
Ltac same_text :=
  repeat first [ progress cbn [append] | rewrite append_assoc | rewrite append_nil_r ];
  reflexivity.


Lemma no_plus_self_jump (disasm rawfuncname : string) :
  all_chars (not_char "+") disasm = true ->
  fixup_self_jump disasm rawfuncname = inr disasm.
Proof.
  intros H. unfold fixup_self_jump, rmatch.
  rewrite (run_needs_char "+" re_self_jump eq_refl _ _ _ _ H). reflexivity.
Qed.

Section Fixup.

Variable demangle : string -> string.

(** The text before the operand and the white space in front of it. *)
Variables (p : string) (ws : ascii).
Hypothesis Hp : all_chars is_dot p = true.
Hypothesis Hws : is_space ws = true.

(** The hexadecimal offset of the operand. *)
Variable h : string.
Hypothesis Hh_ne : h <> "".
Hypothesis Hh : all_chars is_hex h = true.

(** The symbol between the angle brackets: not empty, no white space. *)
Variable name : string.
Hypothesis Hname_ne : name <> "".
Hypothesis Hname : all_chars not_space name = true.



End Fixup.




(* ------------------------------------------------------------------ *)
(** ** Facts about dictionaries keyed by strings *)

Section StringDict.

Context {V : Type}.

Implicit Type d : list (string * V).

Lemma dict_get_set_same k v d :
  dict_get String.eqb k (dict_set String.eqb k v d) = Some v.
Proof.
  induction d as [|[k' v'] d IH]; simpl.
  - now rewrite String.eqb_refl.
  - destruct (String.eqb k' k) eqn:E; simpl; rewrite E; [reflexivity | exact IH].
Qed.

Lemma dict_get_set_other k k' v d :
  k <> k' ->
  dict_get String.eqb k' (dict_set String.eqb k v d) = dict_get String.eqb k' d.
Proof.
  intros Hne. induction d as [|[k0 v0] d IH]; simpl.
  - apply String.eqb_neq in Hne. now rewrite Hne.
  - destruct (String.eqb k0 k) eqn:E; simpl.
    + apply String.eqb_eq in E. subst k0.
      apply String.eqb_neq in Hne. now rewrite Hne.
    + now rewrite IH.
Qed.

Lemma dict_set_In k v d k' v' :
  In (k', v') (dict_set String.eqb k v d) ->
  In (k', v') d \/ (k' = k /\ v' = v).
Proof.
  induction d as [|[k0 v0] d IH]; simpl.
  - intros [[= <- <-]|[]]. now right.
  - destruct (String.eqb k0 k) eqn:E; simpl.
    + apply String.eqb_eq in E. subst k0.
      intros [[= <- <-]|H]; [now right | left; now right].
    + intros [H|H]; [left; now left|].
      destruct (IH H) as [H'|H']; [left; now right | now right].
Qed.

Lemma dict_get_In k v d : dict_get String.eqb k d = Some v -> In (k, v) d.
Proof.
  induction d as [|[k0 v0] d IH]; simpl; [discriminate|].
  destruct (String.eqb k0 k) eqn:E.
  - apply String.eqb_eq in E. subst k0. intros [= <-]. now left.
  - intros H. right. now apply IH.
Qed.

End StringDict.

(* ------------------------------------------------------------------ *)
(** ** Facts about the scope tree *)

(** [is_prefix q p]: the path [p] starts with the path [q]. *)
Definition is_prefix (q p : list string) : Prop := exists r, p = q ++ r.

(** The path of a function in the scope tree. *)
Definition fpath (f : Function) : list string := split_on "::" (demangled f).

Lemma split_on_aux_nonempty sep skip cur s : split_on_aux sep skip cur s <> [].
Proof.
  revert skip cur; induction s as [|c s IH]; intros skip cur; simpl.
  - discriminate.
  - destruct skip; [|apply IH].
    destruct (starts_with sep (String c s)); [discriminate | apply IH].
Qed.

Lemma fpath_split (f : Function) :
  fpath f = removelast (fpath f) ++ [last (fpath f) ""].
Proof. apply app_removelast_last. apply split_on_aux_nonempty. Qed.

(** After a successful walk the function is bound at the end of its path. *)
Lemma scope_insert_lookup scopes leaf fn node node' :
  scope_insert scopes leaf fn node = inr node' ->
  scope_lookup (scopes ++ [leaf]) node' = Some (FunctionRef fn).
Proof.
  revert node node'; induction scopes as [|sc rest IH]; intros node node' H;
    destruct node as [nm d|]; simpl in H; try discriminate.
  - injection H as <-. simpl. now rewrite dict_get_set_same.
  - destruct (scope_insert rest leaf fn _) as [e|child'] eqn:E; simpl in H;
      [discriminate|].
    injection H as <-. simpl. rewrite dict_get_set_same. eapply IH. exact E.
Qed.

(** A successful walk leaves alone every function bound at a path that
    does not start with the path walked. *)
Lemma scope_insert_other scopes leaf fn node node' path id :
  scope_insert scopes leaf fn node = inr node' ->
  scope_lookup path node = Some (FunctionRef id) ->
  ~ is_prefix (scopes ++ [leaf]) path ->
  scope_lookup path node' = Some (FunctionRef id).
Proof.
  revert node node' path; induction scopes as [|sc rest IH];
    intros node node' path H Hl Hp;
    destruct node as [nm d|]; simpl in H; try discriminate.
  - injection H as <-.
    destruct path as [|x path]; [discriminate Hl|].
    simpl in *. rewrite dict_get_set_other; [exact Hl|].
    intros <-. apply Hp. now exists path.
  - destruct (scope_insert rest leaf fn _) as [e|child'] eqn:E; simpl in H;
      [discriminate|].
    injection H as <-.
    destruct path as [|x path]; [discriminate Hl|].
    simpl in *.
    destruct (String.eqb_spec sc x) as [<-|Hne].
    + rewrite dict_get_set_same.
      destruct (dict_get String.eqb sc d) as [child|]; [|discriminate].
      eapply IH; [exact E | exact Hl |].
      intros [r Hr]. apply Hp. exists r. simpl. now rewrite Hr.
    + rewrite dict_get_set_other by exact Hne. exact Hl.
Qed.

(* ------------------------------------------------------------------ *)
(** ** Invariants of the parser *)

Lemma heap_update_length id g h : List.length (heap_update id g h) = List.length h.
Proof.
  revert id; induction h as [|f h IH]; intros [|id]; simpl; auto.
Qed.

Lemma heap_update_nth id g h i f :
  nth_error (heap_update id g h) i = Some f ->
  exists f0, nth_error h i = Some f0 /\ (f = f0 \/ f = g f0).
Proof.
  revert id i; induction h as [|f0 h IH]; intros [|id] [|i]; simpl;
    try discriminate.
  - intros [= <-]. eauto.
  - intros H. eauto.
  - intros [= <-]. eauto.
  - apply IH.
Qed.

(** The model is well formed: every entry of [functions] refers to an
    object with that raw name, and every object not shadowed by a later
    one is bound at its path in the scope tree. *)
Record well_formed (fs : list (string * nat)) (root : Node) (h : list Function)
  : Prop := mk_well_formed {
  wf_functions :
    forall k id, In (k, id) fs ->
      exists f, nth_error h id = Some f /\ rawname f = k;
  wf_scopes :
    forall i f, nth_error h i = Some f ->
      (forall j g, i < j -> nth_error h j = Some g -> ~ is_prefix (fpath g) (fpath f)) ->
      scope_lookup (fpath f) root = Some (FunctionRef i)
}.

Definition keeps_names (g : Function -> Function) : Prop :=
  forall f, rawname (g f) = rawname f /\ demangled (g f) = demangled f.

Lemma finish_keeps_names : keeps_names finish.
Proof. intros f. split; reflexivity. Qed.

Lemma well_formed_heap_update fs root h id g :
  keeps_names g ->
  well_formed fs root h -> well_formed fs root (heap_update id g h).
Proof.
  intros Hg [Hf Hs]. split.
  - intros k i Hin. destruct (Hf k i Hin) as (f & Hn & Hr).
    clear Hf Hs Hin.
    revert id i Hn; induction h as [|f0 h IH]; intros [|id] [|i] Hn;
      simpl in *; try discriminate; eauto.
    injection Hn as ->. exists (g f). split; [reflexivity|].
    rewrite <- Hr. apply Hg.
  - intros i f Hn Hlater.
    destruct (heap_update_nth _ _ _ _ _ Hn) as (f0 & Hn0 & Hf0).
    assert (Hpath : fpath f = fpath f0).
    { unfold fpath. destruct Hf0 as [->| ->]; [reflexivity|].
      now rewrite (proj2 (Hg f0)). }
    rewrite Hpath. apply Hs; [exact Hn0|].
    intros j g0 Hij Hj.
    assert (Hjl : j < List.length (heap_update id g h)).
    { rewrite heap_update_length. apply nth_error_Some. congruence. }
    destruct (nth_error (heap_update id g h) j) as [g1|] eqn:Hg1;
      [| apply nth_error_None in Hg1; lia].
    destruct (heap_update_nth _ _ _ _ _ Hg1) as (g2 & Hg2 & Hg12).
    assert (g2 = g0) by congruence. subst g2.
    rewrite <- Hpath.
    replace (fpath g0) with (fpath g1).
    + now apply (Hlater j g1).
    + unfold fpath. destruct Hg12 as [->| ->]; [reflexivity|].
      now rewrite (proj2 (Hg g0)).
Qed.

Definition wf_AsmFile (a : AsmFile) : Prop :=
  well_formed (functions a) (rootns a) (heap a).

Section ParserInvariant.

Variable demangle : string -> string.

Lemma empty_wf : wf_AsmFile empty_AsmFile.
Proof.
  split; simpl.
  - intros k id [].
  - intros [|i] f H; discriminate H.
Qed.

Lemma on_function_wf a off name a' :
  wf_AsmFile a -> _on_function demangle a off name = inr a' -> wf_AsmFile a'.
Proof.
  unfold wf_AsmFile, _on_function. intros Hwf H.
  set (heap1 := match cur_function a with
                | Some id => heap_update id finish (heap a)
                | None => heap a
                end) in *.
  assert (Hwf1 : well_formed (functions a) (rootns a) heap1).
  { subst heap1. destruct (cur_function a);
      [apply well_formed_heap_update; [apply finish_keeps_names | exact Hwf] | exact Hwf]. }
  clearbody heap1. clear Hwf.
  set (fn := new_Function (cur_section a) off name (demangle name)
               (last (split_on "::" (demangle name)) "")) in *.
  destruct (scope_insert _ _ _ _) as [e|root'] eqn:E; simpl in H; [discriminate|].
  injection H as <-. simpl.
  assert (Hpath : removelast (split_on "::" (demangle name))
                    ++ [last (split_on "::" (demangle name)) ""] = fpath fn).
  { symmetry. apply (fpath_split fn). }
  destruct Hwf1 as [Hf Hs]. split.
  - intros k id Hin. apply dict_set_In in Hin as [Hin|[-> ->]].
    + destruct (Hf k id Hin) as (f & Hn & Hr). exists f. split; [|exact Hr].
      rewrite nth_error_app1; [exact Hn|]. apply nth_error_Some. congruence.
    + exists fn. split; [|reflexivity].
      rewrite nth_error_app2, Nat.sub_diag by lia. reflexivity.
  - intros i f Hn Hlater.
    destruct (Nat.lt_ge_cases i (List.length heap1)) as [Hlt|Hge].
    + rewrite nth_error_app1 in Hn by exact Hlt.
      eapply scope_insert_other; [exact E | |].
      * apply Hs; [exact Hn|]. intros j g Hij Hj.
        apply (Hlater j g Hij).
        rewrite nth_error_app1; [exact Hj|]. apply nth_error_Some. congruence.
      * rewrite Hpath. apply (Hlater (List.length heap1) fn Hlt).
        rewrite nth_error_app2, Nat.sub_diag by lia. reflexivity.
    + rewrite nth_error_app2 in Hn by exact Hge.
      destruct (i - List.length heap1) as [|n] eqn:En; simpl in Hn;
        [|destruct n; discriminate Hn].
      injection Hn as <-. assert (i = List.length heap1) by lia. subst i.
      rewrite <- Hpath. eapply scope_insert_lookup. exact E.
Qed.

Lemma on_instruction_wf a off hexdump text a' :
  wf_AsmFile a -> _on_instruction demangle a off hexdump text = inr a' ->
  wf_AsmFile a'.
Proof.
  unfold wf_AsmFile, _on_instruction. intros Hwf H.
  destruct (cur_function a) as [id|]; [|discriminate].
  destruct (nth_error (heap a) id) as [f|]; [|discriminate].
  destruct (fixup_disasm demangle text (rawname f)) as [e|text']; simpl in H;
    [discriminate|].
  injection H as <-. simpl.
  apply well_formed_heap_update; [|exact Hwf].
  intros f0. split; reflexivity.
Qed.

Lemma on_line_wf a line a' :
  wf_AsmFile a -> on_line demangle a line = inr a' -> wf_AsmFile a'.
Proof.
  unfold on_line. intros Hwf H.
  destruct (String.eqb line blank_line); [injection H as <-; exact Hwf|].
  destruct (rmatch re_file_format line); [injection H as <-; exact Hwf|].
  destruct (rmatch re_section line); [injection H as <-; exact Hwf|].
  destruct (rmatch re_function line); [eapply on_function_wf; eauto|].
  destruct (match_in_function a re_instr line);
    [eapply on_instruction_wf; eauto|].
  destruct (match_in_function a re_instr_data line);
    [eapply on_instruction_wf; eauto|].
  discriminate.
Qed.

Lemma on_lines_wf f a a' :
  wf_AsmFile a -> on_lines demangle a f = inr a' -> wf_AsmFile a'.
Proof.
  revert a; induction f as [|line f IH]; intros a Hwf H; simpl in H.
  - injection H as <-. exact Hwf.
  - destruct (on_line demangle a line) as [e|a1] eqn:E; simpl in H; [discriminate|].
    eapply IH; [|exact H]. eapply on_line_wf; eauto.
Qed.

Lemma ObjDump_wf f a : ObjDump demangle f = inr a -> wf_AsmFile a.
Proof. apply on_lines_wf, empty_wf. Qed.

Lemma on_lines_app a f1 f2 :
  on_lines demangle a (f1 ++ f2) =
  bind (on_lines demangle a f1) (fun a1 => on_lines demangle a1 f2).
Proof.
  revert a; induction f1 as [|line f1 IH]; intros a; simpl; [reflexivity|].
  destruct (on_line demangle a line); simpl; [reflexivity | apply IH].
Qed.

(** Until a line is taken as a function header there is no current
    function. *)
Lemma no_header_no_function (pre : list string) (a0 a : AsmFile) :
  cur_function a0 = None ->
  (forall l, In l pre -> rmatch re_function l = None) ->
  on_lines demangle a0 pre = inr a ->
  cur_function a = None.
Proof.
  revert a0; induction pre as [|line pre IH]; intros a0 H0 Hpre H; simpl in H.
  - now injection H as <-.
  - destruct (on_line demangle a0 line) as [e|a1] eqn:E; simpl in H; [discriminate|].
    apply (IH a1); [| intros l Hl; apply Hpre; now right | exact H].
    unfold on_line in E.
    destruct (String.eqb line blank_line); [now injection E as <-|].
    destruct (rmatch re_file_format line); [now injection E as <-|].
    destruct (rmatch re_section line); [now injection E as <-|].
    rewrite (Hpre line (or_introl eq_refl)) in E.
    unfold match_in_function in E. rewrite H0 in E. discriminate E.
Qed.

(** C8.  Once the lines [pre] have been parsed into the model [a], a line
    that is not the blank line, matches neither the file-format, the
    section nor the function-header pattern, and either comes before any
    function header ([_cur_function] is [None]) or matches neither
    instruction pattern, ends the parse at once: whatever follows, the
    result is [ValueError('Unhandled line: %r' % line)]. *)
Theorem unhandled_line_aborts (pre post : list string) (line : string) (a : AsmFile) :
  on_lines demangle empty_AsmFile pre = inr a ->
  line <> blank_line ->
  rmatch re_file_format line = None ->
  rmatch re_section line = None ->
  rmatch re_function line = None ->
  cur_function a = None
    \/ (rmatch re_instr line = None /\ rmatch re_instr_data line = None) ->
  ObjDump demangle (pre ++ line :: post) = inl (ValueError "Unhandled line: %r" line).
Proof.
  intros Hpre Hblank Hff Hsec Hfun Hins.
  unfold ObjDump. rewrite on_lines_app, Hpre. simpl.
  assert (Hline : on_line demangle a line = inl (ValueError "Unhandled line: %r" line)).
  { unfold on_line. apply String.eqb_neq in Hblank.
    rewrite Hblank, Hff, Hsec, Hfun. unfold match_in_function.
    destruct Hins as [-> | [-> ->]]; [reflexivity|].
    destruct (cur_function a); reflexivity. }
  rewrite Hline. reflexivity.
Qed.

End ParserInvariant.

(** C8, at an instruction line that follows a section marker but no
    function header. *)
Lemma unhandled_line_aborts_example :
  ObjDump Samples.cxxfilt
    ([ln "Disassembly of section .text:"]
       ++ instr_ln "   0" "c3                   " "ret"
       :: [ln "0000000000000010 <main>:"])
  = inl (ValueError "Unhandled line: %r" (instr_ln "   0" "c3                   " "ret")).
Proof.
  apply (unhandled_line_aborts Samples.cxxfilt
           [ln "Disassembly of section .text:"] [ln "0000000000000010 <main>:"]
           (instr_ln "   0" "c3                   " "ret")
           (_on_section empty_AsmFile ".text")
           eq_refl ltac:(discriminate) eq_refl eq_refl eq_refl
           (or_introl eq_refl)).
Defined.

(* ------------------------------------------------------------------ *)
(** ** The scope tree after parsing *)

(** C9 (as stated) fails: the two constructors of [Foo] demangle to the
    same name, so the second takes the place of the first in the scope
    tree; the first stays recorded in [functions], but following
    [Foo], [Foo()] from the root reaches the second. *)
Lemma ctor_not_reachable :
  ObjDump Samples.cxxfilt Samples.ctors = inr Samples.ctors_model
  /\ In ("_ZN3FooC1Ev", 0) (functions Samples.ctors_model)
  /\ option_map fpath (nth_error (heap Samples.ctors_model) 0) = Some ["Foo"; "Foo()"]
  /\ scope_lookup ["Foo"; "Foo()"] (rootns Samples.ctors_model) = Some (FunctionRef 1).
Proof. repeat split. now left. Qed.

(** C9 (amended).  After a successful parse every entry of [functions]
    refers to a [Function] object with that raw name, and every [Function]
    object is reached from the root scope by following the components of
    its demangled name, unless a function created later has a demangled
    name whose components are a prefix of (or equal to) its own. *)
Theorem parsed_functions_reachable (demangle : string -> string)
    (lines : list string) (a : AsmFile) :
  ObjDump demangle lines = inr a ->
  (forall k id, In (k, id) (functions a) ->
     exists f, nth_error (heap a) id = Some f /\ rawname f = k)
  /\ (forall id f, nth_error (heap a) id = Some f ->
        (forall j g, id < j -> nth_error (heap a) j = Some g ->
                     ~ is_prefix (fpath g) (fpath f)) ->
        scope_lookup (fpath f) (rootns a) = Some (FunctionRef id)).
Proof.
  intros H. destruct (ObjDump_wf demangle lines a H) as [Hf Hs].
  split; assumption.
Qed.

(** C9 (amended), on an object with [A::run()] and [B::run()]. *)
Lemma parsed_functions_reachable_example :
  scope_lookup ["A"; "run()"] (rootns Samples.runs_old_model) = Some (FunctionRef 0)
  /\ scope_lookup ["B"; "run()"] (rootns Samples.runs_old_model) = Some (FunctionRef 1).
Proof.
  destruct (parsed_functions_reachable Samples.cxxfilt Samples.runs_old
              Samples.runs_old_model eq_refl) as [_ H].
  split.
  - refine (H 0 _ eq_refl _).
    intros [|[|j]] g Hlt Hj; try lia; [|destruct j; discriminate Hj].
    injection Hj as <-. intros [r Hr]. discriminate Hr.
  - refine (H 1 _ eq_refl _).
    intros [|[|j]] g Hlt Hj; try lia. destruct j; discriminate Hj.
Defined.

(* ------------------------------------------------------------------ *)
(** ** The function matchup *)

Lemma dict_set_In_gen {K V : Type} (eqb : K -> K -> bool) k v (d : list (K * V)) k' v' :
  In (k', v') (dict_set eqb k v d) ->
  In (k', v') d \/ (v' = v /\ (k' = k \/ eqb k' k = true)).
Proof.
  induction d as [|[k0 v0] d IH]; simpl.
  - intros [[= <- <-]|[]]. right. auto.
  - destruct (eqb k0 k) eqn:E; simpl.
    + intros [[= <- <-]|H]; [right; auto | left; now right].
    + intros [H|H]; [left; now left|].
      destruct (IH H) as [H'|H']; [left; now right | now right].
Qed.

(** The rewrite of raw names tried by [_lookup]. *)
Definition lookup_key (f : Function) : string :=
  replace "18gimple_statement_d" "21gimple_statement_base" (rawname f).

(** Every pair of [old_to_new] was produced by [_lookup] on an old item
    with the raw name of its key. *)
Lemma matchup_fold_In (newp : FunctionPeer) (l : list Function) acc o n :
  In (o, n) (fst (fst (fold_left (matchup_step newp) l acc))) ->
  In (o, n) (fst (fst acc))
  \/ exists o', In o' l /\ rawname o' = rawname o /\ _lookup newp o' = Some n.
Proof.
  revert acc; induction l as [|x l IH]; intros acc H; simpl in H; [now left|].
  destruct (IH _ H) as [Hacc|(o' & Hin & Hr & Hl)].
  - destruct acc as [[o2n n2o] g]. unfold matchup_step in Hacc.
    destruct (_lookup newp x) as [newitem|] eqn:E; simpl in Hacc.
    + apply dict_set_In_gen in Hacc as [Hacc|[-> Hk]]; [now left|].
      right. exists x. split; [now left|]. split; [|exact E].
      destruct Hk as [->|Hk]; [reflexivity|].
      unfold Function_eqb in Hk. apply String.eqb_eq in Hk. now symmetry.
    + now left.
  - right. exists o'. split; [now right | auto].
Qed.

Lemma old_to_new_lookup (old_file new_file : AsmFile) o n :
  In (o, n) (old_to_new (FunctionMatchupSet old_file new_file)) ->
  exists o', rawname o' = rawname o
             /\ _lookup (new_FunctionPeer new_file) o' = Some n.
Proof.
  unfold FunctionMatchupSet, new_MatchupSet. intros H.
  destruct (fold_left _ _ _) as [[o2n n2o] g] eqn:E. simpl in H.
  pose proof (matchup_fold_In (new_FunctionPeer new_file)
                (items (new_FunctionPeer old_file)) ([], [], []) o n) as Hf.
  rewrite E in Hf. simpl in Hf.
  destruct (Hf H) as [[]|(o' & _ & Hr & Hl)]. eauto.
Qed.

Lemma resolve_In h fs k f :
  In (k, f) (resolve h fs) -> exists id, In (k, id) fs /\ nth_error h id = Some f.
Proof.
  induction fs as [|[k0 id0] fs IH]; simpl; [intros []|].
  destruct (nth_error h id0) as [f0|] eqn:E.
  - intros [[= <- <-]|H]; [exists id0; auto|].
    destruct (IH H) as (id & Hin & Hn). exists id; auto.
  - intros H. destruct (IH H) as (id & Hin & Hn). exists id; auto.
Qed.

(** C1 (as stated) fails: [A::run()] and [B::run()] of the old object are
    both matched, through the leaf name [run()], with [C::run()] of the
    new one. *)
Lemma matchup_not_injective :
  ObjDump Samples.cxxfilt Samples.runs_old = inr Samples.runs_old_model
  /\ ObjDump Samples.cxxfilt Samples.runs_new = inr Samples.runs_new_model
  /\ map (fun '(o, n) => (rawname o, rawname n))
         (old_to_new (FunctionMatchupSet Samples.runs_old_model Samples.runs_new_model))
     = [("_ZN1A3runEv", "_ZN1C3runEv"); ("_ZN1B3runEv", "_ZN1C3runEv")].
Proof. repeat split. Qed.

(* ================================================================== *)
(** * Further functions of the module *)

From Stdlib Require HexadecimalPos.

(** [Function.get_instr_at_relative_offset]; [None] when the loop ends
    without a [return]. *)
Definition get_instr_at_relative_offset (f : Function) (reloffset : Z)
  : option Instruction :=
  let offset := (offset f + reloffset)%Z in
  find (fun instr => Z.eqb (instr_offset instr) offset) (instrs f).

(** [AsmFile.get_demangled_function]. *)
Definition get_demangled_function (a : AsmFile) (demangled_ : string)
  : option Function :=
  find (fun fn => String.eqb (demangled fn) demangled_) (functions_values a).

(** [main], with the contents of the two files in place of their paths:
    [read_objdump] on each, then [asm_diff] in full mode on a fresh
    [Output]. *)
Definition main (demangle : string -> string) (old_obj new_obj : list string)
  : result Output :=
  old <- ObjDump demangle old_obj ;;
  new <- ObjDump demangle new_obj ;;
  asm_diff old new (mkOutput 0 []) false.

(* ================================================================== *)
(** * Further properties *)

(* ------------------------------------------------------------------ *)
(** ** What a pattern matches *)

(** [matches r s rest]: the pattern [r] can consume exactly [s] when the
    text goes on with [rest] (only [$] looks at [rest]). *)
Fixpoint matches (r : regex) (s rest : string) : Prop :=
  match r with
  | Chr c => s = String c ""
  | Cls p => exists c, s = String c "" /\ p c = true
  | Star p => all_chars p s = true
  | Plus p => s <> "" /\ all_chars p s = true
  | Seq r1 r2 =>
      exists s1 s2, s = (s1 ++ s2)%string
                    /\ matches r1 s1 (s2 ++ rest) /\ matches r2 s2 rest
  | Group _ r1 => matches r1 s rest
  | Eol => s = "" /\ at_eol rest = true
  end.

Section MatcherTheory.

Context {R : Type}.

Lemma star_sound p s pos (k : string -> nat -> option R) res :
  star p s pos k = Some res ->
  exists s1 rest, s = (s1 ++ rest)%string /\ all_chars p s1 = true
                  /\ k rest (pos + String.length s1) = Some res.
Proof.
  revert pos; induction s as [|c s IH]; intros pos H; simpl in H.
  - exists "", "". rewrite Nat.add_0_r. auto.
  - destruct (p c) eqn:Hc.
    + destruct (star p s (S pos) k) as [r|] eqn:E.
      * injection H as <-. destruct (IH _ E) as (s1 & rest & -> & Hs1 & Hk).
        exists (String c s1), rest. simpl. rewrite Hc, Hs1.
        rewrite Nat.add_succ_comm in Hk. auto.
      * exists "", (String c s). rewrite Nat.add_0_r. auto.
    + exists "", (String c s). rewrite Nat.add_0_r. auto.
Qed.

Lemma star_complete p s rest pos (k : string -> nat -> option R) :
  all_chars p s = true ->
  k rest (pos + String.length s) <> None ->
  star p (s ++ rest) pos k <> None.
Proof.
  revert pos; induction s as [|c s IH]; intros pos Hs Hk; simpl in *.
  - rewrite Nat.add_0_r in Hk.
    destruct rest as [|d rest]; simpl; [exact Hk|].
    destruct (p d); [|exact Hk].
    destruct (star p rest (S pos) k); [discriminate | exact Hk].
  - apply andb_true_iff in Hs as [Hc Hs]. rewrite Hc.
    rewrite <- Nat.add_succ_comm in Hk.
    specialize (IH (S pos) Hs Hk).
    destruct (star p (s ++ rest) (S pos) k); [discriminate | contradiction].
Qed.

(** Whatever [run] returns comes from the continuation, called after a
    prefix that the pattern matches. *)
Lemma run_sound r s pos g (k : string -> nat -> groups -> option R) res :
  run r s pos g k = Some res ->
  exists s1 rest g', s = (s1 ++ rest)%string /\ matches r s1 rest
                     /\ k rest (pos + String.length s1) g' = Some res.
Proof.
  revert s pos g k; induction r; intros s pos g k H; simpl in H.
  - destruct s as [|d s]; [discriminate|].
    destruct (Ascii.eqb_spec d c) as [->|]; [|discriminate].
    exists (String c ""), s, g. simpl. rewrite Nat.add_1_r. auto.
  - destruct s as [|d s]; [discriminate|].
    destruct (p d) eqn:Hd; [|discriminate].
    exists (String d ""), s, g. simpl. rewrite Nat.add_1_r. eauto.
  - apply star_sound in H as (s1 & rest & -> & Hs1 & Hk).
    exists s1, rest, g. auto.
  - destruct s as [|d s]; [discriminate|].
    destruct (p d) eqn:Hd; [|discriminate].
    apply star_sound in H as (s1 & rest & -> & Hs1 & Hk).
    exists (String d s1), rest, g. simpl. rewrite Hd, Hs1.
    rewrite Nat.add_succ_comm in Hk. repeat split; auto. discriminate.
  - apply IHr1 in H as (s1 & rest1 & g1 & -> & H1 & H).
    apply IHr2 in H as (s2 & rest & g2 & -> & H2 & H).
    exists (s1 ++ s2)%string, rest, g2.
    rewrite length_append, Nat.add_assoc, append_assoc. repeat split; auto.
    simpl. eauto.
  - apply IHr in H as (s1 & rest & g' & -> & H1 & H).
    exists s1, rest, ((n, (pos, pos + String.length s1)) :: g'). auto.
  - destruct (at_eol s) eqn:E; [|discriminate].
    exists "", s, g. simpl. rewrite Nat.add_0_r. auto.
Qed.

(** [run] succeeds as soon as the pattern matches some prefix after which
    the continuation cannot fail. *)
Lemma run_complete r s rest pos g (k : string -> nat -> groups -> option R) :
  matches r s rest ->
  (forall g', k rest (pos + String.length s) g' <> None) ->
  run r (s ++ rest) pos g k <> None.
Proof.
  revert s rest pos g k; induction r; intros s rest pos g k Hm Hk; simpl in Hm.
  - subst s. simpl. rewrite Ascii.eqb_refl.
    specialize (Hk g). simpl in Hk. now rewrite Nat.add_1_r in Hk.
  - destruct Hm as (c & -> & Hc). simpl. rewrite Hc.
    specialize (Hk g). simpl in Hk. now rewrite Nat.add_1_r in Hk.
  - simpl. apply star_complete; auto.
  - destruct Hm as [Hne Hs]. destruct s as [|c s]; [congruence|].
    simpl in *. apply andb_true_iff in Hs as [Hc Hs]. rewrite Hc.
    apply star_complete; [exact Hs|].
    rewrite Nat.add_succ_comm. apply Hk.
  - destruct Hm as (s1 & s2 & -> & H1 & H2). simpl. rewrite append_assoc.
    apply IHr1; [exact H1|]. intros g'.
    apply IHr2; [exact H2|]. intros g''.
    rewrite <- Nat.add_assoc, <- length_append. apply Hk.
  - simpl. apply IHr; [exact Hm|]. intros g'. apply Hk.
  - destruct Hm as [-> He]. simpl. rewrite He.
    specialize (Hk g). simpl in Hk. now rewrite Nat.add_0_r in Hk.
Qed.

End MatcherTheory.

Lemma matches_Lit w r s rest :
  matches (Lit w r) s rest <-> exists s', s = (w ++ s')%string /\ matches r s' rest.
Proof.
  revert s; induction w as [|c w IH]; intros s; simpl.
  - split; [eauto | intros (s' & -> & H); exact H].
  - split.
    + intros (s1 & s2 & -> & -> & H). apply IH in H as (s' & -> & H).
      exists s'. auto.
    + intros (s' & -> & H). exists (String c ""), (w ++ s')%string.
      repeat split. apply IH. eauto.
Qed.

(** What [re.match] returns: the subject, and group spans that lie in it. *)
Lemma rmatch_subject r s m : rmatch r s = Some m -> subject m = s.
Proof.
  unfold rmatch. intros H.
  apply run_sound in H as (s1 & rest & g' & _ & _ & H). now injection H as <-.
Qed.

(* ------------------------------------------------------------------ *)
(** ** [fixup_disasm] never raises *)

(** The text captured by group 1 of the first pattern is matched by the
    body of that group. *)
Lemma self_jump_group1 d m :
  rmatch re_self_jump d = Some m ->
  matches (Seq (Plus is_hex) (Lit " <" (Seq (Plus is_dot)
             (Lit "+0x" (Seq (Plus is_hex) (Chr ">")))))) (group m 1) "".
Proof.
  unfold rmatch, re_self_jump. intros H.
  rewrite run_Seq in H.
  apply run_sound in H as (s1 & rest1 & g1 & -> & _ & H). simpl Nat.add in H.
  rewrite run_Seq in H.
  apply run_sound in H as (s2 & rest2 & g2 & -> & _ & H).
  rewrite run_Group in H.
  apply run_sound in H as (s3 & rest3 & g3 & -> & H3 & H).
  injection H as <-.
  unfold group, mstart, mend. cbn [spans subject span Nat.eqb fst snd].
  rewrite (slice_eq _ (s1 ++ s2) s3 rest3)
    by first [ same_text | rewrite length_append; lia ].
  (* the body has no [$]: what follows does not matter *)
  destruct H3 as (h & t1 & -> & Hh & H3).
  apply matches_Lit in H3 as (t2 & -> & (x & t3 & -> & Hx & H3)).
  apply matches_Lit in H3 as (t4 & -> & (y & t5 & -> & Hy & H3)).
  simpl in H3. subst t5.
  exists h, (" <" ++ x ++ "+0x" ++ y ++ ">")%string.
  split; [reflexivity|]. split; [exact Hh|].
  apply matches_Lit. exists (x ++ "+0x" ++ y ++ ">")%string. split; [reflexivity|].
  exists x, ("+0x" ++ y ++ ">")%string.
  split; [reflexivity|]. split; [exact Hx|].
  apply matches_Lit. exists (y ++ ">")%string. split; [reflexivity|].
  exists y, ">"%string.
  split; [reflexivity|]. split; [exact Hy | reflexivity].
Qed.

(** The second pattern of the first block matches whatever the first one
    captured: [m2] is never [None]. *)
Lemma self_jump_parts_total d m :
  rmatch re_self_jump d = Some m ->
  rmatch re_self_jump_parts (group m 1) <> None.
Proof.
  intros H. apply self_jump_group1 in H.
  destruct H as (h & t1 & E & Hh & H3).
  apply matches_Lit in H3 as (t2 & -> & (x & t3 & -> & Hx & H3)).
  apply matches_Lit in H3 as (t4 & -> & (y & t5 & -> & Hy & H3)).
  simpl in H3. subst t5. rewrite E.
  unfold rmatch.
  rewrite <- (append_nil_r (h ++ " <" ++ x ++ "+0x" ++ y ++ ">")).
  apply run_complete; [|discriminate].
  unfold re_self_jump_parts.
  exists h, (" <" ++ x ++ "+0x" ++ y ++ ">")%string.
  split; [reflexivity|]. split; [exact Hh|].
  apply matches_Lit. exists (x ++ "+0x" ++ y ++ ">")%string. split; [reflexivity|].
  exists x, ("+0x" ++ y ++ ">")%string.
  split; [reflexivity|]. split; [exact Hx|].
  exists "+"%string, ("0x" ++ y ++ ">")%string.
  split; [reflexivity|]. split; [reflexivity|].
  exists ("0x" ++ y)%string, ">"%string.
  split; [reflexivity|]. split; [|reflexivity].
  apply matches_Lit. exists y. split; [reflexivity | exact Hy].
Qed.

Lemma fixup_disasm_returns (demangle : string -> string) (disasm rawfuncname : string) :
  exists text, fixup_disasm demangle disasm rawfuncname = inr text.
Proof.
  unfold fixup_disasm.
  assert (H1 : exists t, fixup_self_jump disasm rawfuncname = inr t).
  { unfold fixup_self_jump.
    destruct (rmatch re_self_jump disasm) as [m|] eqn:E; [|eauto].
    pose proof (self_jump_parts_total _ _ E) as Hm2.
    destruct (rmatch re_self_jump_parts (group m 1)) as [m2|]; [|congruence].
    destruct (String.eqb (group m2 1) rawfuncname); eauto. }
  destruct H1 as [t ->]. simpl. unfold fixup_other_jump.
  destruct (rmatch re_other_jump t) as [m|]; [|eauto].
  destruct (negb _); eauto.
Qed.

(** X1.  [fixup_disasm] returns a text for every instruction text, raw
    name and demangler: whenever the first pattern of its first block
    matches, the second pattern matches the captured operand, so
    [m2.group] is never taken on [None]. *)
Theorem fixup_disasm_total (demangle : string -> string) (disasm rawfuncname : string) :
  (forall m, rmatch re_self_jump disasm = Some m ->
             rmatch re_self_jump_parts (group m 1) <> None)
  /\ exists text, fixup_disasm demangle disasm rawfuncname = inr text.
Proof.
  split; [intros m; apply self_jump_parts_total | apply fixup_disasm_returns].
Qed.

(** X2.  An instruction text without ['<'], or without ['>'], is left as
    it is, whatever the raw name and the demangler. *)
Theorem fixup_disasm_plain_text (demangle : string -> string)
    (disasm rawfuncname : string) :
  all_chars (not_char "<") disasm = true \/ all_chars (not_char ">") disasm = true ->
  fixup_disasm demangle disasm rawfuncname = inr disasm.
Proof.
  intros H. unfold fixup_disasm, fixup_self_jump, fixup_other_jump, rmatch.
  destruct H as [H|H].
  - rewrite (run_needs_char "<" re_self_jump eq_refl _ _ _ _ H).
    cbn [bind ret].
    rewrite (run_needs_char "<" re_other_jump eq_refl _ _ _ _ H). reflexivity.
  - rewrite (run_needs_char ">" re_self_jump eq_refl _ _ _ _ H).
    cbn [bind ret].
    rewrite (run_needs_char ">" re_other_jump eq_refl _ _ _ _ H). reflexivity.
Qed.

Lemma fixup_disasm_plain_text_example :
  fixup_disasm Samples.cxxfilt "mov    %rsp,%rbp" "main" = inr "mov    %rsp,%rbp".
Proof.
  apply (fixup_disasm_plain_text Samples.cxxfilt "mov    %rsp,%rbp" "main"
           (or_introl eq_refl)).
Defined.

(* ------------------------------------------------------------------ *)
(** ** Hexadecimal offsets *)

(** The value of a string of lower-case hexadecimal digits, read from the
    left with an accumulator. *)
Fixpoint hex_value (acc : Z) (s : string) : Z :=
  match s with
  | EmptyString => acc
  | String c s' => hex_value (16 * acc + hex_digit c)%Z s'
  end.

Lemma from_hex_value s : from_hex s = hex_value 0 s.
Proof.
  unfold from_hex. generalize 0%Z as acc.
  induction s as [|c s IH]; intros acc; simpl; [reflexivity | apply IH].
Qed.

Lemma hex_value_append acc a b : hex_value acc (a ++ b) = hex_value (hex_value acc a) b.
Proof. revert acc; induction a as [|c a IH]; intros acc; simpl; auto. Qed.

Lemma hex_value_uint (u d : Hexadecimal.uint) :
  hex_value (Z.of_N (HexadecimalPos.Unsigned.of_lu d))
            (HexadecimalString.NilEmpty.string_of_uint u)
  = Z.of_N (HexadecimalPos.Unsigned.of_lu (Hexadecimal.revapp u d)).
Proof.
  revert d; induction u; intros d; cbn [Hexadecimal.revapp];
    [reflexivity | rewrite <- IHu ..];
    cbn [HexadecimalString.NilEmpty.string_of_uint hex_value
         HexadecimalPos.Unsigned.of_lu];
    f_equal;
    match goal with
    | |- context [hex_digit ?c] =>
        let v := eval vm_compute in (hex_digit c) in
        change (hex_digit c) with v
    end;
    rewrite ?N2Z.inj_add, ?N2Z.inj_mul; lia.
Qed.

Lemma hex_digits_uint (u : Hexadecimal.uint) :
  all_chars is_hex (HexadecimalString.NilEmpty.string_of_uint u) = true.
Proof. induction u; simpl; auto. Qed.

Lemma string_of_uint_pos (p : positive) :
  HexadecimalString.NilZero.string_of_uint (Pos.to_hex_uint p)
  = HexadecimalString.NilEmpty.string_of_uint (Pos.to_hex_uint p).
Proof.
  pose proof (HexadecimalPos.Unsigned.to_uint_nonnil p) as H.
  unfold HexadecimalString.NilZero.string_of_uint.
  destruct (Pos.to_hex_uint p); [congruence | reflexivity ..].
Qed.

Lemma hex_of_int_value (n : Z) : (0 <= n)%Z -> hex_value 0 (hex_of_int n) = n.
Proof.
  intros Hn. destruct n as [|p|p]; [reflexivity | | lia].
  unfold hex_of_int. rewrite string_of_uint_pos.
  change 0%Z with (Z.of_N (HexadecimalPos.Unsigned.of_lu Hexadecimal.Nil)).
  rewrite hex_value_uint.
  change (Hexadecimal.revapp (Pos.to_hex_uint p) Hexadecimal.Nil)
    with (Hexadecimal.rev (Pos.to_hex_uint p)).
  rewrite <- HexadecimalPos.Unsigned.of_uint_alt,
    HexadecimalPos.Unsigned.of_to. reflexivity.
Qed.

Lemma hex_of_int_digits (n : Z) : (0 <= n)%Z -> all_chars is_hex (hex_of_int n) = true.
Proof.
  intros Hn. destruct n as [|p|p]; [reflexivity | | lia].
  unfold hex_of_int. rewrite string_of_uint_pos. apply hex_digits_uint.
Qed.

(** X3.  Printing and parsing offsets agree: for a non-negative [n], the
    digits of ['%x' % n] are non-empty lower-case hexadecimal digits and
    [from_hex] reads [n] back from them; leading zeros do not matter. *)
Theorem from_hex_hex_of_int (n : Z) :
  (0 <= n)%Z ->
  hex_of_int n <> ""
  /\ all_chars is_hex (hex_of_int n) = true
  /\ from_hex (hex_of_int n) = n
  /\ forall zeros, all_chars (Ascii.eqb "0") zeros = true ->
                   from_hex (zeros ++ hex_of_int n) = n.
Proof.
  intros Hn. pose proof (hex_of_int_value n Hn) as Hval.
  repeat split.
  - destruct n as [|p|p]; [discriminate | | lia].
    unfold hex_of_int. rewrite string_of_uint_pos.
    pose proof (HexadecimalPos.Unsigned.to_uint_nonnil p) as H.
    destruct (Pos.to_hex_uint p); [congruence | discriminate ..].
  - now apply hex_of_int_digits.
  - now rewrite from_hex_value.
  - intros zeros Hz. rewrite from_hex_value, hex_value_append.
    replace (hex_value 0 zeros) with 0%Z; [exact Hval|].
    induction zeros as [|c z IH]; [reflexivity|].
    cbn [all_chars] in Hz. apply andb_true_iff in Hz as [Hc Hz].
    apply Ascii.eqb_eq in Hc. subst c. simpl. now apply IH.
Qed.

Lemma from_hex_hex_of_int_example :
  from_hex (hex_of_int 4672) = 4672%Z /\ from_hex ("0000" ++ hex_of_int 4672) = 4672%Z.
Proof.
  destruct (from_hex_hex_of_int 4672 ltac:(lia)) as (_ & _ & H1 & H2).
  split; [exact H1 | exact (H2 "0000" eq_refl)].
Defined.

(* ------------------------------------------------------------------ *)
(** ** Looking functions and instructions up *)

Lemma find_unique {A B : Type} (key : A -> B) (eqb : B -> B -> bool) (l : list A) (x : A) :
  (forall a b, eqb a b = true <-> a = b) ->
  NoDup (map key l) -> In x l ->
  find (fun y => eqb (key y) (key x)) l = Some x.
Proof.
  intros Heq. induction l as [|y l IH]; intros Hnd Hin; [destruct Hin|].
  simpl in *. inversion Hnd as [|? ? Hy Hl]; subst.
  destruct (eqb (key y) (key x)) eqn:E.
  - apply Heq in E. destruct Hin as [->|Hin]; [reflexivity|].
    exfalso. apply Hy. rewrite E. now apply in_map.
  - destruct Hin as [->|Hin]; [|now apply IH].
    assert (eqb (key x) (key x) = true) by now apply Heq. congruence.
Qed.

(** X4.  In a function whose instructions have pairwise different
    offsets, every instruction is found at its own offset relative to the
    function; an offset at which no instruction starts gives [None]. *)
Theorem get_instr_at_relative_offset_spec (f : Function) :
  NoDup (map instr_offset (instrs f)) ->
  (forall instr, In instr (instrs f) ->
     get_instr_at_relative_offset f (instr_offset instr - offset f) = Some instr)
  /\ (forall reloffset,
        (forall instr, In instr (instrs f) ->
                       instr_offset instr <> (offset f + reloffset)%Z) ->
        get_instr_at_relative_offset f reloffset = None).
Proof.
  intros Hnd. unfold get_instr_at_relative_offset. split.
  - intros instr Hin.
    replace (offset f + (instr_offset instr - offset f))%Z
      with (instr_offset instr) by lia.
    apply (find_unique instr_offset Z.eqb); auto. apply Z.eqb_eq.
  - intros reloffset H.
    destruct (find _ (instrs f)) as [i|] eqn:E; [|reflexivity].
    apply find_some in E as [Hin Hi]. apply Z.eqb_eq in Hi.
    now apply H in Hin.
Qed.

Lemma get_instr_at_relative_offset_example :
  get_instr_at_relative_offset Samples.padded 1 = Some (Samples.nop_at 1)
  /\ get_instr_at_relative_offset Samples.padded 7 = None.
Proof.
  destruct (get_instr_at_relative_offset_spec Samples.padded) as [H1 H2].
  - repeat constructor; simpl; intuition discriminate.
  - split.
    + apply (H1 (Samples.nop_at 1)). simpl. auto.
    + apply H2. simpl. intros instr [<-|[<-|[<-|[]]]]; discriminate.
Defined.

(** X5.  [get_demangled_function] returns the first recorded function
    with the given demangled name: a function is found under its own
    demangled name when no recorded function before it shares that name,
    and a name no recorded function has gives [None]. *)
Theorem get_demangled_function_spec (a : AsmFile) :
  (forall before f after,
      functions_values a = before ++ f :: after ->
      (forall g, In g before -> demangled g <> demangled f) ->
      get_demangled_function a (demangled f) = Some f)
  /\ (forall name,
        (forall f, In f (functions_values a) -> demangled f <> name) ->
        get_demangled_function a name = None).
Proof.
  unfold get_demangled_function. split.
  - intros before f after -> Hb.
    induction before as [|g before IH]; simpl.
    + now rewrite String.eqb_refl.
    + destruct (String.eqb_spec (demangled g) (demangled f)) as [E|_].
      * exfalso. apply (Hb g); [now left | exact E].
      * apply IH. intros g' Hg'. apply Hb. now right.
  - intros name H.
    destruct (find _ (functions_values a)) as [f|] eqn:E; [|reflexivity].
    apply find_some in E as [Hin Hf]. apply String.eqb_eq in Hf.
    now apply H in Hin.
Qed.

(* ------------------------------------------------------------------ *)
(** ** [fn_equal] and [fn_diff] *)

(** X6.  [fn_equal] is an equivalence on functions: reflexive, symmetric
    and transitive. *)
Theorem fn_equal_equivalence :
  (forall f, fn_equal f f = true)
  /\ (forall f g, fn_equal f g = fn_equal g f)
  /\ (forall f g h, fn_equal f g = true -> fn_equal g h = true -> fn_equal f h = true).
Proof.
  repeat split.
  - intros f. rewrite fn_equal_texts. now apply texts_eqb_eq.
  - intros f g. rewrite !fn_equal_texts.
    destruct (texts_eqb (map disasm (instrs f)) (map disasm (instrs g))) eqn:E.
    + apply texts_eqb_eq in E. symmetry. apply texts_eqb_eq. now symmetry.
    + destruct (texts_eqb (map disasm (instrs g)) (map disasm (instrs f))) eqn:E';
        [|reflexivity].
      apply texts_eqb_eq in E'. symmetry in E'. apply texts_eqb_eq in E'. congruence.
  - intros f g h. rewrite !fn_equal_texts, !texts_eqb_eq. congruence.
Qed.

Lemma indent_exit_enter out : indent_exit (indent_enter out) = out.
Proof.
  destruct out as [n l]. unfold indent_exit, indent_enter. simpl.
  f_equal. lia.
Qed.

Lemma writeln_indent out s : _indent (writeln out s) = _indent out.
Proof. reflexivity. Qed.

Lemma fold_writeln_indent {A : Type} (step : Output -> A -> Output) (l : list A) out :
  (forall o a, _indent (step o a) = _indent o) ->
  _indent (fold_left step l out) = _indent out.
Proof.
  intros H. revert out; induction l as [|a l IH]; intros out; simpl; [reflexivity|].
  now rewrite IH, H.
Qed.

Lemma handle_minor_changes_indent old new out out' :
  handle_minor_changes old new out = inr out' -> _indent out' = _indent out.
Proof.
  unfold handle_minor_changes.
  destruct (section_ne (section old) (section new)) as [e|[|]]; simpl;
    [discriminate| |].
  - destruct (name_of_section (section old)); simpl; [discriminate|].
    destruct (name_of_section (section new)); simpl; [discriminate|].
    intros [= <-]. destruct (negb _); reflexivity.
  - destruct (negb (Z.eqb (offset old) (offset new))).
    + destruct (name_of_section (section old)); simpl; [discriminate|].
      intros [= <-]. destruct (negb _); reflexivity.
    + intros [= <-]. destruct (negb _); reflexivity.
Qed.

Lemma fn_diff_indent old new out just_sizes out' :
  fn_diff old new out just_sizes = inr out' -> _indent out' = _indent out.
Proof.
  intros H. unfold fn_diff in H. destruct just_sizes.
  - destruct (negb (Z.eqb (size old) (size new)));
      [destruct (negb (String.eqb (rawname old) (rawname new)))|];
      injection H as <-; reflexivity.
  - destruct (handle_minor_changes old new _) as [e|out1] eqn:E; simpl in H;
      [discriminate|].
    injection H as <-. apply handle_minor_changes_indent in E. simpl in E.
    destruct (existsb _ _).
    + unfold indent_exit. simpl. rewrite fold_writeln_indent.
      * simpl. rewrite E. lia.
      * intros o [oi ni]. unfold diff_instr.
        destruct (String.eqb (disasm oi) (disasm ni)); reflexivity.
    + rewrite indent_exit_enter. exact E.
Qed.

(** X7.  Whenever [fn_diff] returns, in either mode, the indentation
    level is the one it started with and the lines written before are
    still there, followed by the new ones. *)
Theorem fn_diff_frame (old new : Function) (out out' : Output) (just_sizes : bool) :
  fn_diff old new out just_sizes = inr out' ->
  _indent out' = _indent out
  /\ exists more, fileobj out' = fileobj out ++ more.
Proof.
  intros H. split; [exact (fn_diff_indent _ _ _ _ _ H)|].
  exact (fn_diff_extends _ _ _ _ _ H).
Qed.

Lemma fn_diff_frame_example :
  _indent (mkOutput 3 ["x"]) = 3
  /\ exists more, ["x"] ++ more
       = ["x"; "      --- a/f_v1" ++ blank_line; "      +++ b/f_v1" ++ blank_line;
          "        (renamed to f_v2)" ++ blank_line]%string.
Proof.
  destruct (fn_diff_frame Samples.f_v1 Samples.f_v2 (mkOutput 3 ["x"]) _ false eq_refl)
    as [H1 [more H2]].
  split; [exact H1 | exists more; symmetry; exact H2].
Defined.

(** X8.  In full mode [fn_diff] returns exactly when both functions have
    a section, or neither has one and their offsets are equal; otherwise
    it raises [AttributeError], reading [.name] of a missing section. *)
Theorem fn_diff_full_mode_errors (old new : Function) (out : Output) :
  ((exists out', fn_diff old new out false = inr out')
   <-> (section old <> None /\ section new <> None)
       \/ (section old = None /\ section new = None /\ offset old = offset new))
  /\ (forall e, fn_diff old new out false = inl e ->
        e = AttributeError "'NoneType' object has no attribute 'name'").
Proof.
  unfold fn_diff, handle_minor_changes.
  destruct (section old) as [so|], (section new) as [sn|]; simpl.
  - split.
    + split; [intros _; left; split; discriminate|]. intros _.
      destruct (negb (String.eqb (section_name so) (section_name sn))); simpl;
        [eauto|].
      destruct (negb (Z.eqb (offset old) (offset new))); simpl; eauto.
    + intros e.
      destruct (negb (String.eqb (section_name so) (section_name sn))); simpl;
        [discriminate|].
      destruct (negb (Z.eqb (offset old) (offset new))); simpl; discriminate.
  - split.
    + split; [intros [o H]; discriminate H|].
      intros [[_ H]|[H _]]; congruence.
    + intros e [= <-]. reflexivity.
  - split.
    + split; [intros [o H]; discriminate H|].
      intros [[H _]|[_ [H _]]]; congruence.
    + intros e [= <-]. reflexivity.
  - destruct (Z.eqb_spec (offset old) (offset new)) as [E|E]; simpl.
    + split; [|discriminate].
      split; [intros _; right; auto | eauto].
    + split.
      * split; [intros [o H]; discriminate H|].
        intros [[H _]|[_ [_ H]]]; congruence.
      * intros e [= <-]. reflexivity.
Qed.

Lemma fn_diff_same (f : Function) (out : Output) :
  fn_diff f f out false
  = inr (writeln (writeln out ("--- a/" ++ demangled f)) ("+++ b/" ++ demangled f)).
Proof.
  unfold fn_diff, handle_minor_changes.
  rewrite String.eqb_refl. simpl negb. cbv iota.
  assert (Hsec : section_ne (section f) (section f) = inr false).
  { destruct (section f) as [s|]; simpl; [|reflexivity].
    now rewrite String.eqb_refl. }
  rewrite Hsec. cbn [bind]. rewrite Z.eqb_refl. cbn [negb bind ret].
  assert (Hsame : existsb (fun '(oldinstr, newinstr) =>
                             negb (String.eqb (disasm oldinstr) (disasm newinstr)))
                          (combine (instrs f) (instrs f)) = false).
  { induction (instrs f) as [|i l IH]; simpl; [reflexivity|].
    now rewrite String.eqb_refl. }
  rewrite Hsame. now rewrite indent_exit_enter.
Qed.

(** X9.  Diffing a function against itself: in size-only mode nothing is
    written; in full mode the two header lines are written and nothing
    else, since the early return for equal functions is commented out. *)
Theorem fn_diff_self (f : Function) (out : Output) :
  fn_diff f f out true = inr out
  /\ fn_diff f f out false
     = inr (writeln (writeln out ("--- a/" ++ demangled f)) ("+++ b/" ++ demangled f)).
Proof.
  split; [|apply fn_diff_same].
  unfold fn_diff. now rewrite Z.eqb_refl.
Qed.

(* ------------------------------------------------------------------ *)
(** ** More invariants of the parser *)

Lemma heap_update_nth_eq id g h i :
  nth_error (heap_update id g h) i =
  if Nat.eqb i id then option_map g (nth_error h i) else nth_error h i.
Proof.
  revert id i; induction h as [|f h IHh]; intros [|id] [|i]; simpl; auto.
  destruct (Nat.eqb i id); reflexivity.
Qed.

Lemma dict_set_keys {V : Type} k (v : V) d :
  map fst (dict_set String.eqb k v d) =
  if dict_has String.eqb k d then map fst d else map fst d ++ [k].
Proof.
  unfold dict_has. induction d as [|[k0 v0] d IH]; simpl; [reflexivity|].
  destruct (String.eqb k0 k) eqn:E; simpl; [reflexivity|].
  rewrite IH. destruct (dict_get String.eqb k d); reflexivity.
Qed.

Lemma dict_has_In {V : Type} k (d : list (string * V)) :
  dict_has String.eqb k d = true <-> In k (map fst d).
Proof.
  unfold dict_has. induction d as [|[k0 v0] d IH]; simpl.
  - split; [discriminate | intros []].
  - destruct (String.eqb_spec k0 k) as [->|Hne].
    + split; auto.
    + rewrite IH. split; [auto | intros [H|H]; [contradiction | exact H]].
Qed.

Lemma dict_set_keys_NoDup {V : Type} k (v : V) d :
  NoDup (map fst d) -> NoDup (map fst (dict_set String.eqb k v d)).
Proof.
  intros H. rewrite dict_set_keys.
  destruct (dict_has String.eqb k d) eqn:E; [exact H|].
  apply NoDup_app; [exact H | repeat constructor; intros [] |].
  intros x Hx [<-|[]].
  apply dict_has_In in Hx. congruence.
Qed.

Lemma resolve_keys h fs :
  (forall k id, In (k, id) fs -> exists f, nth_error h id = Some f) ->
  map fst (resolve h fs) = map fst fs.
Proof.
  induction fs as [|[k id] fs IH]; intros H; [reflexivity|].
  simpl. destruct (H k id (or_introl eq_refl)) as (f & ->).
  simpl. f_equal. apply IH. intros k' id' Hin. apply (H k' id'). now right.
Qed.

(** A function that [finish] has been called on, and one that only
    received instructions. *)
Definition finished (f : Function) : Prop :=
  size f = sum_Z (map (fun instr => Z.of_nat (List.length (bytes_ instr))) (instrs f))
  /\ List.length (padding f) <= 1
  /\ forall instr, In instr (padding f) -> disasm instr = "nop".

Definition unfinished (f : Function) : Prop :=
  padding f = [] /\ size f = 0%Z.

Lemma finish_finished f : finished (finish f).
Proof.
  split; [reflexivity|]. split; [apply finish_padding_le_1|].
  unfold finish; simpl. rewrite for_each_break_first.
  destruct (rev (instrs f)) as [|i l] eqn:E; simpl.
  - rewrite skipn_all. intros instr [].
  - assert (Hf : instrs f = rev l ++ [i]).
    { rewrite <- (rev_involutive (instrs f)), E. reflexivity. }
    destruct (String.eqb_spec (disasm i) "nop") as [Hi|Hi].
    + rewrite Hf, length_app. simpl.
      replace (List.length (rev l) + 1 - 1) with (List.length (rev l) + 0) by lia.
      rewrite skipn_app, skipn_all2 by lia. simpl.
      replace (List.length (rev l) + 0 - List.length (rev l)) with 0 by lia.
      simpl. intros instr [<-|[]]. exact Hi.
    + rewrite skipn_all. intros instr [].
Qed.

Section ParserState.

Variable demangle : string -> string.

(** What every model built by the parser satisfies, besides [wf_AsmFile]. *)
Record parse_inv (a : AsmFile) : Prop := mk_parse_inv {
  pi_cur :
    cur_function a =
    match heap a with [] => None | _ :: _ => Some (List.length (heap a) - 1) end;
  pi_keys : NoDup (map fst (functions a));
  pi_section_keys : NoDup (map fst (sections a));
  pi_sections : forall k s, In (k, s) (sections a) -> section_name s = k;
  pi_names :
    forall f, In f (heap a) ->
      demangled f = demangle (rawname f) /\ leafname f = last (fpath f) "";
  pi_status :
    forall i f, nth_error (heap a) i = Some f ->
      if Nat.eqb (S i) (List.length (heap a)) then unfinished f else finished f
}.

Lemma empty_parse_inv : parse_inv empty_AsmFile.
Proof.
  split; simpl.
  - reflexivity.
  - constructor.
  - constructor.
  - intros k s [].
  - intros f [].
  - intros [|i] f H; discriminate H.
Qed.

Lemma on_section_parse_inv a name : parse_inv a -> parse_inv (_on_section a name).
Proof.
  intros [H1 H2 H3 H4 H5 H6]. split; simpl; auto.
  - now apply dict_set_keys_NoDup.
  - intros k s Hin. apply dict_set_In in Hin as [Hin|[-> ->]]; auto.
Qed.

Lemma on_function_parse_inv a off name a' :
  parse_inv a -> _on_function demangle a off name = inr a' -> parse_inv a'.
Proof.
  intros [H1 H2 H3 H4 H5 H6]. unfold _on_function. intros H.
  set (heap1 := match cur_function a with
                | Some id => heap_update id finish (heap a)
                | None => heap a
                end) in *.
  assert (Hlen : List.length heap1 = List.length (heap a)).
  { subst heap1. destruct (cur_function a); [apply heap_update_length | reflexivity]. }
  assert (Hall : forall i f, nth_error heap1 i = Some f ->
                   finished f /\ demangled f = demangle (rawname f)
                   /\ leafname f = last (fpath f) "").
  { intros i f Hn. subst heap1. rewrite H1 in Hn.
    destruct (heap a) as [|f0 h0] eqn:Eh.
    - destruct i; discriminate Hn.
    - rewrite <- Eh in *. rewrite heap_update_nth_eq in Hn.
      specialize (H6 i).
      destruct (nth_error (heap a) i) as [f1|] eqn:E1;
        [|destruct (Nat.eqb i _); discriminate Hn].
      specialize (H6 f1 eq_refl).
      pose proof (H5 f1 (nth_error_In _ _ E1)) as [Hd Hl].
      assert (Hpos : 0 < List.length (heap a)) by (rewrite Eh; simpl; lia).
      destruct (Nat.eqb_spec i (List.length (heap a) - 1)) as [->|Hne].
      + injection Hn as <-. split; [apply finish_finished|].
        split; [exact Hd | exact Hl].
      + injection Hn as <-.
        destruct (Nat.eqb_spec (S i) (List.length (heap a))) as [Hi|_]; [lia|].
        auto. }
  clearbody heap1.
  destruct (scope_insert _ _ _ _) as [e|root']; simpl in H; [discriminate|].
  injection H as <-.
  split; cbn [heap functions sections cur_function rootns].
  - rewrite length_app. cbn [List.length].
    destruct (heap1 ++ _) eqn:E; [destruct heap1; discriminate E|].
    f_equal. lia.
  - now apply dict_set_keys_NoDup.
  - exact H3.
  - exact H4.
  - intros f Hin. apply in_app_or in Hin as [Hin|[<-|[]]].
    + apply In_nth_error in Hin as [i Hi]. now apply (Hall i).
    + split; reflexivity.
  - intros i f Hn. rewrite length_app. cbn [List.length].
    destruct (Nat.lt_ge_cases i (List.length heap1)) as [Hlt|Hge].
    + rewrite nth_error_app1 in Hn by exact Hlt.
      destruct (Nat.eqb_spec (S i) (List.length heap1 + 1)) as [Hi|_]; [lia|].
      now apply (Hall i).
    + rewrite nth_error_app2 in Hn by exact Hge.
      destruct (i - List.length heap1) as [|n] eqn:En; simpl in Hn;
        [|destruct n; discriminate Hn].
      injection Hn as <-.
      destruct (Nat.eqb_spec (S i) (List.length heap1 + 1)) as [_|Hi]; [|lia].
      split; reflexivity.
Qed.

Lemma on_instruction_parse_inv a off hexdump text a' :
  parse_inv a -> _on_instruction demangle a off hexdump text = inr a' -> parse_inv a'.
Proof.
  intros [H1 H2 H3 H4 H5 H6]. unfold _on_instruction. intros H.
  destruct (cur_function a) as [id|] eqn:Ec; [|discriminate].
  destruct (nth_error (heap a) id) as [f0|] eqn:E0; [|discriminate].
  destruct (fixup_disasm demangle text (rawname f0)) as [e|text']; simpl in H;
    [discriminate|].
  injection H as <-.
  assert (Hid : S id = List.length (heap a)).
  { destruct (heap a) as [|x h]; [discriminate H1|].
    injection H1 as H1. cbn [List.length] in *. lia. }
  split; cbn [heap functions sections cur_function rootns set_heap]; auto.
  - rewrite heap_update_length.
    destruct (heap a) as [|x h] eqn:Eh; [discriminate H1|].
    rewrite <- Eh in *.
    destruct (heap_update id _ (heap a)) eqn:E.
    + apply (f_equal (@List.length _)) in E. rewrite heap_update_length, Eh in E.
      discriminate E.
    + rewrite Ec. f_equal. lia.
  - intros f Hin. apply In_nth_error in Hin as [i Hi].
    rewrite heap_update_nth_eq in Hi.
    destruct (nth_error (heap a) i) as [f1|] eqn:E1;
      [|destruct (Nat.eqb i id); discriminate Hi].
    pose proof (H5 f1 (nth_error_In _ _ E1)) as [Hd Hl].
    destruct (Nat.eqb i id); injection Hi as <-; auto.
  - intros i f Hn. rewrite heap_update_length.
    rewrite heap_update_nth_eq in Hn.
    specialize (H6 i).
    destruct (nth_error (heap a) i) as [f1|] eqn:E1;
      [|destruct (Nat.eqb i id); discriminate Hn].
    specialize (H6 f1 eq_refl).
    destruct (Nat.eqb_spec i id) as [->|Hne]; injection Hn as <-.
    + rewrite Hid, Nat.eqb_refl in *. exact H6.
    + exact H6.
Qed.

Lemma on_line_parse_inv a line a' :
  parse_inv a -> on_line demangle a line = inr a' -> parse_inv a'.
Proof.
  unfold on_line. intros Hinv H.
  destruct (String.eqb line blank_line); [injection H as <-; exact Hinv|].
  destruct (rmatch re_file_format line).
  { injection H as <-. destruct Hinv. split; assumption. }
  destruct (rmatch re_section line);
    [injection H as <-; now apply on_section_parse_inv|].
  destruct (rmatch re_function line); [eapply on_function_parse_inv; eauto|].
  destruct (match_in_function a re_instr line);
    [eapply on_instruction_parse_inv; eauto|].
  destruct (match_in_function a re_instr_data line);
    [eapply on_instruction_parse_inv; eauto|].
  discriminate.
Qed.

Lemma on_lines_parse_inv f a a' :
  parse_inv a -> on_lines demangle a f = inr a' -> parse_inv a'.
Proof.
  revert a; induction f as [|line f IH]; intros a Hinv H; simpl in H.
  - injection H as <-. exact Hinv.
  - destruct (on_line demangle a line) as [e|a1] eqn:E; simpl in H; [discriminate|].
    eapply IH; [|exact H]. eapply on_line_parse_inv; eauto.
Qed.

Lemma ObjDump_parse_inv f a : ObjDump demangle f = inr a -> parse_inv a.
Proof. apply on_lines_parse_inv, empty_parse_inv. Qed.

(** X10.  The parser never finishes the last function of its input: in
    every parsed model the function created last still has an empty
    padding and size 0, whatever its instructions, while every function
    before it has been finished (its size is the byte count of its
    instructions, and its padding holds at most one instruction, a
    [nop]). *)
Theorem last_function_unfinished (lines : list string) (a : AsmFile) :
  ObjDump demangle lines = inr a ->
  forall i f, nth_error (heap a) i = Some f ->
    (S i = List.length (heap a) ->
       cur_function a = Some i /\ padding f = [] /\ size f = 0%Z)
    /\ (S i < List.length (heap a) ->
          size f = sum_Z (map (fun instr => Z.of_nat (List.length (bytes_ instr)))
                              (instrs f))
          /\ List.length (padding f) <= 1
          /\ forall instr, In instr (padding f) -> disasm instr = "nop").
Proof.
  intros H i f Hn. destruct (ObjDump_parse_inv _ _ H) as [H1 _ _ _ _ H6].
  specialize (H6 i f Hn). split; intros Hi.
  - destruct (Nat.eqb_spec (S i) (List.length (heap a))) as [_|]; [|lia].
    split; [|exact H6].
    rewrite H1. destruct (heap a); [discriminate Hi|].
    f_equal. simpl in *. lia.
  - destruct (Nat.eqb_spec (S i) (List.length (heap a))) as [|_]; [lia|].
    exact H6.
Qed.

(** X11.  In every parsed model the raw names recorded in [functions]
    are pairwise different, and each recorded function carries the
    demangler's answer for its raw name as its demangled name and the last
    ['::'] component of that answer as its leaf name. *)
Theorem parsed_function_names (lines : list string) (a : AsmFile) :
  ObjDump demangle lines = inr a ->
  NoDup (map fst (functions_items a))
  /\ forall k f, In (k, f) (functions_items a) ->
       rawname f = k
       /\ demangled f = demangle k
       /\ leafname f = last (split_on "::" (demangle k)) "".
Proof.
  intros H. destruct (ObjDump_parse_inv _ _ H) as [_ H2 _ _ H5 _].
  destruct (ObjDump_wf _ _ _ H) as [Hwf _]. split.
  - unfold functions_items. rewrite resolve_keys; [exact H2|].
    intros k id Hin. destruct (Hwf k id Hin) as (f & Hf & _). eauto.
  - intros k f Hin. apply resolve_In in Hin as (id & Hin & Hn).
    destruct (Hwf k id Hin) as (f' & Hn' & Hr).
    assert (f' = f) by congruence. subst f'.
    destruct (H5 f (nth_error_In _ _ Hn)) as [Hd Hl].
    unfold fpath in Hl. rewrite Hd, Hr in Hl. rewrite Hd, Hr. auto.
Qed.

End ParserState.

Lemma last_function_unfinished_example :
  option_map (fun f => (List.length (instrs f), size f))
    (nth_error (heap Samples.two_old_model) 1) = Some (1, 0%Z)
  /\ cur_function Samples.two_old_model = Some 1.
Proof.
  destruct (last_function_unfinished Samples.cxxfilt Samples.two_old
              Samples.two_old_model eq_refl 1 Samples.two_old_g eq_refl) as [H _].
  destruct (H eq_refl) as (Hc & _ & Hs).
  split; [reflexivity | exact Hc].
Defined.

Lemma parsed_function_names_example :
  NoDup (map fst (functions_items Samples.runs_old_model)).
Proof.
  exact (proj1 (parsed_function_names Samples.cxxfilt Samples.runs_old
                  Samples.runs_old_model eq_refl)).
Defined.

(* ------------------------------------------------------------------ *)
(** ** How the parser fails *)

(** The walk through the scope tree fails exactly when it meets a function
    on its way down. *)
Lemma scope_insert_fails scopes leaf fn node :
  (exists e, scope_insert scopes leaf fn node = inl e)
  <-> exists q r id, scopes = q ++ r /\ scope_lookup q node = Some (FunctionRef id).
Proof.
  revert node; induction scopes as [|sc rest IH]; intros node.
  - destruct node as [nm d|id]; simpl.
    + split; [intros [e H]; discriminate H|].
      intros (q & r & id & Hq & Hl).
      destruct q; [discriminate Hl | discriminate Hq].
    + split; [|eauto]. intros _. exists [], [], id. auto.
  - destruct node as [nm d|id]; simpl.
    + set (child := match dict_get String.eqb sc d with
                    | Some c => c
                    | None => Scope sc []
                    end).
      specialize (IH child). split.
      * intros [e H].
        destruct (scope_insert rest leaf fn child) as [e'|c'] eqn:E; simpl in H;
          [|discriminate].
        destruct (proj1 IH (ex_intro _ e' eq_refl)) as (q & r & id & -> & Hl).
        exists (sc :: q), r, id. split; [reflexivity|]. simpl.
        subst child. destruct (dict_get String.eqb sc d) as [c|]; [exact Hl|].
        destruct q as [|x q]; [discriminate Hl | discriminate Hl].
      * intros (q & r & id & Hq & Hl).
        destruct q as [|x q]; [discriminate Hl|].
        injection Hq as <- ->. simpl in Hl.
        destruct (dict_get String.eqb sc d) as [c|] eqn:Ec; [|discriminate].
        destruct (proj2 IH) as [e He].
        { exists q, r, id. subst child. auto. }
        rewrite He. simpl. eauto.
    + split; [|eauto]. intros _. exists [], (sc :: rest), id. auto.
Qed.

Lemma scope_insert_error scopes leaf fn node e :
  scope_insert scopes leaf fn node = inl e -> exists msg, e = TypeError msg.
Proof.
  revert node; induction scopes as [|sc rest IH]; intros node;
    destruct node as [nm d|id]; simpl.
  - discriminate.
  - intros [= <-]. eauto.
  - destruct (scope_insert rest leaf fn _) as [e'|c'] eqn:E; simpl;
      [|discriminate].
    intros [= <-]. eapply IH. exact E.
  - intros [= <-]. eauto.
Qed.

Section ParserFailures.

Variable demangle : string -> string.

(** X12.  [_on_function] fails exactly when a proper prefix of the
    components of the new function's demangled name leads, from the root
    scope, to a function; the exception is then a [TypeError]. *)
Theorem on_function_fails (a : AsmFile) (off : Z) (name : string) :
  ((exists e, _on_function demangle a off name = inl e)
   <-> exists q r id,
         removelast (split_on "::" (demangle name)) = q ++ r
         /\ scope_lookup q (rootns a) = Some (FunctionRef id))
  /\ forall e, _on_function demangle a off name = inl e -> exists msg, e = TypeError msg.
Proof.
  unfold _on_function. split.
  - rewrite <- scope_insert_fails. split.
    + intros [e H].
      destruct (scope_insert _ _ _ (rootns a)) as [e'|r'] eqn:E; simpl in H;
        [eauto | discriminate].
    + intros [e H]. rewrite H. simpl. eauto.
  - intros e H.
    destruct (scope_insert _ _ _ (rootns a)) as [e'|r'] eqn:E; simpl in H;
      [|discriminate].
    injection H as <-. eapply scope_insert_error. exact E.
Qed.

Lemma on_instruction_returns a off hexdump text :
  parse_inv demangle a -> cur_function a <> None ->
  exists a', _on_instruction demangle a off hexdump text = inr a'.
Proof.
  intros [H1 _ _ _ _ _] Hc. unfold _on_instruction.
  destruct (cur_function a) as [id|]; [|congruence].
  destruct (heap a) as [|x h] eqn:Eh; [discriminate H1|].
  injection H1 as H1.
  destruct (nth_error (x :: h) id) as [f|] eqn:E.
  - destruct (fixup_disasm_returns demangle text (rawname f)) as [t ->].
    simpl. eauto.
  - apply nth_error_None in E. cbn [List.length] in *. lia.
Qed.

Lemma on_line_error a line e :
  parse_inv demangle a -> on_line demangle a line = inl e ->
  e = ValueError "Unhandled line: %r" line \/ exists msg, e = TypeError msg.
Proof.
  unfold on_line. intros Hinv H.
  destruct (String.eqb line blank_line); [discriminate|].
  destruct (rmatch re_file_format line); [discriminate|].
  destruct (rmatch re_section line); [discriminate|].
  destruct (rmatch re_function line) as [m|].
  { right. unfold _on_function in H.
    destruct (scope_insert _ _ _ (rootns a)) as [e'|r'] eqn:E; simpl in H;
      [|discriminate].
    injection H as <-. eapply scope_insert_error. exact E. }
  unfold match_in_function in H.
  destruct (cur_function a) as [id|] eqn:Ec.
  - destruct (rmatch re_instr line) as [m|].
    { destruct (on_instruction_returns a (from_hex (group m 1))
                  (map from_hex (split_ws (group m 2))) (group m 3) Hinv) as [a' Ha'];
        [congruence | congruence]. }
    destruct (rmatch re_instr_data line) as [m|].
    { destruct (on_instruction_returns a (from_hex (group m 1))
                  (map from_hex (split_ws (group m 2))) "" Hinv) as [a' Ha'];
        [congruence | congruence]. }
    injection H as <-. now left.
  - injection H as <-. now left.
Qed.

(** X13.  The parser fails in two ways only: with the [ValueError] that
    carries a line of the input, or with a [TypeError]; in particular
    reading [rawname] of the current function in [_on_instruction] never
    raises [AttributeError]. *)
Theorem ObjDump_failures (lines : list string) (e : PyError) :
  ObjDump demangle lines = inl e ->
  (exists pre line post,
      lines = pre ++ line :: post /\ e = ValueError "Unhandled line: %r" line)
  \/ exists msg, e = TypeError msg.
Proof.
  unfold ObjDump. generalize (empty_parse_inv demangle).
  generalize empty_AsmFile as a.
  induction lines as [|line lines IH]; intros a Hinv H; simpl in H; [discriminate|].
  destruct (on_line demangle a line) as [e'|a'] eqn:E; simpl in H.
  - injection H as <-.
    destruct (on_line_error _ _ _ Hinv E) as [->|Ht]; [|now right].
    left. exists [], line, lines. auto.
  - destruct (IH a' (on_line_parse_inv _ _ _ _ Hinv E) H)
      as [(pre & l & post & -> & ->)|Ht]; [|now right].
    left. exists (line :: pre), l, post. auto.
Qed.

End ParserFailures.

Lemma on_function_fails_example :
  exists e,
    _on_function Samples.cxxfilt (Samples.model_of [ln "0000000000000000 <f>:"])
                 16 "f::g" = inl e.
Proof.
  apply (proj2 (proj1 (on_function_fails Samples.cxxfilt
                         (Samples.model_of [ln "0000000000000000 <f>:"]) 16 "f::g"))).
  exists ["f"], [], 0. split; reflexivity.
Defined.

Lemma ObjDump_failures_example :
  (exists pre line post,
      [ln "0000000000000000 <f>:"; "garbage"] = pre ++ line :: post
      /\ ValueError "Unhandled line: %r" "garbage"
         = ValueError "Unhandled line: %r" line)
  \/ exists msg, ValueError "Unhandled line: %r" "garbage" = TypeError msg.
Proof.
  exact (ObjDump_failures Samples.cxxfilt
           [ln "0000000000000000 <f>:"; "garbage"]
           (ValueError "Unhandled line: %r" "garbage") eq_refl).
Defined.

(* ------------------------------------------------------------------ *)
(** ** The line shapes of the parser *)

Section StuckFacts.

Context {R : Type}.

(** [stuck p k s]: the continuation [k] fails at [s] and at every suffix
    of [s] that a run of class-[p] characters leads to. *)
Fixpoint stuck (p : ascii -> bool) (k : string -> nat -> option R) (s : string)
  : Prop :=
  (forall pos, k s pos = None) /\
  match s with
  | String c s' => p c = true -> stuck p k s'
  | EmptyString => True
  end.

Lemma star_stuck p (k : string -> nat -> option R) s pos :
  stuck p k s -> star p s pos k = None.
Proof.
  revert pos; induction s as [|c s IH]; intros pos [Hk Hs]; simpl.
  - apply Hk.
  - destruct (p c); [|apply Hk]. rewrite (IH _ (Hs eq_refl)). apply Hk.
Qed.

Lemma run_Eol_hit s pos g (k : string -> nat -> groups -> option R) :
  at_eol s = true -> run Eol s pos g k = k s pos g.
Proof. intros H. simpl. now rewrite H. Qed.

(** A pattern that cannot start at the characters of [a] nor at [c],
    where [c] ends the run of class-[p] characters. *)
Lemma stuck_first_append r (G : nat -> groups)
    (k : string -> nat -> groups -> option R) p a c b :
  all_chars (fun d => negb (first_ok r d)) a = true ->
  first_ok r c = false -> p c = false ->
  stuck p (fun s pos => run r s pos (G pos) k) (a ++ String c b).
Proof.
  intros Ha Hc Hp. induction a as [|d a IH]; simpl in *.
  - split; [intros pos; now apply run_first | congruence].
  - apply andb_true_iff in Ha as [Hd Ha]. apply negb_true_iff in Hd.
    split; [intros pos; now apply run_first | intros _; now apply IH].
Qed.

(** [x] followed by at least one class-[q] character: the pattern fails
    all along a text [a] without class-[q] characters, up to a character
    [c] outside the class. *)
Lemma never_chr_plus_append x q r (G : nat -> groups)
    (k : string -> nat -> groups -> option R) a c b :
  all_chars (fun d => negb (q d)) a = true ->
  q c = false ->
  never (fun s pos => run (Seq (Chr x) (Seq (Plus q) r)) s pos (G pos) k) (String c b) ->
  never (fun s pos => run (Seq (Chr x) (Seq (Plus q) r)) s pos (G pos) k)
        (a ++ String c b).
Proof.
  intros Ha Hc Hb. induction a as [|d a IH]; [exact Hb|].
  cbn [all_chars] in Ha. apply andb_true_iff in Ha as [Hd Ha].
  apply negb_true_iff in Hd.
  cbn [append]. apply never_cons; [|now apply IH].
  intros pos. destruct (Ascii.eqb_spec d x) as [->|Hne].
  - rewrite run_Seq, run_Chr_hit. cbv beta. clear IH.
    destruct a as [|e a]; cbn [append]; apply run_first; cbn [first_ok];
      [exact Hc|].
    cbn [all_chars] in Ha. apply andb_true_iff in Ha as [He _].
    now apply negb_true_iff in He.
  - apply run_first. cbn [first_ok]. now apply Ascii.eqb_neq.
Qed.

End StuckFacts.

(** One step of a match along a known text, with the end of line. *)
Ltac line_step :=
  cbn [append Lit];
  first
    [ rewrite run_Seq
    | rewrite run_Group
    | rewrite run_Star
    | rewrite run_Chr_hit
    | rewrite run_Cls_hit by first [ assumption | reflexivity | char_goal ]
    | rewrite run_Plus_hit by first [ assumption | reflexivity | char_goal ]
    | rewrite run_Eol_hit by reflexivity
    | rewrite star_nil
    | rewrite star_miss by first [ reflexivity | apply negb_true_iff; char_goal ] ];
  cbv beta.

Ltac line_fails :=
  cbv beta; cbn [append Lit];
  first
    [ apply run_empty; reflexivity
    | apply run_first; first [ reflexivity | apply negb_true_iff; chars ]
    | line_step; line_fails ].

Ltac line_never :=
  cbn [append Lit];
  first
    [ apply never_first; [ reflexivity | chars ]
    | apply never_nil; intros ?; line_fails
    | apply never_cons; [ intros ?; line_fails | line_never ]
    | apply never_first_append; [ chars | line_never ] ].

Lemma hex_not_newline c : is_hex c = true -> c <> newline.
Proof. intros H ->. discriminate H. Qed.

Lemma not_blank_cons c s : c <> newline -> String.eqb (String c s) blank_line = false.
Proof.
  intros H. apply String.eqb_neq. intros [= E _]. contradiction.
Qed.

Section LineShapes.

Variable demangle : string -> string.

(** The name on a section marker or a function header: not empty, no
    white space. *)
Variables (n0 : ascii) (name : string).
Hypothesis Hn0 : not_space n0 = true.
Hypothesis Hname : all_chars not_space name = true.

Lemma section_line_not_file_format :
  rmatch re_file_format ("Disassembly of section " ++ String n0 name ++ ":" ++ blank_line)
  = None.
Proof.
  unfold rmatch, re_file_format, blank_line.
  do 3 line_step. apply star_never.
  do 22 (apply never_cons; [intros ?; line_fails|]).
  change (String n0 (name ++ String ":" (String newline "")))
    with (String n0 name ++ String ":" (String newline ""))%string.
  apply never_chr_plus_append; [chars | reflexivity |].
  line_never.
Qed.

Lemma section_line_run {A : Type} (K : string -> nat -> groups -> option A) res :
  K blank_line (25 + String.length name)
    [(1, (23, 24 + String.length name))] = Some res ->
  run re_section ("Disassembly of section " ++ String n0 name ++ ":" ++ blank_line)
      0 [] K = Some res.
Proof.
  intros HK. unfold re_section, blank_line in *.
  repeat line_step. apply star_append; [chars|].
  rewrite star_stop by line_never.
  repeat line_step.
  rewrite <- HK. spans_eq.
Qed.

(** X14.  A section marker [Disassembly of section <name>:], with a name
    that is not empty and has no white space, is taken as such in every
    state: it makes [<name>] the current section and records it. *)
Theorem on_line_section (a : AsmFile) :
  on_line demangle a ("Disassembly of section " ++ String n0 name ++ ":" ++ blank_line)
  = inr (_on_section a (String n0 name)).
Proof.
  unfold on_line.
  assert (Hb : String.eqb ("Disassembly of section " ++ String n0 name ++ ":"
                             ++ blank_line) blank_line = false) by reflexivity.
  rewrite Hb, section_line_not_file_format.
  unfold rmatch. erewrite section_line_run by reflexivity.
  unfold group, mstart, mend. cbn [spans subject span Nat.eqb fst snd].
  rewrite (slice_eq _ "Disassembly of section " (String n0 name) (":" ++ blank_line))
    by first [ reflexivity | lengths ].
  reflexivity.
Qed.

(** The offset on a function header. *)
Variables (h0 : ascii) (h : string).
Hypothesis Hh0 : is_hex h0 = true.
Hypothesis Hh : all_chars is_hex h = true.

Lemma header_line_not_file_format :
  rmatch re_file_format (String h0 h ++ " <" ++ String n0 name ++ ">:" ++ blank_line)
  = None.
Proof.
  unfold rmatch, re_file_format, blank_line.
  do 3 line_step. apply star_never.
  apply never_first_append; [chars|].
  do 2 (apply never_cons; [intros ?; line_fails|]).
  change (String n0 (name ++ String ">" (String ":" (String newline ""))))
    with (String n0 name ++ String ">" (String ":" (String newline "")))%string.
  apply never_chr_plus_append; [chars | reflexivity |].
  line_never.
Qed.

Lemma header_line_run {A : Type} (K : string -> nat -> groups -> option A) res :
  K blank_line (6 + String.length h + String.length name)
    [(2, (3 + String.length h, 4 + String.length h + String.length name));
     (1, (0, 1 + String.length h))] = Some res ->
  run re_function (String h0 h ++ " <" ++ String n0 name ++ ">:" ++ blank_line)
      0 [] K = Some res.
Proof.
  intros HK. unfold re_function, blank_line in *.
  repeat line_step. apply star_append; [exact Hh|].
  repeat line_step. apply star_append; [chars|].
  rewrite star_stop by line_never.
  repeat line_step.
  rewrite <- HK. spans_eq.
Qed.

(** X15.  A function header [<hex> <<name>>:], with lower-case
    hexadecimal digits and a name that is not empty and has no white
    space, is taken as such in every state: the parser calls
    [_on_function] with the value of the digits and the name. *)
Theorem on_line_function_header (a : AsmFile) :
  on_line demangle a (String h0 h ++ " <" ++ String n0 name ++ ">:" ++ blank_line)
  = _on_function demangle a (from_hex (String h0 h)) (String n0 name).
Proof.
  unfold on_line.
  assert (Hb : String.eqb (String h0 h ++ " <" ++ String n0 name ++ ">:"
                             ++ blank_line) blank_line = false).
  { apply not_blank_cons. now apply hex_not_newline. }
  rewrite Hb, header_line_not_file_format.
  assert (Hsec : rmatch re_section
                   (String h0 h ++ " <" ++ String n0 name ++ ">:" ++ blank_line) = None).
  { unfold rmatch, re_section. line_fails. }
  rewrite Hsec.
  unfold rmatch. erewrite header_line_run by reflexivity.
  unfold group, mstart, mend. cbn [spans subject span Nat.eqb fst snd].
  rewrite (slice_eq _ "" (String h0 h) (" <" ++ String n0 name ++ ">:" ++ blank_line))
    by first [ reflexivity | lengths ].
  rewrite (slice_eq _ (String h0 h ++ " <") (String n0 name) (">:" ++ blank_line))
    by first [ same_text | lengths ].
  reflexivity.
Qed.

End LineShapes.

Lemma on_line_section_example :
  on_line Samples.cxxfilt empty_AsmFile (ln "Disassembly of section .text:")
  = inr (_on_section empty_AsmFile ".text").
Proof.
  exact (on_line_section Samples.cxxfilt "." "text" eq_refl eq_refl empty_AsmFile).
Defined.

Lemma on_line_function_header_example :
  on_line Samples.cxxfilt empty_AsmFile (ln "0000000000000010 <main>:")
  = _on_function Samples.cxxfilt empty_AsmFile 16 "main".
Proof.
  exact (on_line_function_header Samples.cxxfilt "m" "ain" eq_refl eq_refl
           "0" "000000000000010" eq_refl eq_refl empty_AsmFile).
Defined.

(* ------------------------------------------------------------------ *)
(** ** Instruction lines *)

(** The blank that objdump puts before an offset. *)
Definition is_blank (c : ascii) : bool := Ascii.eqb c " ".

(** A [':'] followed by white space. *)
Fixpoint colon_space (s : string) : bool :=
  match s with
  | String c s' =>
      (Ascii.eqb c ":"
       && match s' with String d _ => is_space d | EmptyString => false end)
      || colon_space s'
  | EmptyString => false
  end.

(** An instruction line without disassembly: offset and bytes only. *)
Definition data_ln (off hexbytes : string) : string :=
  off ++ ":" ++ String tab hexbytes ++ blank_line.

Section ColonFacts.

Context {R : Type}.

Lemma run_Plus_never p s pos g (k : string -> nat -> groups -> option R) :
  never (fun s' pos' => k s' pos' g) s -> run (Plus p) s pos g k = None.
Proof.
  destruct s as [|d s']; [reflexivity|]. intros [_ H]. simpl.
  destruct (p d); [|reflexivity]. now apply star_never.
Qed.

(** [:\s+...] fails all along a text where no [':'] is followed by white
    space, up to the end of the line. *)
Lemma never_colon_space r (G : nat -> groups)
    (k : string -> nat -> groups -> option R) t :
  can_empty r = false ->
  colon_space t = false ->
  never (fun s pos => run (Seq (Chr ":") (Seq (Plus is_space) r)) s pos (G pos) k)
        (t ++ String newline "").
Proof.
  intros Hr. induction t as [|c t IH]; intros Ht.
  - cbn [append]. apply never_cons.
    + intros pos. apply run_first. reflexivity.
    + apply never_nil. intros pos. apply run_empty. reflexivity.
  - cbn [colon_space] in Ht. apply orb_false_iff in Ht as [Hc Ht].
    cbn [append]. apply never_cons; [|now apply IH].
    intros pos. destruct (Ascii.eqb_spec c ":") as [->|Hne].
    + rewrite run_Seq, run_Chr_hit. cbv beta.
      destruct t as [|d t]; cbn [append].
      * rewrite run_Seq, run_Plus_hit by reflexivity. cbv beta.
        rewrite star_nil. now apply run_empty.
      * apply run_first. cbn [first_ok]. exact Hc.
    + apply run_first. cbn [first_ok]. now apply Ascii.eqb_neq.
Qed.

(** A pattern that cannot start at the characters of [a] is stuck on
    [a ++ b] when it is on [b]. *)
Lemma stuck_append_first r (G : nat -> groups)
    (k : string -> nat -> groups -> option R) p a b :
  all_chars (fun d => negb (first_ok r d)) a = true ->
  stuck p (fun s pos => run r s pos (G pos) k) b ->
  stuck p (fun s pos => run r s pos (G pos) k) (a ++ b).
Proof.
  intros Ha Hb. induction a as [|d a IH]; [exact Hb|].
  cbn [all_chars] in Ha. apply andb_true_iff in Ha as [Hd Ha].
  apply negb_true_iff in Hd. cbn [append].
  split; [intros pos; now apply run_first | intros _; now apply IH].
Qed.

Lemma stuck_miss p (k : string -> nat -> option R) c s :
  p c = false -> (forall pos, k (String c s) pos = None) -> stuck p k (String c s).
Proof. intros Hc Hk. split; [exact Hk | congruence]. Qed.

End ColonFacts.

Lemma run_eq {A : Type} r s p p' g g' (K : string -> nat -> groups -> option A) :
  p = p' -> g = g' -> run r s p g K = run r s p' g' K.
Proof. now intros -> ->. Qed.

Section OffsetAndBytes.

(** The offset, after blanks, and the bytes of an instruction line. *)
Variables (lead : string) (h0 : ascii) (h : string) (b0 : ascii) (bytes : string).
Hypothesis Hlead : all_chars is_blank lead = true.
Hypothesis Hh0 : is_hex h0 = true.
Hypothesis Hh : all_chars is_hex h = true.
Hypothesis Hb0 : is_hex b0 = true.
Hypothesis Hbytes : all_chars is_hex_or_space bytes = true.

(** What follows the bytes: a tab or the end of the line. *)
Variables (e : ascii) (rest : string).
Hypothesis He : is_space e = true.
Hypothesis He' : is_hex_or_space e = false.

Local Abbreviation line :=
  (lead ++ String h0 (h ++ String ":" (String tab (String b0 (bytes ++ String e rest)))))%string.

Lemma instr_not_file_format :
  (forall (G : nat -> groups) (k : string -> nat -> groups -> option Match),
     never (fun s pos =>
              run (Seq (Chr ":") (Seq (Plus is_space)
                     (Lit "file format " (Seq (Group 2 (Plus is_dot)) Eol))))
                  s pos (G pos) k) (String e rest)) ->
  rmatch re_file_format line = None.
Proof.
  intros Htail. unfold rmatch, re_file_format.
  rewrite run_Seq, run_Group. apply run_Plus_never. cbv beta.
  apply never_first_append; [chars|].
  apply never_cons; [intros ?; line_fails|].
  apply never_first_append; [chars|].
  apply never_cons.
  { intros pos. rewrite run_Seq, run_Chr_hit. cbv beta.
    rewrite run_Seq, run_Plus_hit by reflexivity. cbv beta.
    rewrite star_miss by (apply negb_true_iff; char_goal).
    cbn [Lit]. rewrite run_Seq.
    destruct (Ascii.eqb_spec b0 "f") as [->|Hne].
    - rewrite run_Chr_hit. cbv beta.
      destruct bytes as [|b1 bs]; cbn [append]; apply run_first; cbn [first_ok].
      + apply negb_true_iff. char_goal.
      + cbn [all_chars] in Hbytes. apply andb_true_iff in Hbytes as [Hb1 _].
        apply negb_true_iff. char_goal.
    - apply run_first. cbn [first_ok]. now apply Ascii.eqb_neq. }
  apply never_cons; [intros ?; line_fails|].
  apply never_cons; [intros ?; line_fails|].
  apply never_first_append; [chars|].
  apply Htail.
Qed.

Lemma instr_not_section : rmatch re_section line = None.
Proof.
  unfold rmatch, re_section.
  destruct lead as [|c l]; cbn [append Lit]; apply run_first; cbn [first_ok];
    apply negb_true_iff.
  - char_goal.
  - cbn [all_chars] in Hlead. apply andb_true_iff in Hlead as [Hc _]. char_goal.
Qed.

Lemma instr_not_function : rmatch re_function line = None.
Proof.
  unfold rmatch, re_function.
  destruct lead as [|c l]; cbn [append].
  - rewrite run_Seq, run_Group, run_Plus_hit by assumption. cbv beta.
    apply star_stuck. cbn [Lit].
    apply stuck_first_append; [chars | reflexivity | reflexivity].
  - apply run_first; cbn [first_ok]; apply negb_true_iff.
    cbn [all_chars] in Hlead. apply andb_true_iff in Hlead as [Hc _]. char_goal.
Qed.

Lemma instr_not_blank : String.eqb line blank_line = false.
Proof.
  apply String.eqb_neq. destruct lead as [|c l]; cbn [append]; intros [= E _].
  - now apply (hex_not_newline h0).
  - cbn [all_chars] in Hlead. apply andb_true_iff in Hlead as [Hc _].
    subst c. discriminate Hc.
Qed.

(** The common start of the two instruction patterns,
    [\s*([0-9a-f]+):\t([0-9a-f ]+)], runs up to the end of the bytes. *)
Lemma instr_prefix_run {A : Type} (r : regex)
    (K : string -> nat -> groups -> option A) res :
  run r (String e rest)
      (4 + String.length lead + String.length h + String.length bytes)
      [(2, (3 + String.length lead + String.length h,
            4 + String.length lead + String.length h + String.length bytes));
       (1, (String.length lead, 1 + String.length lead + String.length h))] K
  = Some res ->
  run (Seq (Star is_space) (Seq (Group 1 (Plus is_hex)) (Seq (Chr ":")
         (Seq (Chr tab) (Seq (Group 2 (Plus is_hex_or_space)) r))))) line 0 [] K
  = Some res.
Proof.
  intros HK. rewrite run_Seq, run_Star. apply star_append; [chars|].
  rewrite star_miss by (apply negb_true_iff; char_goal). cbv beta.
  rewrite run_Seq, run_Group, run_Plus_hit by assumption. cbv beta.
  apply star_append; [exact Hh|].
  rewrite star_miss by reflexivity.
  rewrite run_Seq, run_Chr_hit. cbv beta. rewrite run_Seq, run_Chr_hit. cbv beta.
  rewrite run_Seq, run_Group, run_Plus_hit by char_goal. cbv beta.
  apply star_append; [exact Hbytes|].
  rewrite star_miss by exact He'.
  rewrite <- HK. apply run_eq; spans_eq.
Qed.

(** It cannot be followed by a pattern that fails after the bytes and
    cannot start inside them. *)
Lemma instr_prefix_fails {A : Type} (r : regex)
    (K : string -> nat -> groups -> option A) :
  (forall c, is_hex_or_space c = true -> first_ok r c = false) ->
  (forall pos g, run r (String e rest) pos g K = None) ->
  run (Seq (Star is_space) (Seq (Group 1 (Plus is_hex)) (Seq (Chr ":")
         (Seq (Chr tab) (Seq (Group 2 (Plus is_hex_or_space)) r))))) line 0 [] K
  = None.
Proof.
  intros Hr HK. rewrite run_Seq, run_Star. apply star_stuck.
  apply (stuck_append_first _ (fun _ => [])); [chars|].
  apply stuck_miss; [apply negb_true_iff; char_goal|]. intros pos.
  rewrite run_Seq, run_Group, run_Plus_hit by assumption. cbv beta.
  apply star_stuck. apply stuck_append_first; [chars|].
  apply stuck_miss; [reflexivity|]. intros pos1.
  rewrite run_Seq, run_Chr_hit. cbv beta. rewrite run_Seq, run_Chr_hit. cbv beta.
  rewrite run_Seq, run_Group, run_Plus_hit by char_goal. cbv beta.
  apply star_stuck.
  apply stuck_append_first.
  - refine (all_chars_weaken _ _ _ _ Hbytes). intros c Hc.
    now rewrite (Hr c Hc).
  - apply stuck_miss; [exact He'|]. intros pos2. apply HK.
Qed.

End OffsetAndBytes.

Section InstructionLines.

Variable demangle : string -> string.

Variables (lead : string) (h0 : ascii) (h : string) (b0 : ascii) (bytes : string).
Hypothesis Hlead : all_chars is_blank lead = true.
Hypothesis Hh0 : is_hex h0 = true.
Hypothesis Hh : all_chars is_hex h = true.
Hypothesis Hb0 : is_hex b0 = true.
Hypothesis Hbytes : all_chars is_hex_or_space bytes = true.

(** The disassembly: not empty, on one line, and without a [':'] before
    white space. *)
Variables (t0 : ascii) (text : string).
Hypothesis Ht0 : is_dot t0 = true.
Hypothesis Htext : all_chars is_dot text = true.
Hypothesis Hcolon : colon_space (String t0 text) = false.

Local Abbreviation instr_line :=
  (lead ++ String h0 (h ++ String ":" (String tab (String b0
     (bytes ++ String tab (String t0 (text ++ String newline "")))))))%string.

Local Abbreviation data_line :=
  (lead ++ String h0 (h ++ String ":" (String tab (String b0
     (bytes ++ String newline "")))))%string.

Lemma instr_ln_eq :
  instr_ln (lead ++ String h0 h) (String b0 bytes) (String t0 text) = instr_line.
Proof. unfold instr_ln, blank_line. rewrite append_assoc. reflexivity. Qed.

Lemma data_ln_eq : data_ln (lead ++ String h0 h) (String b0 bytes) = data_line.
Proof. unfold data_ln, blank_line. rewrite append_assoc. reflexivity. Qed.

Lemma instr_line_no_header :
  String.eqb instr_line blank_line = false
  /\ rmatch re_file_format instr_line = None
  /\ rmatch re_section instr_line = None
  /\ rmatch re_function instr_line = None.
Proof.
  split; [now apply instr_not_blank|].
  split; [|split; [now apply instr_not_section | now apply instr_not_function]].
  apply instr_not_file_format; try assumption; try reflexivity.
  intros G k. apply never_cons; [intros ?; line_fails|].
  change (String t0 (text ++ String newline ""))
    with (String t0 text ++ String newline "")%string.
  now apply never_colon_space.
Qed.

Lemma data_line_no_header :
  String.eqb data_line blank_line = false
  /\ rmatch re_file_format data_line = None
  /\ rmatch re_section data_line = None
  /\ rmatch re_function data_line = None.
Proof.
  split; [now apply instr_not_blank|].
  split; [|split; [now apply instr_not_section | now apply instr_not_function]].
  apply instr_not_file_format; try assumption; try reflexivity.
  intros G k. line_never.
Qed.

Lemma instr_line_match :
  rmatch re_instr instr_line
  = Some {| subject := instr_line;
            spans :=
              [(3, (5 + String.length lead + String.length h + String.length bytes,
                    6 + String.length lead + String.length h + String.length bytes
                      + String.length text));
               (2, (3 + String.length lead + String.length h,
                    4 + String.length lead + String.length h + String.length bytes));
               (1, (String.length lead, 1 + String.length lead + String.length h))] |}.
Proof.
  unfold rmatch, re_instr.
  apply instr_prefix_run; try assumption; try reflexivity.
  rewrite run_Seq, run_Chr_hit. cbv beta.
  rewrite run_Seq, run_Group, run_Plus_hit by assumption. cbv beta.
  apply star_append; [exact Htext|].
  rewrite star_miss by reflexivity.
  rewrite run_Eol_hit by reflexivity.
  do 2 f_equal; spans_eq.
Qed.

Lemma data_line_match :
  rmatch re_instr data_line = None
  /\ rmatch re_instr_data data_line
     = Some {| subject := data_line;
               spans :=
                 [(2, (3 + String.length lead + String.length h,
                       4 + String.length lead + String.length h + String.length bytes));
                  (1, (String.length lead, 1 + String.length lead + String.length h))] |}.
Proof.
  split.
  - unfold rmatch, re_instr.
    apply instr_prefix_fails; try assumption; try reflexivity.
    intros c Hc. cbn [first_ok]. apply negb_true_iff. char_goal.
  - unfold rmatch, re_instr_data.
    apply instr_prefix_run; try assumption; reflexivity.
Qed.

(** X16.  Inside a function, a line [<blanks><hex>:<TAB><bytes><TAB><text>]
    is taken as an instruction: the offset is the value of the digits,
    the bytes are the values of the fields of [<bytes>], and [<text>]
    goes through [fixup_disasm].  Here [<hex>] is made of lower-case
    hexadecimal digits, [<bytes>] of such digits and blanks, starting with
    a digit, and [<text>] is not empty and has no [':'] before white
    space. *)
Theorem on_line_instruction (a : AsmFile) :
  cur_function a <> None ->
  on_line demangle a (instr_ln (lead ++ String h0 h) (String b0 bytes) (String t0 text))
  = _on_instruction demangle a (from_hex (String h0 h))
      (map from_hex (split_ws (String b0 bytes))) (String t0 text).
Proof.
  intros Hc. rewrite instr_ln_eq. unfold on_line.
  destruct instr_line_no_header as (-> & -> & -> & ->).
  unfold match_in_function. destruct (cur_function a) as [id|]; [|congruence].
  rewrite instr_line_match.
  unfold group, mstart, mend. cbn [spans subject span Nat.eqb fst snd].
  rewrite (slice_eq _ lead (String h0 h)
             (String ":" (String tab (String b0 (bytes ++ String tab
                (String t0 (text ++ String newline "")))))))
    by first [ reflexivity | lengths ].
  rewrite (slice_eq _ (lead ++ String h0 h ++ String ":" (String tab ""))
             (String b0 bytes)
             (String tab (String t0 (text ++ String newline ""))))
    by first [ same_text | lengths ].
  rewrite (slice_eq _ (lead ++ String h0 h ++ String ":" (String tab "")
                         ++ String b0 bytes ++ String tab "")
             (String t0 text) (String newline ""))
    by first [ same_text | lengths ].
  reflexivity.
Qed.

(** X17.  Inside a function, a line [<blanks><hex>:<TAB><bytes>] without
    disassembly fails the first instruction pattern and is taken by the
    second: an instruction with the empty text. *)
Theorem on_line_instruction_data (a : AsmFile) :
  cur_function a <> None ->
  on_line demangle a (data_ln (lead ++ String h0 h) (String b0 bytes))
  = _on_instruction demangle a (from_hex (String h0 h))
      (map from_hex (split_ws (String b0 bytes))) "".
Proof.
  intros Hc. rewrite data_ln_eq. unfold on_line.
  destruct data_line_no_header as (-> & -> & -> & ->).
  unfold match_in_function. destruct (cur_function a) as [id|]; [|congruence].
  destruct data_line_match as [-> ->].
  unfold group, mstart, mend. cbn [spans subject span Nat.eqb fst snd].
  rewrite (slice_eq _ lead (String h0 h)
             (String ":" (String tab (String b0 (bytes ++ String newline "")))))
    by first [ reflexivity | lengths ].
  rewrite (slice_eq _ (lead ++ String h0 h ++ String ":" (String tab ""))
             (String b0 bytes) (String newline ""))
    by first [ same_text | lengths ].
  reflexivity.
Qed.

(** X18.  Before the first function header the same lines are not
    instructions: the two instruction patterns are not tried, and the
    parse stops with [ValueError('Unhandled line: ...')]. *)
Theorem instruction_outside_function (a : AsmFile) :
  cur_function a = None ->
  on_line demangle a (instr_ln (lead ++ String h0 h) (String b0 bytes) (String t0 text))
  = inl (ValueError "Unhandled line: %r"
           (instr_ln (lead ++ String h0 h) (String b0 bytes) (String t0 text)))
  /\ on_line demangle a (data_ln (lead ++ String h0 h) (String b0 bytes))
     = inl (ValueError "Unhandled line: %r"
              (data_ln (lead ++ String h0 h) (String b0 bytes))).
Proof.
  intros Hc. rewrite instr_ln_eq, data_ln_eq. unfold on_line, match_in_function.
  destruct instr_line_no_header as (-> & -> & -> & ->).
  destruct data_line_no_header as (-> & -> & -> & ->).
  rewrite Hc. split; reflexivity.
Qed.

End InstructionLines.

Lemma on_line_instruction_example :
  on_line Samples.cxxfilt Samples.padded_model
    (instr_ln "   4" "64 48 8b 04 25 28 00 " "mov    %fs:0x28,%rax")
  = _on_instruction Samples.cxxfilt Samples.padded_model 4
      [100; 72; 139; 4; 37; 40; 0]%Z "mov    %fs:0x28,%rax".
Proof.
  exact (on_line_instruction Samples.cxxfilt "   " "4" "" "6" "4 48 8b 04 25 28 00 "
           eq_refl eq_refl eq_refl eq_refl eq_refl
           "m" "ov    %fs:0x28,%rax" eq_refl eq_refl eq_refl
           Samples.padded_model ltac:(vm_compute; discriminate)).
Defined.

Lemma on_line_instruction_data_example :
  on_line Samples.cxxfilt Samples.padded_model (data_ln "  1c" "00 00 ")
  = _on_instruction Samples.cxxfilt Samples.padded_model 28 [0; 0]%Z "".
Proof.
  exact (on_line_instruction_data Samples.cxxfilt "  " "1" "c" "0" "0 00 "
           eq_refl eq_refl eq_refl eq_refl eq_refl
           Samples.padded_model ltac:(vm_compute; discriminate)).
Defined.

Lemma instruction_outside_function_example :
  on_line Samples.cxxfilt (_on_section empty_AsmFile ".text")
    (instr_ln "   0" "c3                   " "ret")
  = inl (ValueError "Unhandled line: %r" (instr_ln "   0" "c3                   " "ret"))
  /\ on_line Samples.cxxfilt (_on_section empty_AsmFile ".text")
       (data_ln "   0" "c3                   ")
     = inl (ValueError "Unhandled line: %r" (data_ln "   0" "c3                   ")).
Proof.
  exact (instruction_outside_function Samples.cxxfilt "   " "0" "" "c" "3                   "
           eq_refl eq_refl eq_refl eq_refl eq_refl
           "r" "et" eq_refl
           (_on_section empty_AsmFile ".text") eq_refl).
Defined.

(* ------------------------------------------------------------------ *)
(** ** The matchup, declaratively *)

Lemma dict_get_NoDup_In {V : Type} k (v : V) d :
  NoDup (map fst d) -> In (k, v) d -> dict_get String.eqb k d = Some v.
Proof.
  induction d as [|[k0 v0] d IH]; simpl; [intros _ []|].
  intros Hnd [[= -> ->]|Hin].
  - now rewrite String.eqb_refl.
  - inversion Hnd as [|? ? Hnotin Hnd']; subst.
    destruct (String.eqb_spec k0 k) as [->|_].
    + exfalso. apply Hnotin. apply (in_map fst) in Hin. exact Hin.
    + now apply IH.
Qed.

(** The keys of [functions] are the raw names of its values, without
    repeats. *)
Definition named_by_key (a : AsmFile) : Prop :=
  NoDup (map fst (functions_items a))
  /\ forall k f, In (k, f) (functions_items a) -> rawname f = k.

Lemma parsed_named_by_key demangle lines a :
  ObjDump demangle lines = inr a -> named_by_key a.
Proof.
  intros H. destruct (ObjDump_parse_inv demangle _ _ H) as [_ H2 _ _ _ _].
  destruct (ObjDump_wf demangle _ _ H) as [Hwf _]. split.
  - unfold functions_items. rewrite resolve_keys; [exact H2|].
    intros k id Hin. destruct (Hwf k id Hin) as (f & Hf & _). eauto.
  - intros k f Hin. apply resolve_In in Hin as (id & Hin & Hn).
    destruct (Hwf k id Hin) as (f' & Hn' & Hr). congruence.
Qed.

Lemma named_values_NoDup a :
  named_by_key a -> NoDup (map rawname (functions_values a)).
Proof.
  intros [Hnd Hk]. unfold functions_values, dict_values. rewrite map_map.
  replace (map (fun x => rawname (snd x)) (functions_items a))
    with (map fst (functions_items a)); [exact Hnd|].
  apply map_ext_in. intros [k f] Hin. simpl. symmetry. now apply Hk.
Qed.

Lemma named_lookup_self a f :
  named_by_key a -> In f (functions_values a) ->
  dict_get String.eqb (rawname f) (functions_items a) = Some f.
Proof.
  intros [Hnd Hk] Hin. unfold functions_values, dict_values in Hin.
  apply in_map_iff in Hin as ([k f'] & Hf & Hin). simpl in Hf. subst f'.
  rewrite (Hk _ _ Hin). now apply dict_get_NoDup_In.
Qed.

Lemma lookup_unfold newp o :
  _lookup newp o =
  match dict_get String.eqb (lookup_key o) (functions_items (asmfile newp)) with
  | Some f => Some f
  | None => dict_get String.eqb (leafname o) (fn_by_leafnames newp)
  end.
Proof. reflexivity. Qed.

Section Matchup.

Variable newp : FunctionPeer.

(** The old functions with a match, each with its match, and those
    without. *)
Definition matched_pairs (l : list Function) : list (Function * Function) :=
  flat_map (fun o => match _lookup newp o with Some n => [(o, n)] | None => [] end) l.

Definition unmatched (l : list Function) : list Function :=
  filter (fun o => match _lookup newp o with Some _ => false | None => true end) l.

(** Some function of [l] is matched with a function named as [n]. *)
Definition matched_to (n : Function) (l : list Function) : bool :=
  existsb (fun o => match _lookup newp o with
                    | Some n' => Function_eqb n' n
                    | None => false
                    end) l.

Lemma matchup_fold_gone l acc :
  snd (fold_left (matchup_step newp) l acc) = snd acc ++ unmatched l.
Proof.
  revert acc; induction l as [|x l IH]; intros [[o2n n2o] g]; cbn [fold_left].
  - cbn. now rewrite app_nil_r.
  - rewrite IH. unfold matchup_step, unmatched. cbn [filter].
    destruct (_lookup newp x); cbn [snd]; [reflexivity|].
    now rewrite <- app_assoc.
Qed.

Lemma dict_has_set_fn {V : Type} n k (v : V) d :
  dict_has Function_eqb n (dict_set Function_eqb k v d)
  = dict_has Function_eqb n d || Function_eqb k n.
Proof.
  unfold dict_has. induction d as [|[k0 v0] d IH]; cbn [dict_set dict_get].
  - destruct (Function_eqb k n); reflexivity.
  - destruct (Function_eqb k0 k) eqn:E1; cbn [dict_get].
    + destruct (Function_eqb k0 n) eqn:E2; [reflexivity|].
      assert (H : Function_eqb k n = false).
      { unfold Function_eqb in *. apply String.eqb_eq in E1. now rewrite <- E1. }
      rewrite H. now rewrite orb_false_r.
    + destruct (Function_eqb k0 n) eqn:E2; [reflexivity | exact IH].
Qed.

Lemma matchup_fold_has n l acc :
  dict_has Function_eqb n (snd (fst (fold_left (matchup_step newp) l acc)))
  = dict_has Function_eqb n (snd (fst acc)) || matched_to n l.
Proof.
  revert acc; induction l as [|x l IH]; intros [[o2n n2o] g]; cbn [fold_left].
  - cbn. now rewrite orb_false_r.
  - rewrite IH. unfold matchup_step, matched_to. cbn [existsb].
    destruct (_lookup newp x); cbn [fst snd].
    + rewrite dict_has_set_fn. now rewrite orb_assoc.
    + reflexivity.
Qed.

Lemma dict_set_fresh {V : Type} k (v : V) d :
  (forall k0 v0, In (k0, v0) d -> rawname k0 <> rawname k) ->
  dict_set Function_eqb k v d = d ++ [(k, v)].
Proof.
  induction d as [|[k0 v0] d IH]; intros H; cbn [dict_set app]; [reflexivity|].
  assert (E : Function_eqb k0 k = false).
  { apply String.eqb_neq. apply (H k0 v0). now left. }
  rewrite E. f_equal. apply IH. intros k1 v1 Hin. apply (H k1 v1). now right.
Qed.

Lemma matchup_fold_pairs l acc :
  NoDup (map rawname l) ->
  (forall k0 v0 o, In (k0, v0) (fst (fst acc)) -> In o l -> rawname k0 <> rawname o) ->
  fst (fst (fold_left (matchup_step newp) l acc)) = fst (fst acc) ++ matched_pairs l.
Proof.
  revert acc; induction l as [|x l IH]; intros [[o2n n2o] g] Hnd Hfresh;
    cbn [fold_left].
  - cbn. now rewrite app_nil_r.
  - cbn [map] in Hnd. inversion Hnd as [|? ? Hx Hnd']; subst.
    cbn [fst] in Hfresh.
    rewrite IH; [|exact Hnd'|].
    + unfold matchup_step, matched_pairs. cbn [flat_map].
      destruct (_lookup newp x) as [n|]; cbn [fst]; [|reflexivity].
      rewrite dict_set_fresh.
      * now rewrite <- app_assoc.
      * intros k0 v0 Hin. apply (Hfresh k0 v0 x Hin). now left.
    + intros k0 v0 o Hin Ho. unfold matchup_step in Hin.
      destruct (_lookup newp x) as [n|]; cbn [fst] in Hin.
      * rewrite dict_set_fresh in Hin
          by (intros k1 v1 Hin1; apply (Hfresh k1 v1 x Hin1); now left).
        apply in_app_or in Hin as [Hin|[[= <- <-]|[]]].
        -- apply (Hfresh k0 v0 o Hin). now right.
        -- intros E. apply Hx. rewrite E. now apply in_map.
      * apply (Hfresh k0 v0 o Hin). now right.
Qed.

Lemma matched_pairs_all (g : Function -> Function) l :
  (forall o, In o l -> _lookup newp o = Some (g o)) ->
  matched_pairs l = map (fun o => (o, g o)) l /\ unmatched l = [].
Proof.
  induction l as [|x l IH]; intros H; [split; reflexivity|].
  destruct IH as [IH1 IH2]; [intros o Ho; apply H; now right|].
  unfold matched_pairs, unmatched in *. cbn [flat_map filter map].
  rewrite (H x (or_introl eq_refl)). cbn [app]. now rewrite IH1, IH2.
Qed.

Lemma matched_pairs_In o n l :
  In (o, n) (matched_pairs l) <-> In o l /\ _lookup newp o = Some n.
Proof.
  unfold matched_pairs. rewrite in_flat_map. split.
  - intros (x & Hx & Hin). destruct (_lookup newp x) as [n'|] eqn:E; [|destruct Hin].
    destruct Hin as [[= <- <-]|[]]. auto.
  - intros [Ho Hl]. exists o. split; [exact Ho|]. rewrite Hl. now left.
Qed.

End Matchup.

Lemma new_MatchupSet_eq oldp newp :
  gone (new_MatchupSet oldp newp) = unmatched newp (items oldp)
  /\ appeared (new_MatchupSet oldp newp)
     = filter (fun n => negb (matched_to newp n (items oldp))) (items newp)
  /\ (NoDup (map rawname (items oldp)) ->
      old_to_new (new_MatchupSet oldp newp) = matched_pairs newp (items oldp)).
Proof.
  unfold new_MatchupSet.
  pose proof (matchup_fold_gone newp (items oldp) ([], [], [])) as Hg.
  pose proof (fun n => matchup_fold_has newp n (items oldp) ([], [], [])) as Hh.
  pose proof (matchup_fold_pairs newp (items oldp) ([], [], [])) as Hp.
  destruct (fold_left (matchup_step newp) (items oldp) ([], [], []))
    as [[o2n n2o] g]. cbn [fst snd gone appeared old_to_new app] in *.
  split; [exact Hg|]. split.
  - apply filter_ext. intros n. now rewrite Hh.
  - intros Hnd. apply Hp; [exact Hnd|]. intros k0 v0 o [].
Qed.

Lemma filter_nil {A : Type} (f : A -> bool) l :
  (forall x, In x l -> f x = false) -> filter f l = [].
Proof.
  induction l as [|x l IH]; intros H; [reflexivity|]. cbn [filter].
  rewrite (H x (or_introl eq_refl)). apply IH. intros y Hy. apply H. now right.
Qed.

(** The values of the index by leaf name are recorded functions. *)
Lemma fn_by_leafnames_In a k f :
  In (k, f) (fn_by_leafnames (new_FunctionPeer a)) -> In f (functions_values a).
Proof.
  unfold new_FunctionPeer. cbn [fn_by_leafnames].
  assert (H : forall l idx,
             In (k, f) (fold_left (fun idx function =>
                                     dict_set String.eqb (leafname function) function idx)
                                  l idx) ->
             In (k, f) idx \/ In f l).
  { induction l as [|x l IH]; intros idx Hin; cbn [fold_left] in Hin; [now left|].
    destruct (IH _ Hin) as [Hs|Hl]; [|right; now right].
    apply dict_set_In_gen in Hs as [Hs|[-> _]]; [now left | right; now left]. }
  intros Hin. destruct (H _ _ Hin) as [[]|Hf]. exact Hf.
Qed.

Lemma lookup_In a o n :
  _lookup (new_FunctionPeer a) o = Some n -> In n (functions_values a).
Proof.
  rewrite lookup_unfold. cbn [asmfile new_FunctionPeer].
  destruct (dict_get String.eqb (lookup_key o) (functions_items a)) as [f|] eqn:E.
  - intros [= <-]. apply dict_get_In in E.
    unfold functions_values, dict_values. apply (in_map snd) in E. exact E.
  - intros H. apply dict_get_In in H. eapply fn_by_leafnames_In. exact H.
Qed.

(** X19.  The matchup of a parsed model with any model, without the
    dictionaries: [gone] lists, in order, the old functions for which
    [_lookup] finds nothing; [old_to_new] pairs, in order and once each,
    every other old function with what [_lookup] finds for it, which is a
    recorded function of the new model; [appeared] lists, in order, the
    new functions whose raw name is not that of a function found for some
    old function. *)
Theorem matchup_partition (demangle : string -> string) (old_lines : list string)
    (old_file new_file : AsmFile) :
  ObjDump demangle old_lines = inr old_file ->
  let peers := FunctionMatchupSet old_file new_file in
  let newp := new_FunctionPeer new_file in
  gone peers = unmatched newp (functions_values old_file)
  /\ old_to_new peers = matched_pairs newp (functions_values old_file)
  /\ (forall o n, In (o, n) (old_to_new peers) ->
        In o (functions_values old_file) /\ In n (functions_values new_file))
  /\ appeared peers
     = filter (fun n => negb (matched_to newp n (functions_values old_file)))
              (functions_values new_file).
Proof.
  intros Hold peers newp. subst peers newp. unfold FunctionMatchupSet.
  destruct (new_MatchupSet_eq (new_FunctionPeer old_file) (new_FunctionPeer new_file))
    as (Hg & Ha & Hp).
  specialize (Hp (named_values_NoDup _ (parsed_named_by_key _ _ _ Hold))).
  split; [exact Hg|]. split; [exact Hp|]. split; [|exact Ha].
  intros o n Hin. rewrite Hp in Hin.
  apply matched_pairs_In in Hin as [Ho Hl]. split; [exact Ho|].
  now apply lookup_In in Hl.
Qed.

Lemma matchup_partition_example :
  old_to_new (FunctionMatchupSet Samples.runs_old_model Samples.runs_new_model)
  = matched_pairs (new_FunctionPeer Samples.runs_new_model)
                  (functions_values Samples.runs_old_model).
Proof.
  exact (proj1 (proj2 (matchup_partition Samples.cxxfilt Samples.runs_old
                         Samples.runs_old_model Samples.runs_new_model eq_refl))).
Defined.

(* ------------------------------------------------------------------ *)
(** ** When the matchup is injective *)

Module MoreSamples.

(** Old object: [f] on [gimple_statement_d] and its twin on
    [gimple_statement_base]; new object: the twin only. *)
Definition gimple_old : list string :=
  [ ln "Disassembly of section .text:";
    ln "0000000000000000 <_Z1fP18gimple_statement_d>:";
    instr_ln "   0" "c3                   " "ret";
    ln "0000000000000010 <_Z1fP21gimple_statement_base>:";
    instr_ln "  10" "c3                   " "ret" ].

Definition gimple_new : list string :=
  [ ln "Disassembly of section .text:";
    ln "0000000000000000 <_Z1fP21gimple_statement_base>:";
    instr_ln "   0" "c3                   " "ret" ].

(** Old object: [A::run()] and the constructor [C1] of [Foo]; new object:
    [C::run()] and the constructor [C2] of [Foo]. *)
Definition leaf_old : list string :=
  [ ln "Disassembly of section .text:";
    ln "0000000000000000 <_ZN1A3runEv>:";
    instr_ln "   0" "c3                   " "ret";
    ln "0000000000000010 <_ZN3FooC1Ev>:";
    instr_ln "  10" "c3                   " "ret" ].

Definition leaf_new : list string :=
  [ ln "Disassembly of section .text:";
    ln "0000000000000000 <_ZN1C3runEv>:";
    instr_ln "   0" "c3                   " "ret";
    ln "0000000000000010 <_ZN3FooC2Ev>:";
    instr_ln "  10" "c3                   " "ret" ].

Definition leaf_old_model : AsmFile := Eval vm_compute in Samples.model_of leaf_old.
Definition leaf_new_model : AsmFile := Eval vm_compute in Samples.model_of leaf_new.

Definition old_run : Function :=
  mkFunction Samples.text_section 0 "_ZN1A3runEv" "A::run()" "run()"
             [mkInstruction 0 [195%Z] "ret"] [] 1.
Definition old_ctor : Function :=
  mkFunction Samples.text_section 16 "_ZN3FooC1Ev" "Foo::Foo()" "Foo()"
             [mkInstruction 16 [195%Z] "ret"] [] 0.
Definition new_run : Function :=
  mkFunction Samples.text_section 0 "_ZN1C3runEv" "C::run()" "run()"
             [mkInstruction 0 [195%Z] "ret"] [] 1.
Definition new_ctor : Function :=
  mkFunction Samples.text_section 16 "_ZN3FooC2Ev" "Foo::Foo()" "Foo()"
             [mkInstruction 16 [195%Z] "ret"] [] 0.

End MoreSamples.

(** The leaf name of a parsed function is the last component of the
    demangler's answer for its raw name. *)
Lemma parsed_leafname demangle lines a f :
  ObjDump demangle lines = inr a -> In f (functions_values a) ->
  leafname f = last (split_on "::" (demangle (rawname f))) "".
Proof.
  intros H Hin. destruct (ObjDump_parse_inv demangle _ _ H) as [_ _ _ _ H5 _].
  unfold functions_values, dict_values in Hin.
  apply in_map_iff in Hin as ([k f'] & Hf & Hin). simpl in Hf. subst f'.
  apply resolve_In in Hin as (id & _ & Hn).
  destruct (H5 f (nth_error_In _ _ Hn)) as [Hd Hl].
  unfold fpath in Hl. now rewrite Hd in Hl.
Qed.

(** The index by leaf name holds each function under its own leaf name. *)
Lemma fn_by_leafnames_key a k f :
  In (k, f) (fn_by_leafnames (new_FunctionPeer a)) -> leafname f = k.
Proof.
  unfold new_FunctionPeer. cbn [fn_by_leafnames].
  assert (H : forall l idx,
             (forall k0 f0, In (k0, f0) idx -> leafname f0 = k0) ->
             In (k, f) (fold_left (fun idx function =>
                                     dict_set String.eqb (leafname function) function idx)
                                  l idx) ->
             leafname f = k).
  { induction l as [|x l IH]; intros idx Hidx Hin; cbn [fold_left] in Hin;
      [now apply Hidx|].
    eapply IH; [|exact Hin].
    intros k0 f0 Hs.
    apply dict_set_In_gen in Hs as [Hs|[-> [->|Hk]]];
      [now apply Hidx | reflexivity |].
    apply String.eqb_eq in Hk. now symmetry. }
  apply H. intros k0 f0 [].
Qed.

(** A match that the rewrite of raw names did not produce keeps the leaf
    name. *)
Lemma lookup_leafname demangle old_lines new_lines old_file new_file o n :
  ObjDump demangle old_lines = inr old_file ->
  ObjDump demangle new_lines = inr new_file ->
  In o (functions_values old_file) ->
  _lookup (new_FunctionPeer new_file) o = Some n ->
  (dict_has String.eqb (lookup_key o) (functions_items new_file) = true ->
   lookup_key o = rawname o) ->
  leafname n = leafname o.
Proof.
  intros Hold Hnew Ho Hl Hkey.
  pose proof (lookup_In _ _ _ Hl) as Hn.
  rewrite lookup_unfold in Hl. cbn [asmfile new_FunctionPeer] in Hl.
  unfold dict_has in Hkey.
  destruct (dict_get String.eqb (lookup_key o) (functions_items new_file))
    as [f|] eqn:E.
  - injection Hl as <-. specialize (Hkey eq_refl).
    apply dict_get_In in E.
    destruct (parsed_named_by_key _ _ _ Hnew) as [_ Hk].
    apply Hk in E.
    rewrite (parsed_leafname _ _ _ _ Hnew Hn), (parsed_leafname _ _ _ _ Hold Ho).
    congruence.
  - apply dict_get_In in Hl. now apply fn_by_leafnames_key in Hl.
Qed.

(** C1 (caveat).  The rewrite of raw names can make two old functions
    meet: [f] on [gimple_statement_d] is looked up under the raw name of
    [f] on [gimple_statement_base], which the old object has as well; both
    are matched by raw name with the one function of the new object,
    although their leaf names differ. *)
Lemma matchup_rewrite_collision :
  exists old_file new_file,
    ObjDump Samples.cxxfilt MoreSamples.gimple_old = inr old_file
    /\ ObjDump Samples.cxxfilt MoreSamples.gimple_new = inr new_file
    /\ map (fun '(o, n) => (rawname o, leafname o, lookup_key o, rawname n))
           (old_to_new (FunctionMatchupSet old_file new_file))
       = [("_Z1fP18gimple_statement_d", "_Z1fP18gimple_statement_d",
           "_Z1fP21gimple_statement_base", "_Z1fP21gimple_statement_base");
          ("_Z1fP21gimple_statement_base", "_Z1fP21gimple_statement_base",
           "_Z1fP21gimple_statement_base", "_Z1fP21gimple_statement_base")].
Proof.
  eexists _, _.
  split; [vm_compute; reflexivity|].
  split; vm_compute; reflexivity.
Qed.

(** C1 (amended).  For two models parsed with the same demangler, two
    matched old functions are mapped to different new functions in each
    of two cases: both are matched by raw name (their raw names, after
    the fixed rewrite, are keys of the new model's function map) and the
    rewritten raw names differ; or their leaf names differ and neither
    match was produced by the rewrite (a function matched by raw name is
    matched under its own raw name). *)
Theorem matchup_injective (demangle : string -> string)
    (old_lines new_lines : list string) (old_file new_file : AsmFile)
    (o1 o2 n1 n2 : Function) :
  ObjDump demangle old_lines = inr old_file ->
  ObjDump demangle new_lines = inr new_file ->
  In (o1, n1) (old_to_new (FunctionMatchupSet old_file new_file)) ->
  In (o2, n2) (old_to_new (FunctionMatchupSet old_file new_file)) ->
  (dict_has String.eqb (lookup_key o1) (functions_items new_file) = true
   /\ dict_has String.eqb (lookup_key o2) (functions_items new_file) = true
   /\ lookup_key o1 <> lookup_key o2)
  \/ ((dict_has String.eqb (lookup_key o1) (functions_items new_file) = true ->
       lookup_key o1 = rawname o1)
      /\ (dict_has String.eqb (lookup_key o2) (functions_items new_file) = true ->
          lookup_key o2 = rawname o2)
      /\ leafname o1 <> leafname o2) ->
  Function_eqb n1 n2 = false.
Proof.
  intros Hold Hnew H1 H2 Hcases.
  destruct (new_MatchupSet_eq (new_FunctionPeer old_file) (new_FunctionPeer new_file))
    as (_ & _ & Hp).
  specialize (Hp (named_values_NoDup _ (parsed_named_by_key _ _ _ Hold))).
  unfold FunctionMatchupSet in H1, H2. rewrite Hp in H1, H2.
  apply matched_pairs_In in H1 as [Ho1 Hl1].
  apply matched_pairs_In in H2 as [Ho2 Hl2].
  change (items (new_FunctionPeer old_file)) with (functions_values old_file) in *.
  destruct Hcases as [(Hk1 & Hk2 & Hne)|(Hk1 & Hk2 & Hne)].
  - assert (Hexact : forall o n,
               _lookup (new_FunctionPeer new_file) o = Some n ->
               dict_has String.eqb (lookup_key o) (functions_items new_file) = true ->
               rawname n = lookup_key o).
    { intros o n Hl Hhas. rewrite lookup_unfold in Hl.
      cbn [asmfile new_FunctionPeer] in Hl. unfold dict_has in Hhas.
      destruct (dict_get String.eqb (lookup_key o) (functions_items new_file))
        as [f|] eqn:E; [|discriminate].
      injection Hl as <-. apply dict_get_In in E.
      destruct (parsed_named_by_key _ _ _ Hnew) as [_ Hk]. now apply Hk. }
    unfold Function_eqb. apply String.eqb_neq.
    rewrite (Hexact _ _ Hl1 Hk1), (Hexact _ _ Hl2 Hk2). exact Hne.
  - unfold Function_eqb. apply String.eqb_neq. intros Hraw. apply Hne.
    rewrite <- (lookup_leafname _ _ _ _ _ _ _ Hold Hnew Ho1 Hl1 Hk1).
    rewrite <- (lookup_leafname _ _ _ _ _ _ _ Hold Hnew Ho2 Hl2 Hk2).
    rewrite (parsed_leafname _ _ _ _ Hnew (lookup_In _ _ _ Hl1)).
    rewrite (parsed_leafname _ _ _ _ Hnew (lookup_In _ _ _ Hl2)).
    now rewrite Hraw.
Qed.

(** C1 (amended), on two objects with the functions [f] and [g], matched
    by raw name, and on two objects whose functions are matched by leaf
    name. *)
Lemma matchup_injective_example :
  (old_to_new (FunctionMatchupSet Samples.two_old_model Samples.two_new_model)
   = [(Samples.two_old_f, Samples.two_new_f); (Samples.two_old_g, Samples.two_new_g)]
   /\ Function_eqb Samples.two_new_f Samples.two_new_g = false)
  /\ (old_to_new (FunctionMatchupSet MoreSamples.leaf_old_model MoreSamples.leaf_new_model)
      = [(MoreSamples.old_run, MoreSamples.new_run);
         (MoreSamples.old_ctor, MoreSamples.new_ctor)]
      /\ Function_eqb MoreSamples.new_run MoreSamples.new_ctor = false).
Proof.
  split; (split; [reflexivity|]).
  - apply (matchup_injective Samples.cxxfilt Samples.two_old Samples.two_new
             Samples.two_old_model Samples.two_new_model
             Samples.two_old_f Samples.two_old_g).
    + reflexivity.
    + reflexivity.
    + left. reflexivity.
    + right. left. reflexivity.
    + left. split; [reflexivity|]. split; [reflexivity | discriminate].
  - apply (matchup_injective Samples.cxxfilt MoreSamples.leaf_old MoreSamples.leaf_new
             MoreSamples.leaf_old_model MoreSamples.leaf_new_model
             MoreSamples.old_run MoreSamples.old_ctor).
    + reflexivity.
    + reflexivity.
    + left. reflexivity.
    + right. left. reflexivity.
    + right. split; [discriminate|]. split; discriminate.
Defined.

(* ------------------------------------------------------------------ *)
(** ** The lines of the report *)

(** A line as [writeln] writes it at a given indentation level. *)
Definition line (indent : nat) (s : string) : string :=
  (repeat_str indent "  " ++ s ++ blank_line)%string.

Lemma fold_two_lines {A : Type} (p q : A -> string) l out :
  fold_left (fun out x => writeln (writeln out (p x)) (q x)) l out
  = mkOutput (_indent out)
      (fileobj out
         ++ map (line (_indent out)) (flat_map (fun x => [p x; q x]) l)).
Proof.
  revert out; induction l as [|x l IH]; intros [i fo]; cbn [fold_left flat_map map].
  - cbn. now rewrite app_nil_r.
  - rewrite IH. unfold writeln. cbn [_indent fileobj app map]. f_equal.
    rewrite <- !app_assoc. reflexivity.
Qed.

Lemma diff_pairs_indent pairs out just_sizes out' :
  diff_pairs pairs out just_sizes = inr out' -> _indent out' = _indent out.
Proof.
  revert out; induction pairs as [|[o n] pairs IH]; intros out; cbn [diff_pairs].
  - now intros [= <-].
  - destruct (fn_diff o n out just_sizes) as [e|out1] eqn:E; cbn [bind];
      [discriminate|].
    intros H. rewrite (IH _ H). exact (fn_diff_indent _ _ _ _ _ E).
Qed.

(** X23.  The layout of the report.  Whenever [asm_diff] returns, it has
    added to the output, at the indentation level it was called with: the
    two lines naming the objects, the separator, the two summary lines,
    two lines for every function that is gone, two lines for every
    function that appeared, and then the lines of the matched pairs; the
    indentation level is the same at the end. *)
Theorem asm_diff_layout (old_file new_file : AsmFile) (out out' : Output)
    (just_sizes : bool) :
  asm_diff old_file new_file out just_sizes = inr out' ->
  let peers := FunctionMatchupSet old_file new_file in
  _indent out' = _indent out
  /\ exists more,
       fileobj out'
       = fileobj out
           ++ map (line (_indent out))
                ([("Old: " ++ str_of_objpath (objpath old_file))%string;
                  ("New: " ++ str_of_objpath (objpath new_file))%string;
                  "---";
                  summary_functions (count_peers peers);
                  summary_instructions (count_peers peers)]
                 ++ flat_map (fun f => [("--- a/" ++ demangled f)%string;
                                        "+++ /dev/null"])
                             (gone peers)
                 ++ flat_map (fun f => ["--- /dev/null";
                                        ("+++ b/" ++ demangled f)%string])
                             (appeared peers))
           ++ more.
Proof.
  unfold asm_diff. cbv zeta. intros H.
  rewrite indent_exit_enter in H. rewrite !fold_two_lines in H.
  pose proof (diff_pairs_indent _ _ _ _ H) as Hi.
  apply diff_pairs_extends in H as [more Hm].
  cbn [_indent fileobj writeln] in Hi, Hm.
  split; [exact Hi|]. exists more. rewrite Hm.
  rewrite !map_app. cbn [map]. unfold line.
  rewrite <- !app_assoc. reflexivity.
Qed.

Lemma asm_diff_layout_example :
  exists more,
    map ln ["Old: a.o"; "New: b.o"; "---";
            "1 functions added, 1 functions removed, 0 functions changed";
            "0 insertions(+), 0 deletions(-)";
            "--- a/gone"; "+++ /dev/null"; "--- /dev/null"; "+++ b/new"]
    = [] ++ map (line 0)
              ["Old: a.o"; "New: b.o"; "---";
               "1 functions added, 1 functions removed, 0 functions changed";
               "0 insertions(+), 0 deletions(-)";
               "--- a/gone"; "+++ /dev/null"; "--- /dev/null"; "+++ b/new"]
         ++ more.
Proof.
  destruct (asm_diff_layout
              (mkAsmFile (Some "a.o") None None None [] [("gone", 0)] (Scope "::" [])
                 [new_Function None 0 "gone" "gone" "gone"])
              (mkAsmFile (Some "b.o") None None None [] [("new", 0)] (Scope "::" [])
                 [new_Function None 0 "new" "new" "new"])
              (mkOutput 0 []) _ true eq_refl) as [_ [more H]].
  exists more. exact H.
Defined.

(* ------------------------------------------------------------------ *)
(** ** Comparing a model with itself *)

Lemma fn_equal_refl f : fn_equal f f = true.
Proof. rewrite fn_equal_texts. now apply texts_eqb_eq. Qed.

Lemma count_pair_self l c : fold_left count_pair (map (fun f => (f, f)) l) c = c.
Proof.
  revert c; induction l as [|f l IH]; intros c; cbn [map fold_left]; [reflexivity|].
  replace (count_pair c (f, f)) with c; [apply IH|].
  unfold count_pair. now rewrite fn_equal_refl.
Qed.

Lemma diff_pairs_self l out :
  diff_pairs (map (fun f => (f, f)) l) out false
  = inr (fold_left (fun out f =>
                      writeln (writeln out ("--- a/" ++ demangled f))
                              ("+++ b/" ++ demangled f)) l out).
Proof.
  revert out; induction l as [|f l IH]; intros out; cbn [map diff_pairs fold_left];
    [reflexivity|].
  rewrite fn_diff_same. cbn [bind]. apply IH.
Qed.

Lemma lookup_self a f :
  named_by_key a -> In f (functions_values a) -> lookup_key f = rawname f ->
  _lookup (new_FunctionPeer a) f = Some f.
Proof.
  intros Hn Hin Hk. rewrite lookup_unfold, Hk. cbn [asmfile new_FunctionPeer].
  now rewrite (named_lookup_self a f Hn Hin).
Qed.

(** X20.  A parsed model compared with itself, when no raw name is
    changed by the [gimple_statement_d] special case: every function is
    matched with itself, nothing is gone and nothing appeared, all the
    counters are zero, and the full report is the five summary lines
    followed by the two header lines of every function, in order.  So
    [main] on twice the same input prints exactly these lines. *)
Theorem self_comparison (demangle : string -> string) (lines : list string)
    (a : AsmFile) (out : Output) :
  ObjDump demangle lines = inr a ->
  (forall f, In f (functions_values a) -> lookup_key f = rawname f) ->
  let peers := FunctionMatchupSet a a in
  gone peers = []
  /\ appeared peers = []
  /\ old_to_new peers = map (fun f => (f, f)) (functions_values a)
  /\ count_peers peers = mkCounters 0 0 0 0 0
  /\ asm_diff a a out false
     = inr (fold_left
              (fun out f =>
                 writeln (writeln out ("--- a/" ++ demangled f))
                         ("+++ b/" ++ demangled f))
              (functions_values a)
              (writeln (writeln (writeln (writeln (writeln out
                 ("Old: " ++ str_of_objpath (objpath a)))
                 ("New: " ++ str_of_objpath (objpath a)))
                 "---")
                 "0 functions added, 0 functions removed, 0 functions changed")
                 "0 insertions(+), 0 deletions(-)"))
  /\ main demangle lines lines
     = inr (mkOutput 0
              (map ln
                 ([("Old: " ++ str_of_objpath (objpath a))%string;
                   ("New: " ++ str_of_objpath (objpath a))%string;
                   "---";
                   "0 functions added, 0 functions removed, 0 functions changed";
                   "0 insertions(+), 0 deletions(-)"]
                  ++ flat_map (fun f => [("--- a/" ++ demangled f)%string;
                                         ("+++ b/" ++ demangled f)%string])
                              (functions_values a)))).
Proof.
  intros H Hk peers. subst peers.
  pose proof (parsed_named_by_key _ _ _ H) as Hn.
  destruct (new_MatchupSet_eq (new_FunctionPeer a) (new_FunctionPeer a))
    as (Hg & Ha & Hp).
  specialize (Hp (named_values_NoDup _ Hn)).
  destruct (matched_pairs_all (new_FunctionPeer a) (fun f => f) (functions_values a))
    as [Hm Hu].
  { intros o Ho. apply lookup_self; auto. }
  change (items (new_FunctionPeer a)) with (functions_values a) in *.
  change (new_MatchupSet (new_FunctionPeer a) (new_FunctionPeer a))
    with (FunctionMatchupSet a a) in *.
  rewrite Hu in Hg. rewrite Hm in Hp.
  assert (Happ : appeared (FunctionMatchupSet a a) = []).
  { rewrite Ha. apply filter_nil. intros n Hin. apply negb_false_iff.
    unfold matched_to. apply existsb_exists. exists n. split; [exact Hin|].
    rewrite lookup_self by auto. unfold Function_eqb. apply String.eqb_refl. }
  assert (Hc : count_peers (FunctionMatchupSet a a) = mkCounters 0 0 0 0 0).
  { unfold count_peers. rewrite Hg, Happ, Hp. cbn [fold_left]. apply count_pair_self. }
  assert (Hd : forall out0,
             asm_diff a a out0 false
             = inr (fold_left
                      (fun out f =>
                         writeln (writeln out ("--- a/" ++ demangled f))
                                 ("+++ b/" ++ demangled f))
                      (functions_values a)
                      (writeln (writeln (writeln (writeln (writeln out0
                         ("Old: " ++ str_of_objpath (objpath a)))
                         ("New: " ++ str_of_objpath (objpath a)))
                         "---")
                         "0 functions added, 0 functions removed, 0 functions changed")
                         "0 insertions(+), 0 deletions(-)"))).
  { intros out0. unfold asm_diff. cbv zeta. rewrite Hc, Hg, Happ, Hp. cbn [fold_left].
    rewrite indent_exit_enter, diff_pairs_self. reflexivity. }
  split; [exact Hg|]. split; [exact Happ|]. split; [exact Hp|]. split; [exact Hc|].
  split; [apply Hd|].
  unfold main. rewrite H. cbn [bind]. rewrite Hd, fold_two_lines.
  rewrite map_app. reflexivity.
Qed.

Lemma self_comparison_example :
  count_peers (FunctionMatchupSet Samples.two_old_model Samples.two_old_model)
  = mkCounters 0 0 0 0 0.
Proof.
  refine (proj1 (proj2 (proj2 (proj2
            (self_comparison Samples.cxxfilt Samples.two_old Samples.two_old_model
               (mkOutput 0 []) eq_refl _))))).
  intros f [<-|[<-|[]]]; reflexivity.
Defined.

(* ------------------------------------------------------------------ *)
(** ** When the report is produced *)

Lemma fn_diff_with_sections old new out just_sizes :
  section old <> None -> section new <> None ->
  exists out', fn_diff old new out just_sizes = inr out'.
Proof.
  intros Ho Hn. unfold fn_diff. destruct just_sizes.
  - destruct (negb (Z.eqb (size old) (size new)));
      [destruct (negb (String.eqb (rawname old) (rawname new)))|]; eauto.
  - unfold handle_minor_changes.
    destruct (section old) as [so|]; [|congruence].
    destruct (section new) as [sn|]; [|congruence]. simpl.
    destruct (negb (String.eqb (section_name so) (section_name sn))); simpl;
      [eauto|].
    destruct (negb (Z.eqb (offset old) (offset new))); simpl; eauto.
Qed.

Lemma diff_pairs_sizes pairs out : exists out', diff_pairs pairs out true = inr out'.
Proof.
  revert out; induction pairs as [|[o n] pairs IH]; intros out; cbn [diff_pairs];
    [eauto|].
  assert (H : exists out1, fn_diff o n out true = inr out1).
  { unfold fn_diff.
    destruct (negb (Z.eqb (size o) (size n)));
      [destruct (negb (String.eqb (rawname o) (rawname n)))|]; eauto. }
  destruct H as [out1 ->]. cbn [bind]. apply IH.
Qed.

Lemma diff_pairs_with_sections pairs out :
  (forall o n, In (o, n) pairs -> section o <> None /\ section n <> None) ->
  exists out', diff_pairs pairs out false = inr out'.
Proof.
  revert out; induction pairs as [|[o n] pairs IH]; intros out H; cbn [diff_pairs];
    [eauto|].
  destruct (H o n (or_introl eq_refl)) as [Ho Hn].
  destruct (fn_diff_with_sections o n out false Ho Hn) as [out1 ->]. cbn [bind].
  apply IH. intros o' n' Hin. apply H. now right.
Qed.

(** X21.  In size-only mode [asm_diff] always produces its report.  In
    full mode it does so whenever the old model is a parsed one and every
    function of both models has a section. *)
Theorem asm_diff_returns (demangle : string -> string) (old_lines : list string)
    (old_file new_file : AsmFile) (out : Output) :
  (exists out', asm_diff old_file new_file out true = inr out')
  /\ (ObjDump demangle old_lines = inr old_file ->
      (forall f, In f (functions_values old_file) -> section f <> None) ->
      (forall f, In f (functions_values new_file) -> section f <> None) ->
      exists out', asm_diff old_file new_file out false = inr out').
Proof.
  split; [unfold asm_diff; cbv zeta; apply diff_pairs_sizes|].
  intros Hold Hso Hsn. unfold asm_diff. cbv zeta.
  apply diff_pairs_with_sections. intros o n Hin.
  destruct (new_MatchupSet_eq (new_FunctionPeer old_file) (new_FunctionPeer new_file))
    as (_ & _ & Hp).
  specialize (Hp (named_values_NoDup _ (parsed_named_by_key _ _ _ Hold))).
  unfold FunctionMatchupSet in Hin. rewrite Hp in Hin.
  apply matched_pairs_In in Hin as [Ho Hl]. apply lookup_In in Hl.
  split; [now apply Hso | now apply Hsn].
Qed.

Lemma asm_diff_returns_example :
  exists out',
    asm_diff Samples.two_old_model Samples.two_new_model (mkOutput 0 []) false
    = inr out'.
Proof.
  refine (proj2 (asm_diff_returns Samples.cxxfilt Samples.two_old
                   Samples.two_old_model Samples.two_new_model (mkOutput 0 []))
                eq_refl _ _);
    intros f [<-|[<-|[]]]; discriminate.
Defined.

(* ------------------------------------------------------------------ *)
(** ** Sections of the parsed functions *)

Section Sections.

Variable demangle : string -> string.

(** A section marker has been read, and every function has a section. *)
Definition sectioned (a : AsmFile) : Prop :=
  cur_section a <> None /\ forall f, In f (heap a) -> section f <> None.

Lemma heap_update_sectioned id g h :
  (forall f, section (g f) = section f) ->
  (forall f, In f h -> section f <> None) ->
  forall f, In f (heap_update id g h) -> section f <> None.
Proof.
  intros Hg Hh f Hin. apply In_nth_error in Hin as [i Hi].
  apply heap_update_nth in Hi as (f0 & Hn & [->| ->]).
  - apply Hh. eapply nth_error_In; eauto.
  - rewrite Hg. apply Hh. eapply nth_error_In; eauto.
Qed.

Lemma on_line_sectioned a line a' :
  sectioned a -> on_line demangle a line = inr a' -> sectioned a'.
Proof.
  unfold on_line. intros [Hc Hh] H.
  destruct (String.eqb line blank_line); [injection H as <-; now split|].
  destruct (rmatch re_file_format line); [injection H as <-; now split|].
  destruct (rmatch re_section line).
  { injection H as <-. split; [discriminate | exact Hh]. }
  assert (Hi : forall off hexdump text,
             _on_instruction demangle a off hexdump text = inr a' -> sectioned a').
  { intros off hexdump text. unfold _on_instruction.
    destruct (cur_function a) as [id|]; [|discriminate].
    destruct (nth_error (heap a) id) as [f0|]; [|discriminate].
    destruct (fixup_disasm demangle text (rawname f0)) as [e|text']; simpl;
      [discriminate|].
    intros [= <-]. split; [exact Hc|]. cbn [heap set_heap].
    apply heap_update_sectioned; [reflexivity | exact Hh]. }
  destruct (rmatch re_function line) as [m|].
  { unfold _on_function in H.
    destruct (scope_insert _ _ _ _) as [e|root']; simpl in H; [discriminate|].
    injection H as <-. split; [exact Hc|]. cbn [heap].
    intros f Hin. apply in_app_or in Hin as [Hin|[<-|[]]]; [|exact Hc].
    destruct (cur_function a); [|now apply Hh].
    revert f Hin. apply heap_update_sectioned; [reflexivity | exact Hh]. }
  destruct (match_in_function a re_instr line); [eapply Hi; eauto|].
  destruct (match_in_function a re_instr_data line); [eapply Hi; eauto|].
  discriminate.
Qed.

Lemma on_lines_sectioned f a a' :
  sectioned a -> on_lines demangle a f = inr a' -> sectioned a'.
Proof.
  revert a; induction f as [|line f IH]; intros a Hinv H; simpl in H.
  - injection H as <-. exact Hinv.
  - destruct (on_line demangle a line) as [e|a1] eqn:E; simpl in H; [discriminate|].
    eapply IH; [|exact H]. eapply on_line_sectioned; eauto.
Qed.

(** X22.  When a section marker has been read before the first function
    header, every function of the parsed model has a section: [_on_function]
    gives each new function the current section, and nothing takes a
    section away. *)
Theorem functions_have_sections (pre rest : list string) (a0 a : AsmFile) :
  on_lines demangle empty_AsmFile pre = inr a0 ->
  cur_section a0 <> None ->
  heap a0 = [] ->
  ObjDump demangle (pre ++ rest) = inr a ->
  cur_section a <> None
  /\ forall f, In f (functions_values a) -> section f <> None.
Proof.
  intros Hpre Hc Hh H. unfold ObjDump in H.
  rewrite on_lines_app, Hpre in H. cbn [bind] in H.
  assert (Hs : sectioned a).
  { eapply on_lines_sectioned; [|exact H]. split; [exact Hc|].
    rewrite Hh. intros f []. }
  destruct Hs as [Hc' Hh']. split; [exact Hc'|].
  intros f Hin. unfold functions_values, dict_values in Hin.
  apply in_map_iff in Hin as ([k f'] & Hf & Hin). simpl in Hf. subst f'.
  apply resolve_In in Hin as (id & _ & Hn). apply Hh'. eapply nth_error_In; eauto.
Qed.

End Sections.

Lemma functions_have_sections_example :
  cur_section Samples.two_old_model <> None
  /\ forall f, In f (functions_values Samples.two_old_model) -> section f <> None.
Proof.
  apply (functions_have_sections Samples.cxxfilt
           [ln "Disassembly of section .text:"] (tl Samples.two_old)
           (_on_section empty_AsmFile ".text") Samples.two_old_model
           eq_refl ltac:(discriminate) eq_refl eq_refl).
Defined.

(* ------------------------------------------------------------------ *)
(** ** What [finish] keeps *)

Lemma last_cases {A : Type} (l : list A) : l = [] \/ exists l' x, l = l' ++ [x].
Proof. induction l using rev_ind; [now left | right; eauto]. Qed.

(** X24.  [finish] loses no instruction and changes nothing else: the
    real instructions followed by the padding are the instructions it
    started with; the padding is empty, or is the last instruction, which
    then reads [nop]; the size is the byte count of the real
    instructions; section, offset and names are kept. *)
Theorem finish_conserves (f : Function) :
  instrs (finish f) ++ padding (finish f) = instrs f
  /\ (padding (finish f) = []
      \/ exists l i, instrs f = l ++ [i] /\ disasm i = "nop"
                     /\ instrs (finish f) = l /\ padding (finish f) = [i])
  /\ size (finish f)
     = sum_Z (map (fun instr => Z.of_nat (List.length (bytes_ instr))) (instrs (finish f)))
  /\ (section (finish f), offset (finish f), rawname (finish f),
      demangled (finish f), leafname (finish f))
     = (section f, offset f, rawname f, demangled f, leafname f).
Proof.
  split; [apply finish_partition|]. split; [|split; reflexivity].
  destruct (last_cases (instrs f)) as [E|(l & i & E)].
  - left. unfold finish. cbn [padding]. rewrite E. reflexivity.
  - destruct (finish_last_only f l i E) as [Hnop Hother].
    destruct (String.eqb_spec (disasm i) "nop") as [Hi|Hi].
    + right. exists l, i. destruct (Hnop Hi). auto.
    + left. now destruct (Hother Hi).
Qed.

(* ------------------------------------------------------------------ *)
(** ** [_lookup], declaratively *)

Lemma dict_get_set k k' (v : Function) d :
  dict_get String.eqb k (dict_set String.eqb k' v d)
  = if String.eqb k' k then Some v else dict_get String.eqb k d.
Proof.
  destruct (String.eqb_spec k' k) as [->|Hne].
  - apply dict_get_set_same.
  - now apply dict_get_set_other.
Qed.

Lemma by_leafname_last k l :
  dict_get String.eqb k
    (fold_left (fun idx function => dict_set String.eqb (leafname function) function idx)
               l [])
  = find (fun f => String.eqb (leafname f) k) (rev l).
Proof.
  induction l as [|x l IH] using rev_ind; [reflexivity|].
  rewrite fold_left_app, rev_app_distr. cbn [fold_left rev app find].
  rewrite dict_get_set, IH. reflexivity.
Qed.

Lemma by_rawname_first k (d : list (string * Function)) :
  (forall k0 f, In (k0, f) d -> rawname f = k0) ->
  dict_get String.eqb k d = find (fun f => String.eqb (rawname f) k) (map snd d).
Proof.
  induction d as [|[k0 f0] d IH]; intros H; [reflexivity|].
  cbn [dict_get map snd find]. rewrite (H k0 f0 (or_introl eq_refl)).
  destruct (String.eqb k0 k); [reflexivity|].
  apply IH. intros k1 f1 Hin. apply H. now right.
Qed.

(** X25.  What [_lookup] finds in a parsed model: the function whose raw
    name is the old raw name after the [gimple_statement_d] rewrite, if
    there is one; otherwise the last recorded function with the old leaf
    name, later functions having taken the place of earlier ones in
    [fn_by_leafnames]; otherwise nothing. *)
Theorem lookup_spec (demangle : string -> string) (new_lines : list string)
    (new_file : AsmFile) (olditem : Function) :
  ObjDump demangle new_lines = inr new_file ->
  _lookup (new_FunctionPeer new_file) olditem
  = match find (fun f => String.eqb (rawname f) (lookup_key olditem))
               (functions_values new_file) with
    | Some f => Some f
    | None => find (fun f => String.eqb (leafname f) (leafname olditem))
                   (rev (functions_values new_file))
    end.
Proof.
  intros H. destruct (parsed_named_by_key _ _ _ H) as [_ Hk].
  rewrite lookup_unfold. cbn [asmfile fn_by_leafnames new_FunctionPeer].
  rewrite by_leafname_last, (by_rawname_first _ _ Hk). reflexivity.
Qed.

Lemma lookup_spec_example :
  _lookup (new_FunctionPeer Samples.runs_new_model)
          (new_Function None 0 "_ZN1A3runEv" "A::run()" "run()")
  = find (fun f => String.eqb (leafname f) "run()")
         (rev (functions_values Samples.runs_new_model)).
Proof.
  exact (lookup_spec Samples.cxxfilt Samples.runs_new Samples.runs_new_model
           (new_Function None 0 "_ZN1A3runEv" "A::run()" "run()") eq_refl).
Defined.

(* ------------------------------------------------------------------ *)
(** ** The offset column of a full diff *)

Lemma hex_digit_bound c : is_hex c = true -> (hex_digit c <? 16)%Z = true.
Proof. revert c. apply forall_ascii_impl. vm_compute. reflexivity. Qed.

Lemma hex_of_int_long (d : Z) : (16 <= d)%Z -> 2 <= String.length (hex_of_int d).
Proof.
  intros Hd.
  pose proof (hex_of_int_value d ltac:(lia)) as Hv.
  pose proof (hex_of_int_digits d ltac:(lia)) as Hh.
  destruct (hex_of_int d) as [|c [|c' s]]; cbn [String.length]; [| |lia].
  - cbn in Hv. lia.
  - cbn [all_chars] in Hh. apply andb_true_iff in Hh as [Hc _].
    apply hex_digit_bound, Z.ltb_lt in Hc. cbn [hex_value] in Hv. lia.
Qed.

Lemma pad4_long s : 4 <= String.length s -> pad4 s = s.
Proof.
  intros H. unfold pad4.
  replace (4 - String.length s) with 0 by lia. reflexivity.
Qed.

(** X26.  The offset column written by the full diff, ['FN+%04s'] of a
    [HexInt]: only relative offsets below 16 are padded, with one blank
    and never with zeros; from 16 on the offset is written as it is. *)
Theorem diff_instr_column (old : Function) (out : Output)
    (oldinstr newinstr : Instruction) :
  disasm oldinstr = disasm newinstr ->
  let d := (instr_offset oldinstr - offset old)%Z in
  ((0 <= d < 16)%Z ->
     diff_instr old out (oldinstr, newinstr)
     = writeln out ("FN+ 0x" ++ hex_of_int d ++ ": " ++ disasm oldinstr))
  /\ ((16 <= d)%Z ->
        diff_instr old out (oldinstr, newinstr)
        = writeln out ("FN+0x" ++ hex_of_int d ++ ": " ++ disasm oldinstr)).
Proof.
  intros Hsame d. unfold diff_instr. fold d.
  rewrite Hsame, String.eqb_refl. split; intros Hd.
  - assert (Hp : pad4 (str_of_HexInt d) = (" 0x" ++ hex_of_int d)%string).
    { destruct d as [|p|p]; [reflexivity | | lia].
      repeat (destruct p as [p|p|]; try lia; try reflexivity). }
    rewrite Hp. reflexivity.
  - rewrite pad4_long.
    + reflexivity.
    + unfold str_of_HexInt. cbn [append String.length].
      pose proof (hex_of_int_long d Hd). lia.
Qed.

Lemma diff_instr_column_example :
  diff_instr (new_Function None 4096 "f" "f" "f") (mkOutput 1 [])
    (mkInstruction 4112 [195%Z] "ret", mkInstruction 16 [195%Z] "ret")
  = mkOutput 1 [("  FN+0x10: ret" ++ blank_line)%string].
Proof.
  exact (proj2 (diff_instr_column (new_Function None 4096 "f" "f" "f") (mkOutput 1 [])
                  (mkInstruction 4112 [195%Z] "ret") (mkInstruction 16 [195%Z] "ret")
                  eq_refl) ltac:(cbn; lia)).
Defined.
